(** * The connection game of kisser: graph search, puzzle selection, guesses

    A shallow embedding of the game logic of [src/pages/ConnectGame.tsx]
    (the component [ConnectGame]): the helpers [getConnections],
    [areDirectlyConnected], [isGraphConnected] and [findShortestPath], the
    pair selection and session reset of [startNewGame], and the guess
    handler [handleSearchWithName].

    Conventions of the embedding:
    - a JavaScript string is a [string] whose characters stand for UTF-16
      code units below 256 (Latin-1);
    - a JavaScript [Set<string>] is the list of its elements in insertion
      order, without repetition ([JsSet]);
    - JavaScript numbers that hold integers are elements of [Z];
    - a [while] loop is a function by recursion on a step budget; the
      functions that call the loops supply a budget that is proved to be
      enough, so the budget never runs out;
    - [Math.random] is an oracle [rnd : nat -> nat]: the [k]-th call of
      [Math.floor(Math.random() * n)] yields [rnd k mod n];
    - React state is passed explicitly: a handler maps the session it sees
      to the session it leaves. *)

From Stdlib Require Import String Ascii List ZArith Lia Bool Arith PeanoNat.
From Stdlib Require OrderedTypeEx DecimalString DecimalZ DecimalPos.
From Stdlib Require Import Sorted.
Import ListNotations.

Local Open Scope string_scope.
Local Open Scope list_scope.
Local Open Scope nat_scope.

(* ================================================================== *)
(** ** JavaScript strings *)
(* ================================================================== *)

Module JsString.

(** Code units below 256 that [String.prototype.trim] strips: TAB, LF, VT,
    FF, CR, SPACE and NO-BREAK SPACE. *)
Definition isWhiteSpace (c : ascii) : bool :=
  let n := nat_of_ascii c in
  ((9 <=? n) && (n <=? 13)) || (n =? 32) || (n =? 160).

Fixpoint trimStart (s : string) : string :=
  match s with
  | EmptyString => EmptyString
  | String c rest => if isWhiteSpace c then trimStart rest else s
  end.

Fixpoint trimEnd (s : string) : string :=
  match s with
  | EmptyString => EmptyString
  | String c rest =>
      match trimEnd rest with
      | EmptyString => if isWhiteSpace c then EmptyString else String c EmptyString
      | kept => String c kept
      end
  end.

(** [s.trim()] *)
Definition trim (s : string) : string := trimEnd (trimStart s).

(** [!s] for a string: true exactly for the empty string. *)
Definition isFalsy (s : string) : bool :=
  match s with EmptyString => true | _ => false end.

(** Lower-casing of one code unit below 256: A-Z, and the Latin-1 capitals
    U+00C0..U+00DE without the multiplication sign U+00D7. *)
Definition lowerUnit (c : ascii) : ascii :=
  let n := nat_of_ascii c in
  if ((65 <=? n) && (n <=? 90)) ||
     ((192 <=? n) && (n <=? 222) && negb (n =? 215))
  then ascii_of_nat (n + 32) else c.

(** [s.toLowerCase()] *)
Fixpoint toLowerCase (s : string) : string :=
  match s with
  | EmptyString => EmptyString
  | String c rest => String (lowerUnit c) (toLowerCase rest)
  end.

(** Two names differ at most in letter case. *)
Definition sameIgnoringCase (a b : string) : Prop :=
  toLowerCase a = toLowerCase b.

End JsString.

(* ================================================================== *)
(** ** JavaScript [Set<string>] *)
(* ================================================================== *)

Module JsSet.

(** Elements in insertion order. *)
Definition t := list string.

Definition empty : t := [].

(** [s.has(x)] *)
Definition has (x : string) (s : t) : bool := existsb (String.eqb x) s.

(** [s.add(x)] *)
Definition add (x : string) (s : t) : t :=
  if has x s then s else s ++ [x].

(** [new Set(xs)] *)
Definition ofArray (xs : list string) : t :=
  fold_left (fun s x => add x s) xs empty.

(** [Array.from(s)] *)
Definition toArray (s : t) : list string := s.

End JsSet.

(* ================================================================== *)
(** ** Data *)
(* ================================================================== *)

(** [interface Connection] *)
Record Connection : Type := mkConnection {
  id : Z;
  name1 : string;
  name2 : string;
  status : string
}.

(** The element type of [revealedConnections]: [{source, target}]. *)
Record Link : Type := mkLink {
  source : string;
  target : string
}.

(** [interface GameState] *)
Record GameState : Type := mkGameState {
  startPerson : string;
  targetPerson : string;
  revealedPeople : JsSet.t;
  revealedConnections : list Link;
  gameStarted : bool;
  gameWon : bool;
  gameLost : bool;
  attempts : Z;
  maxAttempts : Z;
  timeStarted : Z;
  timeElapsed : Z;
  score : Z
}.

(** What a loop run on a budget of steps gives back. *)
Inductive LoopResult (A : Type) : Type :=
| Returned (a : A)
| OutOfFuel.
Arguments Returned {A} a.
Arguments OutOfFuel {A}.

(* ================================================================== *)
(** ** Graph helpers *)
(* ================================================================== *)

Section Graph.

(** The component state [connections]: the accepted connections. *)
Variable connections : list Connection.

(** [getConnections(personName)] *)
Definition getConnections (personName : string) : list string :=
  map (fun conn =>
         if String.eqb (name1 conn) personName then name2 conn else name1 conn)
      (filter (fun conn =>
                 String.eqb (name1 conn) personName ||
                 String.eqb (name2 conn) personName)
              connections).

(** [areDirectlyConnected(person1, person2)] *)
Definition areDirectlyConnected (person1 person2 : string) : bool :=
  existsb (fun conn =>
             (String.eqb (name1 conn) person1 && String.eqb (name2 conn) person2) ||
             (String.eqb (name1 conn) person2 && String.eqb (name2 conn) person1))
          connections.

(** The set built by
    [connections.forEach(conn => { allPeople.add(conn.name1); allPeople.add(conn.name2) })]. *)
Definition allPeople : JsSet.t :=
  fold_left (fun people conn => JsSet.add (name2 conn) (JsSet.add (name1 conn) people))
            connections JsSet.empty.

End Graph.

(* ------------------------------------------------------------------ *)
(** *** [isGraphConnected] *)
(* ------------------------------------------------------------------ *)

Section IsGraphConnected.

Variable revealed : list Link.
Variable goal : string.

(** The [forEach] in the body of the loop: it pushes, for each link that
    touches [current], the other end when that end is not visited. *)
Definition pushUnvisited (visited : JsSet.t) (current : string)
           (queue : list string) : list string :=
  fold_left
    (fun q conn =>
       let q1 :=
         if String.eqb (source conn) current && negb (JsSet.has (target conn) visited)
         then q ++ [target conn] else q in
       if String.eqb (target conn) current && negb (JsSet.has (source conn) visited)
       then q1 ++ [source conn] else q1)
    revealed queue.

(** The [while (queue.length > 0)] loop. *)
Fixpoint connectedLoop (fuel : nat) (visited : JsSet.t) (queue : list string)
  : LoopResult bool :=
  match fuel with
  | O => OutOfFuel
  | S fuel' =>
      match queue with
      | [] => Returned false
      | current :: rest =>
          if JsSet.has current visited then connectedLoop fuel' visited rest
          else
            let visited' := JsSet.add current visited in
            if String.eqb current goal then Returned true
            else connectedLoop fuel' visited' (pushUnvisited visited' current rest)
      end
  end.

End IsGraphConnected.

(** How many link ends are [person]: a bound on what one [forEach] pushes. *)
Definition linkEnds (revealed : list Link) (person : string) : nat :=
  length (filter (fun conn => String.eqb (source conn) person) revealed) +
  length (filter (fun conn => String.eqb (target conn) person) revealed).

(** Work left: each unvisited entry of [people] may still be visited once
    and then push up to [degree] queue entries. *)
Definition workLeft (degree : string -> nat) (visited : JsSet.t)
           (people : list string) : nat :=
  list_sum (map (fun p => if JsSet.has p visited then 0 else S (degree p)) people).

Definition linkPeople (revealed : list Link) : list string :=
  flat_map (fun conn => [source conn; target conn]) revealed.

(** A budget the loop of [isGraphConnected] cannot use up. *)
Definition connectedBudget (revealed : list Link) : nat :=
  2 + workLeft (linkEnds revealed) JsSet.empty (linkPeople revealed).

(** [isGraphConnected(revealedConnections, startPerson, targetPerson)] *)
Definition isGraphConnected (revealed : list Link) (start goal : string) : bool :=
  if length revealed =? 0 then false
  else
    match connectedLoop revealed goal (connectedBudget revealed) JsSet.empty [start] with
    | Returned answer => answer
    | OutOfFuel => false
    end.

(* ------------------------------------------------------------------ *)
(** *** [findShortestPath] *)
(* ------------------------------------------------------------------ *)

(** A queue entry [{ person, path }]. *)
Record QueueItem : Type := mkItem {
  person : string;
  path : list string
}.

Section FindShortestPath.

Variable connections : list Connection.
Variable goal : string.

(** The [for (const connection of personConnections)] loop: either the
    path returned from inside it, or the queue after it. *)
Fixpoint scanConnections (visited : JsSet.t) (pathSoFar : list string)
         (personConnections : list string) (queue : list QueueItem)
  : list string + list QueueItem :=
  match personConnections with
  | [] => inr queue
  | connection :: more =>
      if String.eqb connection goal then inl (pathSoFar ++ [connection])
      else
        scanConnections visited pathSoFar more
          (if JsSet.has connection visited then queue
           else queue ++ [mkItem connection (pathSoFar ++ [connection])])
  end.

(** The [while (queue.length > 0)] loop. *)
Fixpoint pathLoop (fuel : nat) (visited : JsSet.t) (queue : list QueueItem)
  : LoopResult (option (list string)) :=
  match fuel with
  | O => OutOfFuel
  | S fuel' =>
      match queue with
      | [] => Returned None
      | item :: rest =>
          if JsSet.has (person item) visited then pathLoop fuel' visited rest
          else
            let visited' := JsSet.add (person item) visited in
            match scanConnections visited' (path item)
                                  (getConnections connections (person item)) rest with
            | inl found => Returned (Some found)
            | inr queue' => pathLoop fuel' visited' queue'
            end
      end
  end.

End FindShortestPath.

Definition connectionPeople (connections : list Connection) : list string :=
  flat_map (fun conn => [name1 conn; name2 conn]) connections.

(** A budget the loop of [findShortestPath] cannot use up. *)
Definition pathBudget (connections : list Connection) : nat :=
  2 + workLeft (fun p => length (getConnections connections p)) JsSet.empty
               (connectionPeople connections).

(** [findShortestPath(start, target)]; [None] is [null]. *)
Definition findShortestPath (connections : list Connection) (start goal : string)
  : option (list string) :=
  if String.eqb start goal then Some [start]
  else
    match pathLoop connections goal (pathBudget connections) JsSet.empty
                   [mkItem start [start]] with
    | Returned answer => answer
    | OutOfFuel => None
    end.

(* ================================================================== *)
(** ** [startNewGame] *)
(* ================================================================== *)

Section StartNewGame.

Variable connections : list Connection.

(** [rnd k] stands for the [k]-th value of [Math.random]. *)
Variable rnd : nat -> nat.

(** [Array.from(allPeople)] *)
Definition peopleArray : list string := JsSet.toArray (allPeople connections).

(** [peopleArray[Math.floor(Math.random() * peopleArray.length)]] at the
    [k]-th call of [Math.random]. *)
Definition randomPerson (k : nat) : string :=
  nth (rnd k mod length peopleArray) peopleArray "".

(** The two nested conditions under which the loop keeps a sampled pair. *)
Definition keepsPair (randomStart randomTarget : string) : bool :=
  negb (String.eqb randomStart randomTarget) &&
  negb (areDirectlyConnected connections randomStart randomTarget) &&
  match findShortestPath connections randomStart randomTarget with
  | Some found => (3 <=? length found) && (length found <=? 6)
  | None => false
  end.

(** The loop [while (attempts < maxAttempts && peopleArray.length >= 2)]
    with [maxAttempts = 100]; [remaining] is [maxAttempts - attempts].
    It yields [startPerson] and [targetPerson], both [''] when no pair
    was kept. *)
Fixpoint sampleLoop (remaining tried : nat) : string * string :=
  match remaining with
  | O => ("", "")
  | S remaining' =>
      let randomStart := randomPerson (2 * tried) in
      let randomTarget := randomPerson (2 * tried + 1) in
      if keepsPair randomStart randomTarget then (randomStart, randomTarget)
      else sampleLoop remaining' (S tried)
  end.

(** Pair selection with its fallback; [None] is the [alert] and [return]. *)
Definition choosePair : option (string * string) :=
  let sampled :=
    if 2 <=? length peopleArray then sampleLoop 100 0 else ("", "") in
  if JsString.isFalsy (fst sampled) || JsString.isFalsy (snd sampled) then
    if 2 <=? length peopleArray
    then Some (nth 0 peopleArray "", nth 1 peopleArray "")
    else None
  else Some sampled.

(** [startNewGame()]: the session handed to [setGameState], or [None] when
    the function returns without setting one. [now] is [Date.now()]. *)
Definition startNewGame (loading : bool) (now : Z) : option GameState :=
  if loading || (length connections =? 0) then None
  else
    match choosePair with
    | None => None
    | Some (start, goal) =>
        Some {| startPerson := start;
                targetPerson := goal;
                revealedPeople := JsSet.ofArray [start; goal];
                revealedConnections := [];
                gameStarted := true;
                gameWon := false;
                gameLost := false;
                attempts := 0%Z;
                maxAttempts := 100%Z;
                timeStarted := now;
                timeElapsed := 0%Z;
                score := 0%Z |}
    end.

End StartNewGame.

(* ================================================================== *)
(** ** [handleSearchWithName] *)
(* ================================================================== *)

(** [{...prev, attempts: n}] and the other object spreads of the handler. *)
Definition withAttempts (n : Z) (prev : GameState) : GameState :=
  {| startPerson := startPerson prev; targetPerson := targetPerson prev;
     revealedPeople := revealedPeople prev;
     revealedConnections := revealedConnections prev;
     gameStarted := gameStarted prev; gameWon := gameWon prev;
     gameLost := gameLost prev; attempts := n; maxAttempts := maxAttempts prev;
     timeStarted := timeStarted prev; timeElapsed := timeElapsed prev;
     score := score prev |}.

Definition withGameLost (prev : GameState) : GameState :=
  {| startPerson := startPerson prev; targetPerson := targetPerson prev;
     revealedPeople := revealedPeople prev;
     revealedConnections := revealedConnections prev;
     gameStarted := gameStarted prev; gameWon := gameWon prev;
     gameLost := true; attempts := attempts prev; maxAttempts := maxAttempts prev;
     timeStarted := timeStarted prev; timeElapsed := timeElapsed prev;
     score := score prev |}.

Definition withGameWon (newScore : Z) (prev : GameState) : GameState :=
  {| startPerson := startPerson prev; targetPerson := targetPerson prev;
     revealedPeople := revealedPeople prev;
     revealedConnections := revealedConnections prev;
     gameStarted := gameStarted prev; gameWon := true;
     gameLost := gameLost prev; attempts := attempts prev;
     maxAttempts := maxAttempts prev;
     timeStarted := timeStarted prev; timeElapsed := timeElapsed prev;
     score := newScore |}.

Definition withRevealed (people : JsSet.t) (links : list Link) (n : Z)
           (prev : GameState) : GameState :=
  {| startPerson := startPerson prev; targetPerson := targetPerson prev;
     revealedPeople := people;
     revealedConnections := links;
     gameStarted := gameStarted prev; gameWon := gameWon prev;
     gameLost := gameLost prev; attempts := n; maxAttempts := maxAttempts prev;
     timeStarted := timeStarted prev; timeElapsed := timeElapsed prev;
     score := score prev |}.

Definition withTimeElapsed (elapsed : Z) (prev : GameState) : GameState :=
  {| startPerson := startPerson prev; targetPerson := targetPerson prev;
     revealedPeople := revealedPeople prev;
     revealedConnections := revealedConnections prev;
     gameStarted := gameStarted prev; gameWon := gameWon prev;
     gameLost := gameLost prev; attempts := attempts prev;
     maxAttempts := maxAttempts prev;
     timeStarted := timeStarted prev; timeElapsed := elapsed;
     score := score prev |}.

(** The exits of the handler, in the order of its guards. The three middle
    ones are the branches that set [searchError]. *)
Inductive GuessBranch : Type :=
| Ignored            (* blank input, or the game is already won or lost *)
| NotFound           (* 'Pessoa nao encontrada no banco de dados' *)
| AlreadyRevealed    (* 'Esta pessoa ja foi revelada' *)
| NoLinkToRevealed   (* no connection with any revealed person *)
| Revealed.          (* the person and its links are added *)

Section Guess.

Variable connections : list Connection.

(** The guards of [handleSearchWithName], top to bottom. *)
Definition guessBranch (nameToSearch : string) (gameState : GameState)
  : GuessBranch :=
  let searchName := JsString.trim nameToSearch in
  if JsString.isFalsy searchName || gameWon gameState || gameLost gameState
  then Ignored
  else if negb (JsSet.has searchName (allPeople connections)) then NotFound
  else if JsSet.has searchName (revealedPeople gameState) then AlreadyRevealed
  else if negb (existsb (fun revealedPerson =>
                           areDirectlyConnected connections searchName revealedPerson)
                        (JsSet.toArray (revealedPeople gameState)))
  then NoLinkToRevealed
  else Revealed.

(** The update shared by the two charged error branches. *)
Definition chargeAttempt (newAttempts : Z) (gameState : GameState) : GameState :=
  if (newAttempts >=? maxAttempts gameState)%Z
  then withGameLost (withAttempts newAttempts gameState)
  else withAttempts newAttempts gameState.

(** The score set on a win. *)
Definition winScore (gameState : GameState) (newAttempts : Z) : Z :=
  let timeBonus := Z.max 0 (300 - timeElapsed gameState / 1000) in
  let attemptsBonus := Z.max 0 ((maxAttempts gameState - newAttempts) * 50) in
  (1000 + timeBonus + attemptsBonus)%Z.

(** [handleSearchWithName(nameToSearch)]: the session after the call. *)
Definition handleSearchWithName (nameToSearch : string) (gameState : GameState)
  : GameState :=
  let searchName := JsString.trim nameToSearch in
  let newAttempts := (attempts gameState + 1)%Z in
  match guessBranch nameToSearch gameState with
  | Ignored => gameState
  | NotFound => chargeAttempt newAttempts gameState
  | AlreadyRevealed => gameState
  | NoLinkToRevealed => chargeAttempt newAttempts gameState
  | Revealed =>
      let newConnections :=
        map (fun revealedPerson => mkLink searchName revealedPerson)
            (filter (fun revealedPerson =>
                       areDirectlyConnected connections searchName revealedPerson)
                    (JsSet.toArray (revealedPeople gameState))) in
      let newPeople := JsSet.add searchName (revealedPeople gameState) in
      let updatedConnections := revealedConnections gameState ++ newConnections in
      let updated := withRevealed newPeople updatedConnections newAttempts gameState in
      if isGraphConnected updatedConnections (startPerson gameState)
                          (targetPerson gameState)
      then withGameWon (winScore gameState newAttempts) updated
      else if (newAttempts >=? maxAttempts gameState)%Z then withGameLost updated
      else updated
  end.

End Guess.

(** The interval callback installed while a game is running:
    [timeElapsed: Date.now() - prev.timeStarted]. *)
Definition tick (now : Z) (prev : GameState) : GameState :=
  if gameStarted prev && negb (gameWon prev) && negb (gameLost prev)
  then withTimeElapsed (now - timeStarted prev)%Z prev
  else prev.

(** Sessions a player can be in: set by [startNewGame], then changed by
    guesses and by the clock. *)
Inductive reachable (connections : list Connection) : GameState -> Prop :=
| reach_start : forall rnd loading now s,
    startNewGame connections rnd loading now = Some s ->
    reachable connections s
| reach_guess : forall nameToSearch s,
    reachable connections s ->
    reachable connections (handleSearchWithName connections nameToSearch s)
| reach_tick : forall now s,
    reachable connections s ->
    reachable connections (tick now s).

(** A game that is running: started, neither won nor lost. *)
Definition inProgress (s : GameState) : Prop :=
  gameStarted s = true /\ gameWon s = false /\ gameLost s = false.

(* ================================================================== *)
(** ** Vocabulary of the statements *)
(* ================================================================== *)

(** [walk adj n a b]: [b] is reached from [a] along [n] edges of [adj]. *)
Inductive walk (adj : string -> string -> Prop) : nat -> string -> string -> Prop :=
| walk_here : forall a, walk adj 0 a a
| walk_step : forall n a b c, walk adj n a b -> adj b c -> walk adj (S n) a c.
Arguments walk_here {adj} a.
Arguments walk_step {adj n a b c} _ _.

(** Some walk leads from [a] to [b]. *)
Definition connected (adj : string -> string -> Prop) (a b : string) : Prop :=
  exists n, walk adj n a b.

(** Adjacency in the full graph, and in a list of revealed links. *)
Definition linked (connections : list Connection) (a b : string) : Prop :=
  areDirectlyConnected connections a b = true.

Definition joined (revealed : list Link) (a b : string) : Prop :=
  exists l, In l revealed /\
            ((source l = a /\ target l = b) \/ (target l = a /\ source l = b)).

(** [edgesOf]: the full edge list in the shape [isGraphConnected] takes. *)
Definition edgesOf (connections : list Connection) : list Link :=
  map (fun c => mkLink (name1 c) (name2 c)) connections.

(** Every two neighbours in the list are directly connected. *)
Fixpoint stepsLinked (connections : list Connection) (names : list string) : bool :=
  match names with
  | a :: rest =>
      match rest with
      | b :: _ => areDirectlyConnected connections a b && stepsLinked connections rest
      | [] => true
      end
  | [] => true
  end.

(** [names] is a path of the graph from [a] to [b]: it begins at [a], ends
    at [b], and each element is directly connected to the next. *)
Definition validPath (connections : list Connection) (a b : string)
           (names : list string) : bool :=
  match names with
  | [] => false
  | first :: _ =>
      String.eqb first a && String.eqb (last names "") b &&
      stepsLinked connections names
  end.

(** What one [forEach] of [isGraphConnected] appends to the queue. *)
Definition pushedBy (revealed : list Link) (visited : JsSet.t) (current : string)
  : list string :=
  flat_map
    (fun l =>
       (if String.eqb (source l) current && negb (JsSet.has (target l) visited)
        then [target l] else []) ++
       (if String.eqb (target l) current && negb (JsSet.has (source l) visited)
        then [source l] else []))
    revealed.

(** What one run of the [for] loop of [findShortestPath] appends when it
    does not return. *)
Definition queuedBy (visited : JsSet.t) (pathSoFar : list string)
           (personConnections : list string) : list QueueItem :=
  map (fun c => mkItem c (pathSoFar ++ [c]))
      (filter (fun c => negb (JsSet.has c visited)) personConnections).

(** What holds of [visited] and [queue] each time the loop of
    [isGraphConnected] tests its condition. *)
Record reachInv (revealed : list Link) (start goal : string)
       (visited : JsSet.t) (queue : list string) : Prop := {
  ri_queue : forall x, In x queue -> connected (joined revealed) start x;
  ri_closed : forall u w, JsSet.has u visited = true -> joined revealed u w ->
                          JsSet.has w visited = true \/ In w queue;
  ri_goal : JsSet.has goal visited = false;
  ri_start : JsSet.has start visited = true \/ In start queue
}.

(** What holds each time the loop of [findShortestPath] tests its condition.
    The queue is [now ++ next]: the entries of [now] carry paths of [k]
    edges, those of [next] paths of [k + 1] edges. *)
Record searchInv (connections : list Connection) (start goal : string) (k : nat)
       (visited : JsSet.t) (now next : list QueueItem) : Prop := {
  si_now : Forall (fun it => validPath connections start (person it) (path it) = true
                             /\ length (path it) = S k) now;
  si_next : Forall (fun it => validPath connections start (person it) (path it) = true
                              /\ length (path it) = S (S k)) next;
  si_below : forall j w, j < k -> walk (linked connections) j start w ->
                         JsSet.has w visited = true;
  si_level : forall w, walk (linked connections) k start w ->
                       JsSet.has w visited = true \/ In w (map person now);
  si_closed : forall u w, JsSet.has u visited = true -> linked connections u w ->
                          JsSet.has w visited = true \/
                          In w (map person (now ++ next));
  si_goal : forall u, JsSet.has u visited = true -> ~ linked connections u goal
}.

(** What [findShortestPath] owes for an answer of its loop, when [start]
    and [goal] differ: a found path is a path of the graph and no walk is
    shorter; [null] means that no walk exists. *)
Definition pathPost (connections : list Connection) (start goal : string)
           (answer : option (list string)) : Prop :=
  match answer with
  | Some found =>
      validPath connections start goal found = true /\
      forall n, walk (linked connections) n start goal -> length found <= S n
  | None => forall n, ~ walk (linked connections) n start goal
  end.

(** The score as the specification words it:
    [base + timeBonus + attemptsBonus]. *)
Definition computeScore (elapsedMs attemptsUsed maxAttemptsAllowed : Z) : Z :=
  let base := 1000%Z in
  let timeBonus := Z.max 0 (300 - elapsedMs / 1000) in
  let attemptsBonus := Z.max 0 ((maxAttemptsAllowed - attemptsUsed) * 50) in
  (base + timeBonus + attemptsBonus)%Z.

(** What every session a player can be in satisfies. *)
Record sessionInv (connections : list Connection) (s : GameState) : Prop := {
  inv_started : gameStarted s = true;
  inv_links : forall l, In l (revealedConnections s) ->
      areDirectlyConnected connections (source l) (target l) = true /\
      JsSet.has (source l) (revealedPeople s) = true /\
      JsSet.has (target l) (revealedPeople s) = true;
  inv_known : forall p, JsSet.has p (revealedPeople s) = true ->
                        JsSet.has p (allPeople connections) = true;
  inv_ends : JsSet.has (startPerson s) (revealedPeople s) = true /\
             JsSet.has (targetPerson s) (revealedPeople s) = true;
  inv_budget : gameWon s = false -> gameLost s = false ->
               (0 <= attempts s < maxAttempts s)%Z;
  inv_open : gameWon s = false ->
             isGraphConnected (revealedConnections s) (startPerson s)
                              (targetPerson s) = false;
  inv_won : gameWon s = true ->
            isGraphConnected (revealedConnections s) (startPerson s)
                             (targetPerson s) = true;
  inv_lost : gameLost s = true ->
             gameWon s = false /\ attempts s = maxAttempts s
}.

(* ================================================================== *)
(** ** Sample sessions *)
(* ================================================================== *)

(** An accepted connection between [a] and [b]. *)
Definition accepted (a b : string) : Connection := mkConnection 0 a b "accepted".

(** The chain A - B - C - D. *)
Definition chain4 : list Connection :=
  [accepted "A" "B"; accepted "B" "C"; accepted "C" "D"].

(** The first draw picks the person of index 0, every later draw the one of
    index 3. *)
Definition draws03 (k : nat) : nat := match k with 0 => 0 | _ => 3 end.

(** Every draw picks the person of index 0. *)
Definition drawsZero (k : nat) : nat := 0.

(** The session [startNewGame] sets for [connections] with the draws [rnd]
    at time 0; the session before the first game when it sets none. *)
Definition sessionOf (connections : list Connection) (rnd : nat -> nat) : GameState :=
  match startNewGame connections rnd false 0%Z with
  | Some s => s
  | None => mkGameState "" "" JsSet.empty [] false false false 0 100 0 0 0
  end.

(** On the chain A - B - C - D: the game from A to D. *)
Definition chain4Start : GameState := sessionOf chain4 draws03.

(** The same game after the guesses B and C: won. *)
Definition chain4Won : GameState :=
  handleSearchWithName chain4 "C" (handleSearchWithName chain4 "B" chain4Start).

(** The chain A - B - C. *)
Definition chain3 : list Connection := [accepted "A" "B"; accepted "B" "C"].

(** One connection whose first name starts with a space. *)
Definition padded : list Connection := [accepted " A" "B"].

Definition paddedStart : GameState := sessionOf padded drawsZero.

(* ================================================================== *)
(** ** Further vocabulary: the revealed graph *)
(* ================================================================== *)

(** More of what every session a player can be in satisfies: how the
    revealed people and links are laid out. *)
Record sessionLayout (connections : list Connection) (s : GameState) : Prop := {
  lay_distinct : startPerson s <> targetPerson s;
  lay_people : NoDup (revealedPeople s);
  lay_links : NoDup (revealedConnections s);
  lay_one_way : forall l l', In l (revealedConnections s) ->
                             In l' (revealedConnections s) ->
                             source l' = target l -> target l' <> source l;
  lay_guessed : forall l, In l (revealedConnections s) ->
                          source l <> startPerson s /\ source l <> targetPerson s;
  lay_count : (2 <= Z.of_nat (length (revealedPeople s)) <= attempts s + 2)%Z;
  lay_attached : forall p, In p (revealedPeople s) ->
      connected (joined (revealedConnections s)) (startPerson s) p \/
      connected (joined (revealedConnections s)) (targetPerson s) p;
  lay_complete : forall p q, In p (revealedPeople s) -> In q (revealedPeople s) ->
      p <> q -> areDirectlyConnected connections p q = true ->
      (p = startPerson s /\ q = targetPerson s) \/
      (p = targetPerson s /\ q = startPerson s) \/
      joined (revealedConnections s) p q
}.

(** The guesses [names], made one after the other. *)
Definition guessAll (connections : list Connection) (names : list string)
           (s : GameState) : GameState :=
  fold_left (fun session nameToSearch =>
               handleSearchWithName connections nameToSearch session)
            names s.

(** The names of a path strictly between its first and its last. *)
Definition inner (names : list string) : list string := removelast (tl names).

(* ================================================================== *)
(** ** More of JavaScript: [includes], [sort], [toString], [padStart] *)
(* ================================================================== *)

Module Js.

(** [hay.includes(needle)] *)
Fixpoint includes (hay needle : string) : bool :=
  String.prefix needle hay ||
  match hay with
  | EmptyString => false
  | String _ rest => includes rest needle
  end.

(** One step of sorting: [x] put before the first element not below it. *)
Fixpoint insertSorted (x : string) (sorted : list string) : list string :=
  match sorted with
  | [] => [x]
  | y :: rest => if String.leb x y then x :: sorted else y :: insertSorted x rest
  end.

(** [names.sort()], the default order of JavaScript: strings compared code
    unit by code unit. *)
Definition sort (names : list string) : list string :=
  fold_right insertSorted [] names.

(** [Number.MAX_SAFE_INTEGER], [2^53 - 1]: up to it, in magnitude, every
    integer is a number of JavaScript, and the numbers the functions below
    compute are the integers they stand for. *)
Definition maxSafeInteger : Z := 9007199254740991%Z.

(** [n.toString()] for an integer [n] of magnitude at most
    [maxSafeInteger], which JavaScript prints in plain decimal digits. *)
Definition toString (n : Z) : string :=
  DecimalString.NilZero.string_of_int (Z.to_int n).

(** [c] repeated [n] times. *)
Fixpoint repeatUnit (n : nat) (c : ascii) : string :=
  match n with
  | O => EmptyString
  | S n' => String c (repeatUnit n' c)
  end.

(** [s.padStart(targetLength, c)] for a pad string of the single unit [c]. *)
Definition padStart (targetLength : nat) (c : ascii) (s : string) : string :=
  (repeatUnit (targetLength - String.length s) c ++ s)%string.

End Js.

(* ================================================================== *)
(** ** Suggestions, key presses, hints and the clock display *)
(* ================================================================== *)

(** [getAllPeople()] *)
Definition getAllPeople (connections : list Connection) : list string :=
  Js.sort (JsSet.toArray (allPeople connections)).

(** [getFilteredSuggestions()], for the typed [searchQuery]. *)
Definition getFilteredSuggestions (connections : list Connection)
           (searchQuery : string) (gameState : GameState) : list string :=
  if JsString.isFalsy (JsString.trim searchQuery) then []
  else
    let query := JsString.trim (JsString.toLowerCase searchQuery) in
    firstn 8
      (filter (fun name =>
                 Js.includes (JsString.toLowerCase name) query &&
                 negb (JsSet.has name (revealedPeople gameState)))
              (getAllPeople connections)).

(** The keys [handleKeyPress] tells apart. *)
Inductive Key : Type := KeyEnter | KeyArrowDown | KeyArrowUp | KeyEscape | KeyOther.

(** [suggestions[index]] for an integer index; [None] is [undefined]. *)
Definition suggestionAt (suggestions : list string) (index : Z) : option string :=
  if (index <? 0)%Z then None else nth_error suggestions (Z.to_nat index).

(** What a key press does: the next [selectedSuggestionIndex], and the name
    handed to [handleSearchWithName], if any. *)
Record KeyEffect : Type := mkKeyEffect {
  selection : Z;
  submitted : option string
}.

(** [handleKeyPress(e)], with [suggestions = getFilteredSuggestions()]. *)
Definition handleKeyPress (key : Key) (suggestions : list string)
           (searchQuery : string) (selectedSuggestionIndex : Z) : KeyEffect :=
  match key with
  | KeyEnter =>
      match suggestionAt suggestions selectedSuggestionIndex with
      | Some suggestion =>
          if (selectedSuggestionIndex >=? 0)%Z && negb (JsString.isFalsy suggestion)
          then mkKeyEffect (-1) (Some suggestion)
          else mkKeyEffect selectedSuggestionIndex (Some searchQuery)
      | None => mkKeyEffect selectedSuggestionIndex (Some searchQuery)
      end
  | KeyArrowDown =>
      mkKeyEffect
        (if (selectedSuggestionIndex <? Z.of_nat (length suggestions) - 1)%Z
         then selectedSuggestionIndex + 1 else selectedSuggestionIndex)%Z
        None
  | KeyArrowUp =>
      mkKeyEffect
        (if (selectedSuggestionIndex >? 0)%Z
         then selectedSuggestionIndex - 1 else -1)%Z
        None
  | KeyEscape => mkKeyEffect (-1) None
  | KeyOther => mkKeyEffect selectedSuggestionIndex None
  end.

(** What [getHint] does to the hint line. *)
Inductive HintResult : Type :=
| HintUnchanged                 (* the game is not running *)
| HintTry (person : string)     (* 'Tente: ' followed by the person *)
| HintNone.                     (* no hint available *)

(** The nested conditions under which [getHint] names [person]. *)
Definition hintFits (connections : list Connection) (gameState : GameState)
           (person : string) : bool :=
  negb (JsSet.has person (revealedPeople gameState)) &&
  existsb (fun revealed => areDirectlyConnected connections person revealed)
          (JsSet.toArray (revealedPeople gameState)) &&
  match findShortestPath connections person (targetPerson gameState) with
  | Some pathToTarget =>
      (Z.of_nat (length pathToTarget)
       <=? maxAttempts gameState - attempts gameState + 2)%Z
  | None => false
  end.

(** [getHint()] *)
Definition getHint (connections : list Connection) (gameState : GameState)
  : HintResult :=
  if negb (gameStarted gameState) || gameWon gameState || gameLost gameState
  then HintUnchanged
  else
    match find (hintFits connections gameState)
               (JsSet.toArray (allPeople connections)) with
    | Some person => HintTry person
    | None => HintNone
    end.

(** [formatTime(ms)] for an integer [ms] of magnitude at most
    [Js.maxSafeInteger], as a difference of two [Date.now()] is: there
    [Math.floor] of the quotients of the code is the integer division, and
    [%] the remainder that has the sign of [seconds]. Beyond that range the
    numbers of the code are rounded, and this definition says nothing of
    them. *)
Definition formatTime (ms : Z) : string :=
  let seconds := (ms / 1000)%Z in
  let minutes := (seconds / 60)%Z in
  (Js.toString minutes ++ ":" ++
   Js.padStart 2 "0"%char (Js.toString (Z.rem seconds 60)))%string.

(** The whole number a decimal string spells, if it spells one. *)
Definition readWhole (s : string) : option Z :=
  option_map Z.of_int (DecimalString.NilZero.int_of_string s).

(* ================================================================== *)
(** ** The path game: the second [ConnectGame] of [ConnectGame.tsx] *)
(* ================================================================== *)

(** The file holds a second component [ConnectGame], in which the player
    walks from the start person to the target person one direct connection
    at a time. Its [getConnections], [areDirectlyConnected] and
    [findShortestPath] are the functions modelled above, word for word, and
    the loop that samples a pair keeps it under the same conditions
    ([path.length > 2] for [path.length >= 3]). *)
Module PathGame.

(** [interface GameState] *)
Record GameState : Type := mkGameState {
  startPerson : string;
  targetPerson : string;
  currentPath : list string;
  gameStarted : bool;
  gameWon : bool;
  gameLost : bool;
  attempts : Z;
  maxAttempts : Z;
  timeStarted : Z;
  timeElapsed : Z;
  score : Z
}.

(** [interface GameStats] *)
Record GameStats : Type := mkGameStats {
  gamesPlayed : Z;
  gamesWon : Z;
  bestTime : Z;
  totalScore : Z
}.

(** Pair selection of [startNewGame]: the sampled pair, or else the first
    and the last person; [None] is the [alert] and [return]. *)
Definition choosePair (connections : list Connection) (rnd : nat -> nat)
  : option (string * string) :=
  let people := peopleArray connections in
  let sampled :=
    if 2 <=? length people then sampleLoop connections rnd 100 0 else ("", "") in
  if JsString.isFalsy (fst sampled) || JsString.isFalsy (snd sampled) then
    if 2 <=? length people
    then Some (nth 0 people "", nth (length people - 1) people "")
    else None
  else Some sampled.

(** [startNewGame()]: the session handed to [setGameState], if any. *)
Definition startNewGame (connections : list Connection) (rnd : nat -> nat)
           (loading : bool) (now : Z) : option GameState :=
  if loading || (length connections =? 0) then None
  else
    match choosePair connections rnd with
    | None => None
    | Some (start, goal) =>
        Some {| startPerson := start;
                targetPerson := goal;
                currentPath := [start];
                gameStarted := true;
                gameWon := false;
                gameLost := false;
                attempts := 0%Z;
                maxAttempts := 6%Z;
                timeStarted := now;
                timeElapsed := 0%Z;
                score := 0%Z |}
    end.

(** [currentPath[currentPath.length - 1]]; [None] is [undefined]. *)
Definition currentPerson (gameState : GameState) : option string :=
  match currentPath gameState with
  | [] => None
  | first :: rest => Some (last rest first)
  end.

(** [{...prev, currentPath, attempts}] with the two flags and the score
    as given. *)
Definition moved (newPath : list string) (newAttempts : Z) (won lost : bool)
           (newScore : Z) (prev : GameState) : GameState :=
  {| startPerson := startPerson prev; targetPerson := targetPerson prev;
     currentPath := newPath;
     gameStarted := gameStarted prev; gameWon := won; gameLost := lost;
     attempts := newAttempts; maxAttempts := maxAttempts prev;
     timeStarted := timeStarted prev; timeElapsed := timeElapsed prev;
     score := newScore |}.

(** [addPersonToPath(personName)]: the session and the statistics after
    the call. *)
Definition addPersonToPath (connections : list Connection) (personName : string)
           (gameState : GameState) (gameStats : GameStats)
  : GameState * GameStats :=
  match currentPerson gameState with
  | None => (gameState, gameStats)
  | Some current =>
      if negb (areDirectlyConnected connections current personName)
      then (gameState, gameStats)
      else
        let newPath := currentPath gameState ++ [personName] in
        let newAttempts := (attempts gameState + 1)%Z in
        if String.eqb personName (targetPerson gameState) then
          let timeBonus := Z.max 0 (300 - timeElapsed gameState / 1000) in
          let pathBonus := Z.max 0 ((6 - Z.of_nat (length newPath)) * 50) in
          let newScore := (1000 + timeBonus + pathBonus)%Z in
          (moved newPath newAttempts true (gameLost gameState) newScore gameState,
           {| gamesPlayed := gamesPlayed gameStats + 1;
              gamesWon := gamesWon gameStats + 1;
              bestTime := if (bestTime gameStats =? 0)%Z then timeElapsed gameState
                          else Z.min (bestTime gameStats) (timeElapsed gameState);
              totalScore := totalScore gameStats + newScore |})
        else if (newAttempts >=? maxAttempts gameState)%Z then
          (moved newPath newAttempts (gameWon gameState) true (score gameState)
                 gameState,
           {| gamesPlayed := gamesPlayed gameStats + 1;
              gamesWon := gamesWon gameStats;
              bestTime := bestTime gameStats;
              totalScore := totalScore gameStats |})
        else
          (moved newPath newAttempts (gameWon gameState) (gameLost gameState)
                 (score gameState) gameState,
           gameStats)
  end.

(** [handleSearchChange(value)]: the suggestions it sets. *)
Definition handleSearchChange (connections : list Connection) (value : string)
           (gameState : GameState) : list string :=
  if negb (JsString.isFalsy (JsString.trim value)) && gameStarted gameState &&
     negb (gameWon gameState) && negb (gameLost gameState)
  then
    let personConnections :=
      match currentPerson gameState with
      | Some current => getConnections connections current
      | None => []
      end in
    firstn 5
      (filter (fun name =>
                 Js.includes (JsString.toLowerCase name) (JsString.toLowerCase value) &&
                 negb (existsb (String.eqb name) (currentPath gameState)))
              personConnections)
  else [].

(** The callback of the timer effect, run with [Date.now()] equal to
    [now]; the interval exists only while the game runs. *)
Definition tick (now : Z) (prev : GameState) : GameState :=
  if gameStarted prev && negb (gameWon prev) && negb (gameLost prev)
  then {| startPerson := startPerson prev; targetPerson := targetPerson prev;
          currentPath := currentPath prev;
          gameStarted := gameStarted prev; gameWon := gameWon prev;
          gameLost := gameLost prev;
          attempts := attempts prev; maxAttempts := maxAttempts prev;
          timeStarted := timeStarted prev;
          timeElapsed := (now - timeStarted prev)%Z;
          score := score prev |}
  else prev.

(** The moves [names], made one after the other. *)
Definition walkAlong (connections : list Connection) (names : list string)
           (play : GameState * GameStats) : GameState * GameStats :=
  fold_left (fun p personName => addPersonToPath connections personName (fst p) (snd p))
            names play.

(** Sessions and statistics a player can be in: the statistics start at
    zero, a new game keeps them, the clock changes the session, and moves
    (the page makes them with suggested names; here with any name) change
    both. *)
Inductive reachable (connections : list Connection)
  : GameState -> GameStats -> Prop :=
| reach_first : forall rnd loading now s,
    startNewGame connections rnd loading now = Some s ->
    reachable connections s (mkGameStats 0 0 0 0)
| reach_again : forall rnd loading now s old stats,
    reachable connections old stats ->
    startNewGame connections rnd loading now = Some s ->
    reachable connections s stats
| reach_clock : forall now s stats,
    reachable connections s stats ->
    reachable connections (tick now s) stats
| reach_move : forall personName s stats,
    reachable connections s stats ->
    reachable connections (fst (addPersonToPath connections personName s stats))
              (snd (addPersonToPath connections personName s stats)).

(** What every reachable session and statistics of the path game
    satisfy. *)
Record pathInv (connections : list Connection) (s : GameState) (stats : GameStats)
  : Prop := {
  pi_distinct : startPerson s <> targetPerson s;
  pi_path : exists here, currentPerson s = Some here /\
                         validPath connections (startPerson s) here (currentPath s) = true;
  pi_attempts : attempts s = (Z.of_nat (length (currentPath s)) - 1)%Z;
  pi_max : maxAttempts s = 6%Z;
  pi_won : gameWon s = true <-> In (targetPerson s) (currentPath s);
  pi_lost : gameLost s = true -> (maxAttempts s <= attempts s)%Z;
  pi_stats : (0 <= gamesWon stats <= gamesPlayed stats)%Z /\
             (1000 * gamesWon stats <= totalScore stats)%Z
}.

End PathGame.

(** Sessions of the path game in which every move is a click on a
    suggestion, the one place the page calls [addPersonToPath] from; the
    suggestions shown are those of the last [handleSearchChange], and
    they do not depend on the clock. *)
Inductive played (connections : list Connection)
  : PathGame.GameState -> PathGame.GameStats -> Prop :=
| played_first : forall rnd loading now s,
    PathGame.startNewGame connections rnd loading now = Some s ->
    played connections s (PathGame.mkGameStats 0 0 0 0)
| played_again : forall rnd loading now s old stats,
    played connections old stats ->
    PathGame.startNewGame connections rnd loading now = Some s ->
    played connections s stats
| played_clock : forall now s stats,
    played connections s stats ->
    played connections (PathGame.tick now s) stats
| played_click : forall value suggestion s stats,
    played connections s stats ->
    In suggestion (PathGame.handleSearchChange connections value s) ->
    played connections
      (fst (PathGame.addPersonToPath connections suggestion s stats))
      (snd (PathGame.addPersonToPath connections suggestion s stats)).

(** The path game [startNewGame] sets for [connections] with the draws
    [rnd] at time 0, with the statistics of a first game. *)
Definition pathGameOf (connections : list Connection) (rnd : nat -> nat)
  : PathGame.GameState * PathGame.GameStats :=
  (match PathGame.startNewGame connections rnd false 0%Z with
   | Some s => s
   | None => PathGame.mkGameState "" "" [] false false false 0 6 0 0 0
   end,
   PathGame.mkGameStats 0 0 0 0).

(** On the chain A - B - C - D: the path game from A to D. *)
Definition chain4Path : PathGame.GameState * PathGame.GameStats :=
  pathGameOf chain4 draws03.

(** The same game after the move to B. *)
Definition chain4PathB : PathGame.GameState * PathGame.GameStats :=
  PathGame.addPersonToPath chain4 "B" (fst chain4Path) (snd chain4Path).

(* ================================================================== *)
(** ** Facts about sets and strings *)
(* ================================================================== *)

Lemma has_In : forall x s, JsSet.has x s = true <-> In x s.
Proof.
  intros x s. unfold JsSet.has. rewrite existsb_exists. split.
  - intros [y [Hy Heq]]. apply String.eqb_eq in Heq. now subst.
  - intros H. exists x. split; [assumption | apply String.eqb_refl].
Qed.

Lemma has_false_In : forall x s, JsSet.has x s = false <-> ~ In x s.
Proof.
  intros x s. rewrite <- has_In. destruct (JsSet.has x s); split; congruence.
Qed.

Lemma In_add : forall x y s, In x (JsSet.add y s) <-> x = y \/ In x s.
Proof.
  intros x y s. unfold JsSet.add. destruct (JsSet.has y s) eqn:Hy.
  - apply has_In in Hy. split; [auto | intros [-> | H]; assumption].
  - rewrite in_app_iff. simpl. intuition congruence.
Qed.

Lemma has_add : forall x y s,
  JsSet.has x (JsSet.add y s) = true <-> x = y \/ JsSet.has x s = true.
Proof. intros. rewrite !has_In. apply In_add. Qed.

Lemma has_add_same : forall x s, JsSet.has x (JsSet.add x s) = true.
Proof. intros. apply has_add. now left. Qed.

Lemma has_add_keep : forall x y s,
  JsSet.has x s = true -> JsSet.has x (JsSet.add y s) = true.
Proof. intros. apply has_add. now right. Qed.

Lemma isFalsy_true : forall s, JsString.isFalsy s = true <-> s = "".
Proof. intros [|c s]; simpl; split; congruence. Qed.

(* ================================================================== *)
(** ** Walks in a graph *)
(* ================================================================== *)

Section Walks.

Variable adj : string -> string -> Prop.

Lemma walk_zero : forall a b, walk adj 0 a b -> a = b.
Proof. intros a b H. now inversion H. Qed.

Lemma walk_last : forall n a c,
  walk adj (S n) a c -> exists b, walk adj n a b /\ adj b c.
Proof. intros n a c H. inversion H; subst. eauto. Qed.

Lemma walk_front : forall n b c,
  walk adj n b c -> forall a, adj a b -> walk adj (S n) a c.
Proof.
  induction 1 as [b | n b m c Hw IH Hmc]; intros a Hab.
  - apply (walk_step (b := a)); [constructor | assumption].
  - apply (walk_step (b := m)); auto.
Qed.

(** A set of visited names that contains [a] and is closed under [adj]
    contains everything connected to [a]. *)
Lemma closed_set_covers : forall (visited : JsSet.t) a,
  JsSet.has a visited = true ->
  (forall u w, JsSet.has u visited = true -> adj u w ->
               JsSet.has w visited = true) ->
  forall n b, walk adj n a b -> JsSet.has b visited = true.
Proof.
  intros visited a Ha Hclosed n b Hw.
  induction Hw; eauto.
Qed.

End Walks.

Lemma areDirectlyConnected_spec : forall connections a b,
  areDirectlyConnected connections a b = true <->
  exists c, In c connections /\
            ((name1 c = a /\ name2 c = b) \/ (name1 c = b /\ name2 c = a)).
Proof.
  intros connections a b. unfold areDirectlyConnected.
  rewrite existsb_exists. split; intros [c [Hin H]]; exists c; split; trivial.
  - apply orb_true_iff in H.
    destruct H as [H | H]; apply andb_true_iff in H; destruct H as [H1 H2];
      apply String.eqb_eq in H1, H2; auto.
  - apply orb_true_iff.
    destruct H as [[H1 H2] | [H1 H2]]; [left | right];
      apply andb_true_iff; split; apply String.eqb_eq; assumption.
Qed.

Lemma areDirectlyConnected_sym : forall connections a b,
  areDirectlyConnected connections a b = areDirectlyConnected connections b a.
Proof.
  intros connections a b. unfold areDirectlyConnected.
  induction connections as [|c rest IH]; simpl; [reflexivity |].
  rewrite IH. f_equal. apply orb_comm.
Qed.

Lemma getConnections_spec : forall connections a b,
  In b (getConnections connections a) <->
  areDirectlyConnected connections a b = true.
Proof.
  intros connections a b. rewrite areDirectlyConnected_spec.
  unfold getConnections. rewrite in_map_iff. split.
  - intros [c [Hb Hc]]. apply filter_In in Hc. destruct Hc as [Hin Hc].
    exists c. split; trivial.
    destruct (String.eqb_spec (name1 c) a) as [E1 | N1].
    + left. auto.
    + right. simpl in Hc. apply String.eqb_eq in Hc. auto.
  - intros [c [Hin H]]. exists c. split.
    + destruct H as [[H1 H2] | [H1 H2]].
      * rewrite <- H1, String.eqb_refl. assumption.
      * destruct (String.eqb_spec (name1 c) a); congruence.
    + apply filter_In. split; trivial. apply orb_true_iff.
      destruct H as [[H1 H2] | [H1 H2]]; [left | right];
        apply String.eqb_eq; assumption.
Qed.

Lemma joined_edgesOf : forall connections a b,
  joined (edgesOf connections) a b <-> linked connections a b.
Proof.
  intros connections a b. unfold joined, linked, edgesOf.
  rewrite areDirectlyConnected_spec. split.
  - intros [l [Hl H]]. apply in_map_iff in Hl. destruct Hl as [c [<- Hc]].
    exists c. simpl in H. split; trivial.
    destruct H as [[H1 H2] | [H1 H2]]; auto.
  - intros [c [Hc H]]. exists (mkLink (name1 c) (name2 c)). split.
    + apply in_map_iff. eauto.
    + simpl. destruct H as [[H1 H2] | [H1 H2]]; auto.
Qed.

Lemma walk_edgesOf : forall connections n a b,
  walk (joined (edgesOf connections)) n a b <-> walk (linked connections) n a b.
Proof.
  intros connections n a b. split; induction 1.
  - constructor.
  - eapply walk_step; eauto. now apply joined_edgesOf.
  - constructor.
  - eapply walk_step; eauto. now apply joined_edgesOf.
Qed.

(* ================================================================== *)
(** ** The loops end within their budgets *)
(* ================================================================== *)

Section WorkLeft.

Variable degree : string -> nat.

Lemma workLeft_add_le : forall v visited people,
  workLeft degree (JsSet.add v visited) people <= workLeft degree visited people.
Proof.
  intros v visited people. unfold workLeft.
  induction people as [|p ps IH]; simpl; [lia |].
  destruct (JsSet.has p visited) eqn:Hp.
  - rewrite (has_add_keep _ v _ Hp). lia.
  - destruct (JsSet.has p (JsSet.add v visited)); lia.
Qed.

Lemma workLeft_add_in : forall v visited people,
  JsSet.has v visited = false -> In v people ->
  workLeft degree (JsSet.add v visited) people + S (degree v)
  <= workLeft degree visited people.
Proof.
  intros v visited people Hv. induction people as [|p ps IH]; intros Hin.
  - destruct Hin.
  - destruct Hin as [-> | Hin].
    + pose proof (workLeft_add_le v visited ps) as Hle.
      unfold workLeft in *. simpl. rewrite Hv, has_add_same. lia.
    + specialize (IH Hin). unfold workLeft in *. simpl.
      destruct (JsSet.has p visited) eqn:Hp.
      * rewrite (has_add_keep _ v _ Hp). lia.
      * destruct (JsSet.has p (JsSet.add v visited)); lia.
Qed.

(** Visiting [v] pays for the [degree v] entries it may push, and for the
    step itself, as long as names outside [people] push nothing. *)
Lemma workLeft_visit : forall v visited people,
  JsSet.has v visited = false ->
  (~ In v people -> degree v = 0) ->
  workLeft degree (JsSet.add v visited) people + degree v
  <= workLeft degree visited people.
Proof.
  intros v visited people Hv Hout.
  destruct (in_dec string_dec v people) as [Hin | Hnin].
  - pose proof (workLeft_add_in v visited people Hv Hin). lia.
  - rewrite (Hout Hnin). pose proof (workLeft_add_le v visited people). lia.
Qed.

End WorkLeft.

(** *** [isGraphConnected] *)

Lemma pushUnvisited_app : forall revealed visited current queue,
  pushUnvisited revealed visited current queue
  = queue ++ pushedBy revealed visited current.
Proof.
  intros revealed visited current. unfold pushUnvisited, pushedBy.
  induction revealed as [|l rest IH]; intros queue; simpl.
  - now rewrite app_nil_r.
  - rewrite IH.
    destruct (String.eqb (source l) current && negb (JsSet.has (target l) visited));
      destruct (String.eqb (target l) current && negb (JsSet.has (source l) visited));
      simpl; rewrite <- ?app_assoc; reflexivity.
Qed.

Lemma pushedBy_length : forall revealed visited current,
  length (pushedBy revealed visited current) <= linkEnds revealed current.
Proof.
  intros revealed visited current. unfold pushedBy, linkEnds.
  induction revealed as [|l rest IH]; simpl; [lia |].
  rewrite length_app, length_app.
  destruct (String.eqb (source l) current);
    destruct (String.eqb (target l) current);
    destruct (JsSet.has (target l) visited);
    destruct (JsSet.has (source l) visited); simpl; lia.
Qed.

Lemma In_pushedBy : forall revealed visited current w,
  In w (pushedBy revealed visited current) <->
  joined revealed current w /\ JsSet.has w visited = false.
Proof.
  intros revealed visited current w. unfold pushedBy, joined.
  rewrite in_flat_map. split.
  - intros [l [Hl Hw]]. apply in_app_iff in Hw. destruct Hw as [Hw | Hw].
    + destruct (String.eqb_spec (source l) current) as [E | N]; simpl in Hw;
        [| contradiction].
      destruct (JsSet.has (target l) visited) eqn:Hv; simpl in Hw; [contradiction |].
      destruct Hw as [<- | []]. split; [exists l; auto | assumption].
    + destruct (String.eqb_spec (target l) current) as [E | N]; simpl in Hw;
        [| contradiction].
      destruct (JsSet.has (source l) visited) eqn:Hv; simpl in Hw; [contradiction |].
      destruct Hw as [<- | []]. split; [exists l; auto | assumption].
  - intros [[l [Hl H]] Hv]. exists l. split; trivial. apply in_app_iff.
    destruct H as [[H1 H2] | [H1 H2]]; [left | right];
      rewrite H1, String.eqb_refl, H2, Hv; simpl; auto.
Qed.

Lemma linkEnds_outside : forall revealed p,
  ~ In p (linkPeople revealed) -> linkEnds revealed p = 0.
Proof.
  intros revealed p. unfold linkPeople, linkEnds.
  induction revealed as [|l rest IH]; simpl; intros Hp; [reflexivity |].
  destruct (String.eqb_spec (source l) p) as [E | N]; [tauto |].
  destruct (String.eqb_spec (target l) p) as [E' | N']; [tauto |].
  apply IH. tauto.
Qed.

Lemma connectedLoop_ends : forall revealed goal fuel visited queue,
  length queue + workLeft (linkEnds revealed) visited (linkPeople revealed) < fuel ->
  exists answer, connectedLoop revealed goal fuel visited queue = Returned answer.
Proof.
  intros revealed goal. induction fuel as [|fuel IH]; intros visited queue Hfuel.
  - lia.
  - destruct queue as [|current rest]; simpl; [eauto |].
    destruct (JsSet.has current visited) eqn:Hv.
    + apply IH. simpl in Hfuel. lia.
    + destruct (String.eqb current goal); [eauto |].
      apply IH. rewrite pushUnvisited_app, length_app.
      pose proof (pushedBy_length revealed (JsSet.add current visited) current).
      pose proof (workLeft_visit (linkEnds revealed) current visited
                    (linkPeople revealed) Hv (linkEnds_outside revealed current)).
      simpl in Hfuel. lia.
Qed.

Lemma isGraphConnected_loop : forall revealed start goal,
  revealed <> [] ->
  connectedLoop revealed goal (connectedBudget revealed) JsSet.empty [start]
  = Returned (isGraphConnected revealed start goal).
Proof.
  intros revealed start goal Hne. unfold isGraphConnected.
  destruct revealed as [|l rest]; [congruence |]. simpl length. simpl Nat.eqb.
  destruct (connectedLoop_ends (l :: rest) goal (connectedBudget (l :: rest))
              JsSet.empty [start]) as [answer Ha].
  - unfold connectedBudget. simpl length. lia.
  - now rewrite Ha.
Qed.

(** *** [findShortestPath] *)

Lemma scanConnections_spec : forall goal visited pathSoFar cs queue,
  match scanConnections goal visited pathSoFar cs queue with
  | inl found => found = pathSoFar ++ [goal] /\ In goal cs
  | inr queue' => ~ In goal cs /\ queue' = queue ++ queuedBy visited pathSoFar cs
  end.
Proof.
  intros goal visited pathSoFar. unfold queuedBy.
  induction cs as [|c more IH]; intros queue; simpl.
  - split; [tauto | now rewrite app_nil_r].
  - destruct (String.eqb_spec c goal) as [-> | Hne].
    + split; auto.
    + specialize (IH (if JsSet.has c visited then queue
                      else queue ++ [mkItem c (pathSoFar ++ [c])])).
      destruct (scanConnections goal visited pathSoFar more _) as [found | queue'].
      * destruct IH as [-> Hin]. split; auto.
      * destruct IH as [Hnin ->]. split; [intuition congruence |].
        destruct (JsSet.has c visited); simpl; [reflexivity |].
        now rewrite <- app_assoc.
Qed.

Lemma queuedBy_length : forall visited pathSoFar cs,
  length (queuedBy visited pathSoFar cs) <= length cs.
Proof.
  intros. unfold queuedBy. rewrite length_map. apply filter_length_le.
Qed.

Lemma getConnections_outside : forall connections p,
  ~ In p (connectionPeople connections) ->
  length (getConnections connections p) = 0.
Proof.
  intros connections p. unfold connectionPeople, getConnections.
  induction connections as [|c rest IH]; simpl; intros Hp; [reflexivity |].
  destruct (String.eqb_spec (name1 c) p) as [E | N]; [tauto |].
  destruct (String.eqb_spec (name2 c) p) as [E' | N']; [tauto |].
  simpl. apply IH. tauto.
Qed.

Lemma pathLoop_ends : forall connections goal fuel visited queue,
  length queue +
  workLeft (fun p => length (getConnections connections p)) visited
           (connectionPeople connections) < fuel ->
  exists answer, pathLoop connections goal fuel visited queue = Returned answer.
Proof.
  intros connections goal. induction fuel as [|fuel IH]; intros visited queue Hfuel.
  - lia.
  - destruct queue as [|item rest]; simpl; [eauto |].
    destruct (JsSet.has (person item) visited) eqn:Hv.
    + apply IH. simpl in Hfuel. lia.
    + pose proof (scanConnections_spec goal (JsSet.add (person item) visited)
                    (path item) (getConnections connections (person item)) rest)
        as Hscan.
      destruct (scanConnections goal _ _ _ rest) as [found | queue']; [eauto |].
      destruct Hscan as [_ ->]. apply IH. rewrite length_app.
      pose proof (queuedBy_length (JsSet.add (person item) visited) (path item)
                    (getConnections connections (person item))).
      pose proof (workLeft_visit (fun p => length (getConnections connections p))
                    (person item) visited (connectionPeople connections) Hv
                    (getConnections_outside connections (person item))).
      simpl in Hfuel. simpl in *. lia.
Qed.

Lemma findShortestPath_loop : forall connections start goal,
  start <> goal ->
  pathLoop connections goal (pathBudget connections) JsSet.empty
           [mkItem start [start]]
  = Returned (findShortestPath connections start goal).
Proof.
  intros connections start goal Hne. unfold findShortestPath.
  destruct (String.eqb_spec start goal) as [E | _]; [contradiction |].
  destruct (pathLoop_ends connections goal (pathBudget connections)
              JsSet.empty [mkItem start [start]]) as [answer Ha].
  - unfold pathBudget. simpl length. lia.
  - now rewrite Ha.
Qed.

(** *** A larger budget changes no answer *)

Lemma connectedLoop_more_fuel : forall revealed goal fuel extra visited queue answer,
  connectedLoop revealed goal fuel visited queue = Returned answer ->
  connectedLoop revealed goal (fuel + extra) visited queue = Returned answer.
Proof.
  intros revealed goal. induction fuel as [|fuel IH];
    intros extra visited queue answer Hrun; [discriminate |].
  simpl in *. destruct queue as [|current rest]; [assumption |].
  destruct (JsSet.has current visited); [now apply IH |].
  destruct (String.eqb current goal); [assumption | now apply IH].
Qed.

Lemma pathLoop_more_fuel : forall connections goal fuel extra visited queue answer,
  pathLoop connections goal fuel visited queue = Returned answer ->
  pathLoop connections goal (fuel + extra) visited queue = Returned answer.
Proof.
  intros connections goal. induction fuel as [|fuel IH];
    intros extra visited queue answer Hrun; [discriminate |].
  simpl in *. destruct queue as [|item rest]; [assumption |].
  destruct (JsSet.has (person item) visited); [now apply IH |].
  destruct (scanConnections goal _ _ _ rest); [assumption | now apply IH].
Qed.

(* ================================================================== *)
(** ** [isGraphConnected] decides connection *)
(* ================================================================== *)

Section ConnectedCorrect.

Variable revealed : list Link.
Variables start goal : string.

Local Abbreviation reaches := (connected (joined revealed) start).
Local Abbreviation inv := (reachInv revealed start goal).

Lemma reachInv_init : inv JsSet.empty [start].
Proof.
  split.
  - intros x [<- | []]. exists 0. constructor.
  - discriminate.
  - reflexivity.
  - right. now left.
Qed.

Lemma reachInv_skip : forall visited current rest,
  inv visited (current :: rest) ->
  JsSet.has current visited = true ->
  inv visited rest.
Proof.
  intros visited current rest [Hq Hc Hg Hs] Hv. split; trivial.
  - intros x Hx. apply Hq. now right.
  - intros u w Hu Huw. destruct (Hc u w Hu Huw) as [H | [<- | H]]; auto.
  - destruct Hs as [H | [<- | H]]; auto.
Qed.

Lemma reachInv_visit : forall visited current rest,
  inv visited (current :: rest) ->
  current <> goal ->
  inv (JsSet.add current visited)
           (rest ++ pushedBy revealed (JsSet.add current visited) current).
Proof.
  intros visited current rest [Hq Hc Hg Hs] Hne. split.
  - intros x Hx. apply in_app_iff in Hx. destruct Hx as [Hx | Hx].
    + apply Hq. now right.
    + apply In_pushedBy in Hx. destruct Hx as [Hj _].
      destruct (Hq current (or_introl eq_refl)) as [n Hn].
      exists (S n). eapply walk_step; eauto.
  - intros u w Hu Huw. apply has_add in Hu.
    destruct (JsSet.has w (JsSet.add current visited)) eqn:Hw; [now left |].
    right. apply in_app_iff. destruct Hu as [-> | Hu].
    + right. apply In_pushedBy. auto.
    + destruct (Hc u w Hu Huw) as [H | [<- | H]]; auto.
      * rewrite (has_add_keep _ current _ H) in Hw. discriminate.
      * rewrite has_add_same in Hw. discriminate.
  - apply has_false_In. intros Hin. apply In_add in Hin.
    destruct Hin as [E | Hin]; [congruence |].
    apply has_In in Hin. congruence.
  - destruct Hs as [H | [<- | H]].
    + left. now apply has_add_keep.
    + left. apply has_add_same.
    + right. apply in_app_iff. now left.
Qed.

Lemma reachInv_done : forall visited,
  inv visited [] -> ~ reaches goal.
Proof.
  intros visited [Hq Hc Hg Hs] [n Hn].
  assert (Hin : JsSet.has goal visited = true).
  { apply (closed_set_covers (joined revealed) visited start) with n; trivial.
    - destruct Hs as [H | []]. assumption.
    - intros u w Hu Huw. destruct (Hc u w Hu Huw) as [H | []]. assumption. }
  congruence.
Qed.

Lemma connectedLoop_correct : forall fuel visited queue answer,
  inv visited queue ->
  connectedLoop revealed goal fuel visited queue = Returned answer ->
  (answer = true <-> reaches goal).
Proof.
  induction fuel as [|fuel IH]; intros visited queue answer Hinv Hrun;
    simpl in Hrun; [discriminate |].
  destruct queue as [|current rest].
  - injection Hrun as <-. split; [discriminate |].
    intros H. now apply (reachInv_done visited Hinv) in H.
  - destruct (JsSet.has current visited) eqn:Hv.
    + eapply IH; [| exact Hrun]. eapply reachInv_skip; eauto.
    + destruct (String.eqb_spec current goal) as [E | Hne].
      * injection Hrun as <-. split; trivial. intros _.
        rewrite <- E. apply (ri_queue _ _ _ _ _ Hinv). now left.
      * eapply IH; [| exact Hrun]. rewrite pushUnvisited_app.
        now apply reachInv_visit.
Qed.

End ConnectedCorrect.

Lemma isGraphConnected_empty : forall start goal,
  isGraphConnected [] start goal = false.
Proof. reflexivity. Qed.

Lemma isGraphConnected_spec : forall revealed start goal,
  revealed <> [] ->
  (isGraphConnected revealed start goal = true <->
   connected (joined revealed) start goal).
Proof.
  intros revealed start goal Hne.
  apply (connectedLoop_correct revealed start goal (connectedBudget revealed)
           JsSet.empty [start]).
  - apply reachInv_init.
  - now apply isGraphConnected_loop.
Qed.

Lemma isGraphConnected_sound : forall revealed start goal,
  isGraphConnected revealed start goal = true ->
  connected (joined revealed) start goal.
Proof.
  intros revealed start goal H. destruct revealed as [|l rest].
  - rewrite isGraphConnected_empty in H. discriminate.
  - apply isGraphConnected_spec in H; [assumption | discriminate].
Qed.

(* ================================================================== *)
(** ** [findShortestPath] finds a shortest path *)
(* ================================================================== *)

Lemma stepsLinked_snoc : forall connections names c,
  stepsLinked connections (names ++ [c])
  = stepsLinked connections names &&
    match names with
    | [] => true
    | _ => areDirectlyConnected connections (last names "") c
    end.
Proof.
  intros connections names c. induction names as [|a rest IH]; [reflexivity |].
  destruct rest as [|b rest'].
  - simpl. now rewrite andb_true_r.
  - change (stepsLinked connections ((a :: b :: rest') ++ [c]))
      with (areDirectlyConnected connections a b &&
            stepsLinked connections ((b :: rest') ++ [c])).
    rewrite IH.
    change (stepsLinked connections (a :: b :: rest'))
      with (areDirectlyConnected connections a b &&
            stepsLinked connections (b :: rest')).
    change (last (a :: b :: rest') "") with (last (b :: rest') "").
    now rewrite andb_assoc.
Qed.

Lemma validPath_snoc : forall connections a b c names,
  validPath connections a b names = true ->
  areDirectlyConnected connections b c = true ->
  validPath connections a c (names ++ [c]) = true.
Proof.
  intros connections a b c names Hvalid Hbc.
  destruct names as [|first rest]; [discriminate |].
  unfold validPath in Hvalid.
  apply andb_true_iff in Hvalid. destruct Hvalid as [Hends Hsteps].
  apply andb_true_iff in Hends. destruct Hends as [Hfirst Hlast].
  apply String.eqb_eq in Hlast.
  change (validPath connections a c ((first :: rest) ++ [c]))
    with (String.eqb first a && String.eqb (last ((first :: rest) ++ [c]) "") c &&
          stepsLinked connections ((first :: rest) ++ [c])).
  rewrite Hfirst, last_last, String.eqb_refl, stepsLinked_snoc, Hsteps, Hlast, Hbc.
  reflexivity.
Qed.

Lemma validPath_walk : forall connections names a b,
  validPath connections a b names = true ->
  walk (linked connections) (length names - 1) a b.
Proof.
  intros connections. induction names as [|x rest IH]; intros a b Hvalid;
    [discriminate |].
  unfold validPath in Hvalid.
  apply andb_true_iff in Hvalid. destruct Hvalid as [Hends Hsteps].
  apply andb_true_iff in Hends. destruct Hends as [Hfirst Hlast].
  apply String.eqb_eq in Hfirst, Hlast. subst x.
  destruct rest as [|y rest'].
  - simpl in Hlast. subst b. constructor.
  - simpl in Hsteps. apply andb_true_iff in Hsteps. destruct Hsteps as [Hay Hrest].
    assert (Hsub : validPath connections y b (y :: rest') = true).
    { unfold validPath. rewrite String.eqb_refl.
      change (last (a :: y :: rest') "") with (last (y :: rest') "") in Hlast.
      rewrite Hlast, String.eqb_refl. exact Hrest. }
    apply IH in Hsub. simpl in Hsub. rewrite Nat.sub_0_r in Hsub.
    simpl. apply walk_front with y; assumption.
Qed.

Lemma In_queuedBy : forall visited pathSoFar cs w,
  In w (map person (queuedBy visited pathSoFar cs)) <->
  In w cs /\ JsSet.has w visited = false.
Proof.
  intros visited pathSoFar cs w. unfold queuedBy.
  rewrite map_map. simpl. rewrite map_id, filter_In, negb_true_iff. tauto.
Qed.

Section PathCorrect.

Variable connections : list Connection.
Variables start goal : string.
Hypothesis start_not_goal : start <> goal.

Local Abbreviation inv := (searchInv connections start goal).
Local Abbreviation post := (pathPost connections start goal).

Lemma searchInv_init : inv 0 JsSet.empty [mkItem start [start]] [].
Proof.
  split.
  - constructor; [| constructor]. simpl. now rewrite String.eqb_refl.
  - constructor.
  - intros j w Hj. lia.
  - intros w Hw. apply walk_zero in Hw. subst w. right. now left.
  - discriminate.
  - discriminate.
Qed.

Lemma searchInv_skip : forall k visited it now next,
  inv k visited (it :: now) next ->
  JsSet.has (person it) visited = true ->
  inv k visited now next.
Proof.
  intros k visited it now next [Hnow Hnext Hbelow Hlevel Hclosed Hgoal] Hv.
  split.
  - now inversion Hnow.
  - exact Hnext.
  - exact Hbelow.
  - intros w Hw. destruct (Hlevel w Hw) as [H | [<- | H]]; auto.
  - intros u w Hu Huw. destruct (Hclosed u w Hu Huw) as [H | [<- | H]]; auto.
  - exact Hgoal.
Qed.

Lemma searchInv_visit : forall k visited it now next,
  inv k visited (it :: now) next ->
  ~ In goal (getConnections connections (person it)) ->
  inv k (JsSet.add (person it) visited) now
      (next ++ queuedBy (JsSet.add (person it) visited) (path it)
                        (getConnections connections (person it))).
Proof.
  intros k visited it now next [Hnow Hnext Hbelow Hlevel Hclosed Hgoal] Hscan.
  inversion Hnow as [| it' now' [Hpath Hlen] Hnow']; subst.
  split.
  - assumption.
  - apply Forall_app. split; [assumption |].
    unfold queuedBy. apply Forall_forall. intros item Hitem.
    apply in_map_iff in Hitem. destruct Hitem as [c [<- Hc]].
    apply filter_In in Hc. destruct Hc as [Hc _]. simpl. split.
    + apply validPath_snoc with (person it); [assumption |].
      now apply getConnections_spec.
    + rewrite length_app, Hlen. simpl. lia.
  - intros j w Hj Hw. apply has_add_keep. eauto.
  - intros w Hw. destruct (Hlevel w Hw) as [H | [<- | H]].
    + left. now apply has_add_keep.
    + left. apply has_add_same.
    + now right.
  - intros u w Hu Huw.
    destruct (JsSet.has w (JsSet.add (person it) visited)) eqn:Hw; [now left |].
    right. rewrite app_assoc, map_app, in_app_iff.
    apply has_add in Hu. destruct Hu as [-> | Hu].
    + right. apply In_queuedBy. split; [| assumption].
      now apply getConnections_spec.
    + left. destruct (Hclosed u w Hu Huw) as [H | [<- | H]].
      * rewrite (has_add_keep _ (person it) _ H) in Hw. discriminate.
      * rewrite has_add_same in Hw. discriminate.
      * assumption.
  - intros u Hu Hug. apply has_add in Hu. destruct Hu as [-> | Hu].
    + apply Hscan. now apply getConnections_spec.
    + now apply (Hgoal u).
Qed.

Lemma searchInv_shift : forall k visited next,
  inv k visited [] next -> inv (S k) visited next [].
Proof.
  intros k visited next [Hnow Hnext Hbelow Hlevel Hclosed Hgoal].
  assert (Hall : forall w, walk (linked connections) k start w ->
                           JsSet.has w visited = true).
  { intros w Hw. destruct (Hlevel w Hw) as [H | []]. assumption. }
  split.
  - exact Hnext.
  - constructor.
  - intros j w Hj Hw. destruct (Nat.eq_dec j k) as [-> | Hne]; [auto |].
    apply (Hbelow j); [lia | assumption].
  - intros w Hw. apply walk_last in Hw. destruct Hw as [u [Hu Huw]].
    apply (Hclosed u w (Hall u Hu) Huw).
  - intros u w Hu Huw. rewrite app_nil_r. apply (Hclosed u w Hu Huw).
  - exact Hgoal.
Qed.

Lemma searchInv_done : forall k visited,
  inv k visited [] [] -> forall n, ~ walk (linked connections) n start goal.
Proof.
  intros k visited [Hnow Hnext Hbelow Hlevel Hclosed Hgoal] n Hn.
  assert (Hs : JsSet.has start visited = true).
  { destruct k as [|k].
    - destruct (Hlevel start (walk_here start)) as [H | []]. assumption.
    - apply (Hbelow 0); [lia | constructor]. }
  assert (Hall : forall m w, walk (linked connections) m start w ->
                             JsSet.has w visited = true).
  { apply closed_set_covers; trivial.
    intros u w Hu Huw. destruct (Hclosed u w Hu Huw) as [H | []]. assumption. }
  destruct n as [|n].
  - apply walk_zero in Hn. contradiction.
  - apply walk_last in Hn. destruct Hn as [u [Hu Hug]].
    apply (Hgoal u (Hall n u Hu) Hug).
Qed.

Lemma searchInv_found : forall k visited it now next,
  inv k visited (it :: now) next ->
  In goal (getConnections connections (person it)) ->
  post (Some (path it ++ [goal])).
Proof.
  intros k visited it now next [Hnow Hnext Hbelow Hlevel Hclosed Hgoal] Hin.
  inversion Hnow as [| it' now' [Hpath Hlen] Hnow']; subst.
  simpl. split.
  - apply validPath_snoc with (person it); [assumption |].
    now apply getConnections_spec.
  - intros n Hn. rewrite length_app, Hlen. simpl.
    destruct (le_lt_dec n k) as [Hle | Hlt]; [exfalso | lia].
    destruct n as [|n].
    + apply walk_zero in Hn. contradiction.
    + apply walk_last in Hn. destruct Hn as [u [Hu Hug]].
      apply (Hgoal u); [| assumption]. apply (Hbelow n); [lia | assumption].
Qed.

Lemma pathLoop_head : forall fuel,
  (forall k visited now next answer,
      inv k visited now next ->
      pathLoop connections goal fuel visited (now ++ next) = Returned answer ->
      post answer) ->
  forall k visited it now next answer,
    inv k visited (it :: now) next ->
    pathLoop connections goal (S fuel) visited (it :: now ++ next) = Returned answer ->
    post answer.
Proof.
  intros fuel IH k visited it now next answer Hinv Hrun. simpl in Hrun.
  destruct (JsSet.has (person it) visited) eqn:Hv.
  - apply (IH k visited now next); [| assumption].
    now apply searchInv_skip with it.
  - pose proof (scanConnections_spec goal (JsSet.add (person it) visited)
                  (path it) (getConnections connections (person it)) (now ++ next))
      as Hscan.
    destruct (scanConnections goal _ _ _ (now ++ next)) as [found | queue'].
    + destruct Hscan as [-> Hin]. injection Hrun as <-.
      now apply searchInv_found with k visited now next.
    + destruct Hscan as [Hnin ->]. rewrite <- app_assoc in Hrun.
      refine (IH k _ now _ answer _ Hrun).
      apply searchInv_visit; assumption.
Qed.

Lemma pathLoop_correct : forall fuel k visited now next answer,
  inv k visited now next ->
  pathLoop connections goal fuel visited (now ++ next) = Returned answer ->
  post answer.
Proof.
  induction fuel as [|fuel IH]; intros k visited now next answer Hinv Hrun;
    [discriminate |].
  destruct now as [|it now'].
  - destruct next as [|it next'].
    + simpl in Hrun. injection Hrun as <-. simpl.
      now apply searchInv_done with k visited.
    + apply searchInv_shift in Hinv.
      apply (pathLoop_head fuel IH (S k) visited it next' [] answer Hinv).
      now rewrite app_nil_r.
  - now apply (pathLoop_head fuel IH k visited it now' next answer Hinv).
Qed.

Lemma findShortestPath_post : post (findShortestPath connections start goal).
Proof.
  apply (pathLoop_correct (pathBudget connections) 0 JsSet.empty
           [mkItem start [start]] []).
  - apply searchInv_init.
  - now apply findShortestPath_loop.
Qed.

End PathCorrect.

(* ================================================================== *)
(** ** The people of the graph and the pair [startNewGame] picks *)
(* ================================================================== *)

Lemma In_allPeople : forall connections x,
  In x (allPeople connections) <->
  exists c, In c connections /\ (name1 c = x \/ name2 c = x).
Proof.
  intros connections x. unfold allPeople, JsSet.empty.
  assert (Hgen : forall acc,
    In x (fold_left (fun people c => JsSet.add (name2 c) (JsSet.add (name1 c) people))
                    connections acc) <->
    In x acc \/ exists c, In c connections /\ (name1 c = x \/ name2 c = x)).
  { induction connections as [|c rest IH]; intros acc; simpl.
    - split; [auto | intros [H | [c [[] _]]]; assumption].
    - rewrite IH, !In_add. split.
      + intros [[H | [H | H]] | [c' [Hc' H]]]; eauto 6.
      + intros [H | [c' [[<- | Hc'] H]]]; eauto 6.
        destruct H as [H | H]; auto. }
  rewrite Hgen. simpl. tauto.
Qed.

Lemma has_allPeople_false : forall connections x,
  (forall c, In c connections -> name1 c <> x /\ name2 c <> x) ->
  JsSet.has x (allPeople connections) = false.
Proof.
  intros connections x Hno. apply has_false_In. intros Hin.
  apply In_allPeople in Hin. destruct Hin as [c [Hc H]].
  destruct (Hno c Hc) as [H1 H2]. tauto.
Qed.

Section PairSelection.

Variable connections : list Connection.
Variable rnd : nat -> nat.

Local Abbreviation people := (peopleArray connections).
Local Abbreviation pick := (randomPerson connections rnd).
Local Abbreviation keeps :=
  (fun i => keepsPair connections (pick (2 * i)) (pick (2 * i + 1))).

Lemma randomPerson_In : forall k, 0 < length people -> In (pick k) people.
Proof.
  intros k Hlen. unfold randomPerson. apply nth_In.
  apply Nat.mod_upper_bound. lia.
Qed.

Lemma keepsPair_distinct : forall a b,
  keepsPair connections a b = true ->
  a <> b /\ areDirectlyConnected connections a b = false /\
  exists found, findShortestPath connections a b = Some found /\
                3 <= length found <= 6.
Proof.
  intros a b H. unfold keepsPair in H.
  apply andb_true_iff in H. destruct H as [H Hpath].
  apply andb_true_iff in H. destruct H as [Hne Hadj].
  apply negb_true_iff in Hne, Hadj. apply String.eqb_neq in Hne.
  repeat split; trivial.
  destruct (findShortestPath connections a b) as [found |]; [| discriminate].
  exists found. apply andb_true_iff in Hpath. destruct Hpath as [H3 H6].
  apply Nat.leb_le in H3, H6. auto.
Qed.

(** A kept pair needs two people to draw from. *)
Lemma keeps_two_people : forall i, keeps i = true -> 2 <= length people.
Proof.
  intros i H. apply keepsPair_distinct in H. destruct H as [Hne _].
  unfold randomPerson in Hne.
  destruct people as [|p [|q rest]] eqn:E; simpl length in *; [| | lia].
  - exfalso. apply Hne. simpl. now destruct (rnd (2 * i)), (rnd (2 * i + 1)).
  - exfalso. apply Hne. now rewrite !Nat.mod_1_r.
Qed.

Lemma sampleLoop_S : forall remaining tried,
  sampleLoop connections rnd (S remaining) tried
  = if keeps tried then (pick (2 * tried), pick (2 * tried + 1))
    else sampleLoop connections rnd remaining (S tried).
Proof. reflexivity. Qed.

Lemma sampleLoop_none : forall remaining tried,
  (forall i, tried <= i < tried + remaining -> keeps i = false) ->
  sampleLoop connections rnd remaining tried = ("", "").
Proof.
  induction remaining as [|remaining IH]; intros tried Hnone; [reflexivity |].
  rewrite sampleLoop_S, (Hnone tried) by lia.
  apply IH. intros i Hi. apply Hnone. lia.
Qed.

Lemma sampleLoop_kept : forall remaining tried,
  (exists i, tried <= i < tried + remaining /\ keeps i = true) ->
  exists i, tried <= i < tried + remaining /\ keeps i = true /\
            sampleLoop connections rnd remaining tried
            = (pick (2 * i), pick (2 * i + 1)).
Proof.
  induction remaining as [|remaining IH]; intros tried [i [Hi Hkeep]]; [lia |].
  rewrite sampleLoop_S. destruct (keeps tried) eqn:Hfirst.
  - exists tried. repeat split; trivial; lia.
  - destruct (IH (S tried)) as [j [Hj [Hkj Hrun]]].
    + exists i. split; trivial.
      destruct (Nat.eq_dec i tried) as [-> | Hne]; [congruence | lia].
    + exists j. repeat split; trivial; lia.
Qed.

Lemma sampleLoop_shape : forall remaining tried,
  sampleLoop connections rnd remaining tried = ("", "") \/
  exists i, keeps i = true /\
            sampleLoop connections rnd remaining tried
            = (pick (2 * i), pick (2 * i + 1)).
Proof.
  induction remaining as [|remaining IH]; intros tried; [now left |].
  rewrite sampleLoop_S. destruct (keeps tried) eqn:Hfirst.
  - right. exists tried. auto.
  - apply IH.
Qed.

Lemma choosePair_In : forall a b,
  choosePair connections rnd = Some (a, b) -> In a people /\ In b people.
Proof.
  intros a b. unfold choosePair.
  destruct (2 <=? length people) eqn:Hlen.
  - apply Nat.leb_le in Hlen.
    destruct (JsString.isFalsy (fst (sampleLoop connections rnd 100 0)) ||
              JsString.isFalsy (snd (sampleLoop connections rnd 100 0))) eqn:Hf.
    + intros H. injection H as <- <-. split; apply nth_In; lia.
    + destruct (sampleLoop_shape 100 0) as [E | [i [_ E]]]; rewrite E in *.
      * discriminate.
      * intros H. injection H as <- <-. split; apply randomPerson_In; lia.
  - simpl. discriminate.
Qed.

End PairSelection.

(* ================================================================== *)
(** ** The guards of a guess *)
(* ================================================================== *)

Lemma guessBranch_cases : forall connections nameToSearch s,
  let searchName := JsString.trim nameToSearch in
  let live := JsString.isFalsy searchName = false /\
              gameWon s = false /\ gameLost s = false in
  match guessBranch connections nameToSearch s with
  | Ignored =>
      JsString.isFalsy searchName = true \/ gameWon s = true \/ gameLost s = true
  | NotFound => live /\ JsSet.has searchName (allPeople connections) = false
  | AlreadyRevealed =>
      live /\ JsSet.has searchName (allPeople connections) = true /\
      JsSet.has searchName (revealedPeople s) = true
  | NoLinkToRevealed =>
      live /\ JsSet.has searchName (allPeople connections) = true /\
      JsSet.has searchName (revealedPeople s) = false /\
      existsb (areDirectlyConnected connections searchName) (revealedPeople s) = false
  | Revealed =>
      live /\ JsSet.has searchName (allPeople connections) = true /\
      JsSet.has searchName (revealedPeople s) = false /\
      existsb (areDirectlyConnected connections searchName) (revealedPeople s) = true
  end.
Proof.
  intros connections nameToSearch s searchName live. subst live.
  unfold guessBranch. fold searchName. unfold JsSet.toArray.
  destruct (JsString.isFalsy searchName); simpl; [auto |].
  destruct (gameWon s); simpl; [auto |].
  destruct (gameLost s); simpl; [auto |].
  destruct (JsSet.has searchName (allPeople connections)); simpl; [| auto].
  destruct (JsSet.has searchName (revealedPeople s)); simpl; [auto |].
  destruct (existsb _ (revealedPeople s)) eqn:Hlink; simpl; auto 6.
Qed.

Lemma terminal_ignored : forall connections nameToSearch s,
  gameWon s = true \/ gameLost s = true ->
  guessBranch connections nameToSearch s = Ignored.
Proof.
  intros connections nameToSearch s H. unfold guessBranch.
  destruct H as [-> | ->]; now rewrite ?orb_true_r.
Qed.

(* ================================================================== *)
(** ** What holds of every reachable session *)
(* ================================================================== *)

Lemma sessionInv_start : forall connections rnd loading now s,
  startNewGame connections rnd loading now = Some s ->
  sessionInv connections s.
Proof.
  intros connections rnd loading now s. unfold startNewGame.
  destruct (loading || (length connections =? 0)); [discriminate |].
  destruct (choosePair connections rnd) as [[a b] |] eqn:Hpair; [| discriminate].
  intros H. injection H as <-.
  apply choosePair_In in Hpair. destruct Hpair as [Ha Hb].
  unfold JsSet.ofArray, JsSet.empty. simpl fold_left.
  split; simpl.
  - reflexivity.
  - intros l [].
  - intros p Hp. apply has_add in Hp. apply has_In.
    destruct Hp as [-> | Hp]; [assumption |].
    apply has_add in Hp. destruct Hp as [-> | Hp]; [assumption | discriminate].
  - split; [apply has_add_keep |]; apply has_add_same.
  - intros _ _. lia.
  - reflexivity.
  - discriminate.
  - discriminate.
Qed.

Lemma geb_false : forall n m : Z, (n >=? m)%Z = false -> (n < m)%Z.
Proof. intros n m H. rewrite Z.geb_leb in H. now apply Z.leb_gt in H. Qed.

Lemma sessionInv_charge : forall connections s,
  sessionInv connections s ->
  gameWon s = false -> gameLost s = false ->
  sessionInv connections (chargeAttempt (attempts s + 1) s).
Proof.
  intros connections s [Hst Hl Hk He Hb Ho Hw Hlo] Hwon Hlost.
  specialize (Hb Hwon Hlost). unfold chargeAttempt.
  destruct (attempts s + 1 >=? maxAttempts s)%Z eqn:Hge.
  - apply Z.geb_le in Hge. split; simpl; trivial.
    + discriminate.
    + intros _. split; [assumption | lia].
  - apply geb_false in Hge. split; simpl; trivial.
    + intros _ _. lia.
    + congruence.
Qed.

Lemma sessionInv_reveal : forall connections s searchName,
  sessionInv connections s ->
  gameWon s = false -> gameLost s = false ->
  JsSet.has searchName (allPeople connections) = true ->
  let newConnections :=
    map (fun revealedPerson => mkLink searchName revealedPerson)
        (filter (areDirectlyConnected connections searchName) (revealedPeople s)) in
  let updated :=
    withRevealed (JsSet.add searchName (revealedPeople s))
                 (revealedConnections s ++ newConnections) (attempts s + 1)%Z s in
  (forall l, In l (revealedConnections updated) ->
     areDirectlyConnected connections (source l) (target l) = true /\
     JsSet.has (source l) (revealedPeople updated) = true /\
     JsSet.has (target l) (revealedPeople updated) = true) /\
  (forall p, JsSet.has p (revealedPeople updated) = true ->
             JsSet.has p (allPeople connections) = true) /\
  JsSet.has (startPerson s) (revealedPeople updated) = true /\
  JsSet.has (targetPerson s) (revealedPeople updated) = true.
Proof.
  intros connections s searchName [Hst Hl Hk He Hb Ho Hw Hlo] Hwon Hlost Hall.
  simpl. repeat split.
  - apply in_app_iff in H. destruct H as [H | H]; [now apply Hl |].
    apply in_map_iff in H. destruct H as [p [<- Hp]].
    apply filter_In in Hp. now destruct Hp.
  - apply in_app_iff in H. destruct H as [H | H].
    + apply has_add_keep. now apply Hl.
    + apply in_map_iff in H. destruct H as [p [<- Hp]]. apply has_add_same.
  - apply in_app_iff in H. destruct H as [H | H].
    + apply has_add_keep. now apply Hl.
    + apply in_map_iff in H. destruct H as [p [<- Hp]].
      apply filter_In in Hp. destruct Hp as [Hp _].
      apply has_add_keep. now apply has_In.
  - intros p Hp. apply has_add in Hp. destruct Hp as [-> | Hp]; auto.
  - apply has_add_keep. apply He.
  - apply has_add_keep. apply He.
Qed.

Lemma sessionInv_guess : forall connections nameToSearch s,
  sessionInv connections s ->
  sessionInv connections (handleSearchWithName connections nameToSearch s).
Proof.
  intros connections nameToSearch s Hinv.
  pose proof (guessBranch_cases connections nameToSearch s) as Hcase.
  unfold handleSearchWithName.
  destruct (guessBranch connections nameToSearch s); simpl in Hcase.
  - assumption.
  - destruct Hcase as [[_ [Hwon Hlost]] _]. now apply sessionInv_charge.
  - assumption.
  - destruct Hcase as [[_ [Hwon Hlost]] _]. now apply sessionInv_charge.
  - destruct Hcase as [[_ [Hwon Hlost]] [Hall _]].
    pose proof (sessionInv_reveal connections s (JsString.trim nameToSearch)
                  Hinv Hwon Hlost Hall) as Hrev.
    simpl in Hrev. destruct Hrev as [Hl' [Hk' [Hs' Ht']]].
    destruct Hinv as [Hst Hl Hk He Hb Ho Hw Hlo].
    specialize (Hb Hwon Hlost). unfold JsSet.toArray.
    match goal with
    | |- context [isGraphConnected ?links (startPerson s) (targetPerson s)] =>
        destruct (isGraphConnected links (startPerson s) (targetPerson s)) eqn:Hconn
    end.
    + split; simpl; trivial; try discriminate; auto; congruence.
    + destruct (attempts s + 1 >=? maxAttempts s)%Z eqn:Hge.
      * apply Z.geb_le in Hge.
        split; simpl; trivial; try discriminate; auto; try congruence.
        intros _. split; [assumption | lia].
      * apply geb_false in Hge.
        split; simpl; trivial; auto; try congruence.
        intros _ _. lia.
Qed.

Lemma sessionInv_tick : forall connections now s,
  sessionInv connections s -> sessionInv connections (tick now s).
Proof.
  intros connections now s Hinv. unfold tick.
  destruct (gameStarted s && negb (gameWon s) && negb (gameLost s)); [| assumption].
  destruct Hinv. split; simpl; assumption.
Qed.

Lemma reachable_inv : forall connections s,
  reachable connections s -> sessionInv connections s.
Proof.
  intros connections s Hreach. induction Hreach.
  - eapply sessionInv_start; eassumption.
  - now apply sessionInv_guess.
  - now apply sessionInv_tick.
Qed.

(* ================================================================== *)
(** ** The sample sessions, evaluated *)
(* ================================================================== *)

Example chain4_path :
  findShortestPath chain4 "A" "D" = Some ["A"; "B"; "C"; "D"].
Proof. reflexivity. Qed.

Example chain4Start_value :
  startNewGame chain4 draws03 false 0%Z = Some chain4Start /\
  startPerson chain4Start = "A" /\ targetPerson chain4Start = "D" /\
  revealedPeople chain4Start = ["A"; "D"] /\
  revealedConnections chain4Start = [] /\
  attempts chain4Start = 0%Z /\ maxAttempts chain4Start = 100%Z.
Proof. vm_compute. repeat split. Qed.

Example chain4_guess_B :
  revealedPeople (handleSearchWithName chain4 "B" chain4Start) = ["A"; "D"; "B"] /\
  revealedConnections (handleSearchWithName chain4 "B" chain4Start) = [mkLink "B" "A"] /\
  attempts (handleSearchWithName chain4 "B" chain4Start) = 1%Z /\
  gameWon (handleSearchWithName chain4 "B" chain4Start) = false.
Proof. vm_compute. repeat split. Qed.

Example chain4Won_value :
  gameWon chain4Won = true /\ gameLost chain4Won = false /\
  attempts chain4Won = 2%Z /\ score chain4Won = 6200%Z /\
  revealedConnections chain4Won = [mkLink "B" "A"; mkLink "C" "D"; mkLink "C" "B"].
Proof. vm_compute. repeat split. Qed.

Lemma chain4Start_reachable : reachable chain4 chain4Start.
Proof. apply (reach_start chain4 draws03 false 0%Z). reflexivity. Qed.

Lemma chain4Won_reachable : reachable chain4 chain4Won.
Proof. unfold chain4Won. do 2 apply reach_guess. apply chain4Start_reachable. Qed.

Lemma paddedStart_reachable : reachable padded paddedStart.
Proof. apply (reach_start padded drawsZero false 0%Z). reflexivity. Qed.

(* ================================================================== *)
(** ** The claims *)
(* ================================================================== *)

(** C1: for every edge list and every pair of names, [findShortestPath]
    returns [[start]] when [start = target]; whatever it returns begins at
    [start], ends at [target], has each element directly connected to the
    next, and is no longer than any other such path; and it returns [null]
    exactly when no such path exists. *)
Theorem C1_findShortestPath_shortest : forall connections start goal,
  (start = goal -> findShortestPath connections start goal = Some [start]) /\
  (forall found, findShortestPath connections start goal = Some found ->
     validPath connections start goal found = true /\
     forall other, validPath connections start goal other = true ->
                   length found <= length other) /\
  (findShortestPath connections start goal = None <->
   forall other, validPath connections start goal other = false).
Proof.
  intros connections start goal.
  assert (Hlen : forall other, validPath connections start goal other = true ->
                               1 <= length other).
  { intros [|x rest] H; [discriminate | simpl; lia]. }
  destruct (string_dec start goal) as [<- | Hne].
  - assert (Hself : findShortestPath connections start start = Some [start]).
    { unfold findShortestPath. now rewrite String.eqb_refl. }
    assert (Hone : validPath connections start start [start] = true).
    { simpl. now rewrite String.eqb_refl. }
    split; [auto |]. split.
    + intros found Hfound. rewrite Hself in Hfound. injection Hfound as <-.
      split; [exact Hone |]. intros other Hother. simpl. now apply Hlen.
    + rewrite Hself. split; [discriminate |].
      intros Hnone. rewrite Hnone in Hone. discriminate.
  - pose proof (findShortestPath_post connections start goal Hne) as Hpost.
    split; [contradiction |]. split.
    + intros found Hfound. rewrite Hfound in Hpost. destruct Hpost as [Hvalid Hmin].
      split; [assumption |]. intros other Hother.
      pose proof (Hlen other Hother).
      apply validPath_walk in Hother. apply Hmin in Hother. lia.
    + destruct (findShortestPath connections start goal) as [found |].
      * destruct Hpost as [Hvalid _]. split; [discriminate |].
        intros Hnone. rewrite Hnone in Hvalid. discriminate.
      * split; trivial. intros _ other.
        destruct (validPath connections start goal other) eqn:Hother; trivial.
        apply validPath_walk in Hother. now apply Hpost in Hother.
Qed.

(** [findShortestPath] returns [null] exactly when no walk leads from
    [start] to [target]. *)
Lemma findShortestPath_None : forall connections start goal,
  findShortestPath connections start goal = None <->
  ~ connected (linked connections) start goal.
Proof.
  intros connections start goal.
  destruct (string_dec start goal) as [<- | Hne].
  - unfold findShortestPath. rewrite String.eqb_refl. split; [discriminate |].
    intros H. exfalso. apply H. exists 0. constructor.
  - pose proof (findShortestPath_post connections start goal Hne) as Hpost.
    destruct (findShortestPath connections start goal) as [found |].
    + destruct Hpost as [Hvalid _]. split; [discriminate |].
      intros H. exfalso. apply H. eexists. eapply validPath_walk. eassumption.
    + split; trivial. intros _ [n Hn]. now apply Hpost in Hn.
Qed.

(** C2, as the claim states it, fails: on the chain A - B - C the pair
    (A, C) qualifies, yet when every draw picks A the budget of 100 samples
    runs out and the fallback returns (A, B), a directly connected pair. *)
Lemma C2_counterexample :
  In "A" (peopleArray chain3) /\ In "C" (peopleArray chain3) /\
  keepsPair chain3 "A" "C" = true /\
  choosePair chain3 drawsZero = Some ("A", "B") /\
  areDirectlyConnected chain3 "A" "B" = true.
Proof. vm_compute. intuition. Qed.

Lemma sampleLoop_first : forall connections rnd remaining tried i,
  tried <= i < tried + remaining ->
  keepsPair connections (randomPerson connections rnd (2 * i))
            (randomPerson connections rnd (2 * i + 1)) = true ->
  exists j, tried <= j <= i /\
    (forall k, tried <= k < j ->
       keepsPair connections (randomPerson connections rnd (2 * k))
                 (randomPerson connections rnd (2 * k + 1)) = false) /\
    keepsPair connections (randomPerson connections rnd (2 * j))
              (randomPerson connections rnd (2 * j + 1)) = true /\
    sampleLoop connections rnd remaining tried
    = (randomPerson connections rnd (2 * j), randomPerson connections rnd (2 * j + 1)).
Proof.
  intros connections rnd. induction remaining as [|remaining IH];
    intros tried i Hi Hkeep; [lia |].
  rewrite sampleLoop_S.
  destruct (keepsPair connections (randomPerson connections rnd (2 * tried))
              (randomPerson connections rnd (2 * tried + 1))) eqn:Hfirst.
  - exists tried. split; [lia |]. split; [intros k Hk; lia |].
    split; [exact Hfirst | reflexivity].
  - assert (Hne : i <> tried) by (intros ->; congruence).
    destruct (IH (S tried) i) as [j [Hj [Hbefore [Hkj Hrun]]]]; [lia | exact Hkeep |].
    exists j. split; [lia |]. split; [| split; assumption].
    intros k Hk. destruct (Nat.eq_dec k tried) as [-> | Hk']; [exact Hfirst |].
    apply Hbefore. lia.
Qed.

(** C2, amended: when no person has the empty name and one of the 100
    samples draws a pair that qualifies, the generator returns the pair
    drawn by the first sample that qualifies, and that pair is not directly
    connected (its two names differ and their shortest path has 3 to 6
    names); when no sample is kept and two people exist, the generator
    returns the first two people in enumeration order. *)
Theorem C2_generator_pair : forall connections rnd,
  ~ In "" (peopleArray connections) ->
  (forall i, i < 100 ->
     keepsPair connections (randomPerson connections rnd (2 * i))
               (randomPerson connections rnd (2 * i + 1)) = true ->
     exists j, j <= i /\
       (forall k, k < j ->
          keepsPair connections (randomPerson connections rnd (2 * k))
                    (randomPerson connections rnd (2 * k + 1)) = false) /\
       keepsPair connections (randomPerson connections rnd (2 * j))
                 (randomPerson connections rnd (2 * j + 1)) = true /\
       choosePair connections rnd
       = Some (randomPerson connections rnd (2 * j),
               randomPerson connections rnd (2 * j + 1)) /\
       areDirectlyConnected connections (randomPerson connections rnd (2 * j))
                            (randomPerson connections rnd (2 * j + 1)) = false) /\
  ((forall i, i < 100 ->
      keepsPair connections (randomPerson connections rnd (2 * i))
                (randomPerson connections rnd (2 * i + 1)) = false) ->
   2 <= length (peopleArray connections) ->
   choosePair connections rnd
   = Some (nth 0 (peopleArray connections) "", nth 1 (peopleArray connections) "")).
Proof.
  intros connections rnd Hnamed. split.
  - intros i Hi Hkeep.
    pose proof (keeps_two_people connections rnd i Hkeep) as Htwo.
    destruct (sampleLoop_first connections rnd 100 0 i) as [j [Hj [Hbefore [Hkj Hrun]]]];
      [lia | exact Hkeep |].
    exists j. split; [lia |].
    split; [intros k Hk; apply Hbefore; lia |].
    split; [exact Hkj |].
    split; [| now apply keepsPair_distinct in Hkj].
    unfold choosePair. apply Nat.leb_le in Htwo. rewrite Htwo. rewrite Hrun.
    apply Nat.leb_le in Htwo.
    assert (Hnf : forall k, JsString.isFalsy (randomPerson connections rnd k) = false).
    { intros k. destruct (JsString.isFalsy (randomPerson connections rnd k)) eqn:E;
        trivial.
      apply isFalsy_true in E. exfalso. apply Hnamed. rewrite <- E.
      apply randomPerson_In. lia. }
    simpl fst. simpl snd. now rewrite !Hnf.
  - intros Hnone Htwo. unfold choosePair.
    apply Nat.leb_le in Htwo. rewrite Htwo.
    rewrite sampleLoop_none; [reflexivity |].
    intros i Hi. apply Hnone. lia.
Qed.

(** A run of C2's theorem: on the chain A - B - C - D the first sample
    draws (A, D), which is kept and returned. *)
Lemma C2_generator_pair_witness :
  ~ In "" (peopleArray chain4) /\
  keepsPair chain4 (randomPerson chain4 draws03 (2 * 0))
            (randomPerson chain4 draws03 (2 * 0 + 1)) = true /\
  exists j, j <= 0 /\
    (forall k, k < j ->
       keepsPair chain4 (randomPerson chain4 draws03 (2 * k))
                 (randomPerson chain4 draws03 (2 * k + 1)) = false) /\
    keepsPair chain4 (randomPerson chain4 draws03 (2 * j))
              (randomPerson chain4 draws03 (2 * j + 1)) = true /\
    choosePair chain4 draws03
    = Some (randomPerson chain4 draws03 (2 * j),
            randomPerson chain4 draws03 (2 * j + 1)) /\
    areDirectlyConnected chain4 (randomPerson chain4 draws03 (2 * j))
                         (randomPerson chain4 draws03 (2 * j + 1)) = false.
Proof.
  assert (Hnamed : ~ In "" (peopleArray chain4)).
  { vm_compute. intuition discriminate. }
  split; [exact Hnamed |]. split; [reflexivity |].
  apply (proj1 (C2_generator_pair chain4 draws03 Hnamed) 0); [lia | reflexivity].
Defined.

(** C3, as the claim states it, fails: with no connection at all
    [findShortestPath("A", "A")] is the one-element path, not [null], while
    [isGraphConnected] on the (empty) full edge set returns [false]. *)
Lemma C3_counterexample :
  findShortestPath [] "A" "A" = Some ["A"] /\
  isGraphConnected (edgesOf []) "A" "A" = false.
Proof. split; reflexivity. Qed.

(** C3, amended: for every non-empty edge list and every pair of names,
    [findShortestPath(a, b)] returns [null] if and only if
    [isGraphConnected] applied to the full edge set returns [false]. *)
Theorem C3_null_iff_not_connected : forall connections a b,
  connections <> [] ->
  (findShortestPath connections a b = None <->
   isGraphConnected (edgesOf connections) a b = false).
Proof.
  intros connections a b Hne.
  assert (Hedges : edgesOf connections <> []).
  { destruct connections; [congruence | discriminate]. }
  rewrite findShortestPath_None.
  pose proof (isGraphConnected_spec (edgesOf connections) a b Hedges) as Hspec.
  assert (Hsame : connected (joined (edgesOf connections)) a b <->
                  connected (linked connections) a b).
  { split; intros [n Hn]; exists n; now apply walk_edgesOf. }
  destruct (isGraphConnected (edgesOf connections) a b).
  - split; [| discriminate]. intros H. exfalso. apply H, Hsame, Hspec. reflexivity.
  - split; trivial. intros _ H. apply Hsame, Hspec in H. discriminate.
Qed.

(** A run of C3's theorem on the chain A - B - C - D. *)
Lemma C3_null_iff_not_connected_witness :
  chain4 <> [] /\
  (findShortestPath chain4 "A" "D" = None <->
   isGraphConnected (edgesOf chain4) "A" "D" = false).
Proof.
  split; [discriminate |]. apply (C3_null_iff_not_connected chain4 "A" "D").
  discriminate.
Defined.

(** C4: every session reachable from [startNewGame] by guesses (and clock
    ticks) satisfies: each revealed connection is an edge of the full graph
    between two revealed people; [attempts <= maxAttempts] while the game
    is in progress; [gameWon] only if start and target are connected within
    the revealed connections; [gameLost] only with [attempts = maxAttempts],
    the game not won and the win test failing; start and target are
    revealed. *)
Theorem C4_session_invariants : forall connections s,
  reachable connections s ->
  (forall l, In l (revealedConnections s) ->
     areDirectlyConnected connections (source l) (target l) = true /\
     JsSet.has (source l) (revealedPeople s) = true /\
     JsSet.has (target l) (revealedPeople s) = true) /\
  (inProgress s -> (attempts s <= maxAttempts s)%Z) /\
  (gameWon s = true ->
     isGraphConnected (revealedConnections s) (startPerson s) (targetPerson s) = true /\
     connected (joined (revealedConnections s)) (startPerson s) (targetPerson s)) /\
  (gameLost s = true ->
     attempts s = maxAttempts s /\ gameWon s = false /\
     isGraphConnected (revealedConnections s) (startPerson s) (targetPerson s) = false) /\
  JsSet.has (startPerson s) (revealedPeople s) = true /\
  JsSet.has (targetPerson s) (revealedPeople s) = true.
Proof.
  intros connections s Hreach.
  destruct (reachable_inv connections s Hreach) as [Hst Hl Hk He Hb Ho Hw Hlo].
  split; [exact Hl |]. split.
  { intros [_ [Hwon Hlost]]. specialize (Hb Hwon Hlost). lia. }
  split.
  { intros Hwon. split; [auto |]. apply isGraphConnected_sound. auto. }
  split; [| exact He].
  intros Hlost. destruct (Hlo Hlost) as [Hwon Hmax]. auto.
Qed.

(** A run of C4's theorem on the won game of the chain A - B - C - D. *)
Lemma C4_session_invariants_witness :
  reachable chain4 chain4Won /\
  (gameWon chain4Won = true ->
   connected (joined (revealedConnections chain4Won))
             (startPerson chain4Won) (targetPerson chain4Won)).
Proof.
  split; [exact chain4Won_reachable |].
  intros Hwon.
  apply (C4_session_invariants chain4 chain4Won chain4Won_reachable). exact Hwon.
Defined.

(** C5, as the claim states it, fails: in the game on the single
    connection (" A", "B") the name " A" is revealed from the start, yet
    guessing " A" looks up the trimmed name "A", finds no such person, and
    charges an attempt. *)
Lemma C5_counterexample :
  reachable padded paddedStart /\ inProgress paddedStart /\
  JsSet.has " A" (revealedPeople paddedStart) = true /\
  guessBranch padded " A" paddedStart = NotFound /\
  attempts paddedStart = 0%Z /\
  attempts (handleSearchWithName padded " A" paddedStart) = 1%Z.
Proof.
  split; [exact paddedStart_reachable |]. vm_compute. intuition.
Qed.

(** C5, amended: in every reachable session, a guess whose trimmed name is
    already revealed leaves the whole session unchanged (no attempt is
    charged, nothing is revealed, the status stays); in particular, after a
    guess that reveals a person, the same guess again changes nothing. *)
Theorem C5_revealed_guess_is_free : forall connections s nameToSearch,
  reachable connections s ->
  (JsSet.has (JsString.trim nameToSearch) (revealedPeople s) = true ->
   handleSearchWithName connections nameToSearch s = s) /\
  (guessBranch connections nameToSearch s = Revealed ->
   handleSearchWithName connections nameToSearch
     (handleSearchWithName connections nameToSearch s)
   = handleSearchWithName connections nameToSearch s).
Proof.
  assert (Hfree : forall connections s nameToSearch,
    reachable connections s ->
    JsSet.has (JsString.trim nameToSearch) (revealedPeople s) = true ->
    handleSearchWithName connections nameToSearch s = s).
  { intros connections s nameToSearch Hreach Hrev.
    pose proof (inv_known _ _ (reachable_inv _ _ Hreach) _ Hrev) as Hall.
    pose proof (guessBranch_cases connections nameToSearch s) as Hcase.
    unfold handleSearchWithName.
    destruct (guessBranch connections nameToSearch s); simpl in Hcase; trivial.
    - destruct Hcase as [_ Hno]. congruence.
    - destruct Hcase as [_ [_ [Hno _]]]. congruence.
    - destruct Hcase as [_ [_ [Hno _]]]. congruence. }
  intros connections s nameToSearch Hreach. split; [now apply Hfree |].
  intros Hbranch. apply Hfree; [now apply reach_guess |].
  unfold handleSearchWithName. rewrite Hbranch.
  destruct (isGraphConnected _ _ _); [| destruct (_ >=? _)%Z]; simpl;
    apply has_add_same.
Qed.

(** A run of C5's theorem: in the game on the chain A - B - C - D, B is
    guessed once more after it was revealed. *)
Lemma C5_revealed_guess_is_free_witness :
  reachable chain4 (handleSearchWithName chain4 "B" chain4Start) /\
  JsSet.has (JsString.trim " B ")
            (revealedPeople (handleSearchWithName chain4 "B" chain4Start)) = true /\
  handleSearchWithName chain4 " B " (handleSearchWithName chain4 "B" chain4Start)
  = handleSearchWithName chain4 "B" chain4Start.
Proof.
  assert (Hreach : reachable chain4 (handleSearchWithName chain4 "B" chain4Start)).
  { apply reach_guess. exact chain4Start_reachable. }
  split; [exact Hreach |]. split; [reflexivity |].
  apply (proj1 (C5_revealed_guess_is_free chain4
                  (handleSearchWithName chain4 "B" chain4Start) " B " Hreach)).
  reflexivity.
Defined.

(** C6, as the claim states it, fails: the empty name appears in no edge of
    the chain A - B - C - D, yet guessing it in a running game charges no
    attempt: the handler returns at its first guard. *)
Lemma C6_counterexample :
  reachable chain4 chain4Start /\ inProgress chain4Start /\
  (forall c, In c chain4 -> name1 c <> "" /\ name2 c <> "") /\
  handleSearchWithName chain4 "" chain4Start = chain4Start /\
  attempts (handleSearchWithName chain4 "" chain4Start) <> (attempts chain4Start + 1)%Z.
Proof.
  split; [exact chain4Start_reachable |].
  split; [vm_compute; intuition |].
  split.
  - intros c Hc. simpl in Hc.
    destruct Hc as [<- | [<- | [<- | []]]]; simpl; split; discriminate.
  - split; [reflexivity | vm_compute; discriminate].
Qed.

(** C6, amended: a blank guess (empty after trimming) is ignored in
    every session: the session is unchanged and no attempt is charged; and
    in every reachable session in progress, a guess whose trimmed name is
    not empty and appears in no edge of the full graph takes the not-found
    exit: [attempts] grows by exactly one and nothing else changes, but
    that the game becomes lost exactly when the new count equals
    [maxAttempts] (and stays in progress otherwise). *)
Theorem C6_unknown_name_costs_one_attempt : forall connections s nameToSearch,
  (JsString.trim nameToSearch = "" ->
   guessBranch connections nameToSearch s = Ignored /\
   handleSearchWithName connections nameToSearch s = s /\
   attempts (handleSearchWithName connections nameToSearch s) = attempts s) /\
  (reachable connections s -> inProgress s ->
   JsString.trim nameToSearch <> "" ->
   (forall c, In c connections ->
      name1 c <> JsString.trim nameToSearch /\
      name2 c <> JsString.trim nameToSearch) ->
   guessBranch connections nameToSearch s = NotFound /\
   attempts (handleSearchWithName connections nameToSearch s) = (attempts s + 1)%Z /\
   handleSearchWithName connections nameToSearch s
   = (if (attempts s + 1 =? maxAttempts s)%Z
      then withGameLost (withAttempts (attempts s + 1) s)
      else withAttempts (attempts s + 1) s) /\
   revealedPeople (handleSearchWithName connections nameToSearch s)
   = revealedPeople s /\
   revealedConnections (handleSearchWithName connections nameToSearch s)
   = revealedConnections s /\
   gameWon (handleSearchWithName connections nameToSearch s) = false /\
   (gameLost (handleSearchWithName connections nameToSearch s) = true <->
    (attempts s + 1)%Z = maxAttempts s)).
Proof.
  intros connections s nameToSearch. split.
  { intros Hblank.
    assert (Hbranch : guessBranch connections nameToSearch s = Ignored).
    { unfold guessBranch. rewrite Hblank. reflexivity. }
    split; [exact Hbranch |].
    assert (Hsame : handleSearchWithName connections nameToSearch s = s).
    { unfold handleSearchWithName. rewrite Hbranch. reflexivity. }
    split; [exact Hsame | now rewrite Hsame]. }
  intros Hreach [Hst [Hwon Hlost]] Hname Hno.
  pose proof (inv_budget _ _ (reachable_inv _ _ Hreach) Hwon Hlost) as Hb.
  assert (Hbranch : guessBranch connections nameToSearch s = NotFound).
  { unfold guessBranch. rewrite Hwon, Hlost.
    destruct (JsString.isFalsy (JsString.trim nameToSearch)) eqn:E.
    - apply isFalsy_true in E. contradiction.
    - simpl. now rewrite has_allPeople_false. }
  split; [exact Hbranch |].
  unfold handleSearchWithName. rewrite Hbranch. unfold chargeAttempt.
  destruct (attempts s + 1 >=? maxAttempts s)%Z eqn:Hge.
  - apply Z.geb_le in Hge.
    assert (Heq : (attempts s + 1)%Z = maxAttempts s) by lia.
    rewrite (proj2 (Z.eqb_eq _ _) Heq). simpl. tauto.
  - apply geb_false in Hge.
    assert (Hneq : (attempts s + 1)%Z <> maxAttempts s) by lia.
    rewrite (proj2 (Z.eqb_neq _ _) Hneq). simpl.
    repeat split; trivial; intros; congruence.
Qed.

(** A run of C6's theorem: "Zed" is guessed in the game on the chain
    A - B - C - D, and then three spaces. *)
Lemma C6_unknown_name_costs_one_attempt_witness :
  reachable chain4 chain4Start /\ inProgress chain4Start /\
  JsString.trim "Zed" <> "" /\
  (forall c, In c chain4 ->
     name1 c <> JsString.trim "Zed" /\ name2 c <> JsString.trim "Zed") /\
  attempts (handleSearchWithName chain4 "Zed" chain4Start)
  = (attempts chain4Start + 1)%Z /\
  JsString.trim "   " = "" /\
  handleSearchWithName chain4 "   " chain4Start = chain4Start.
Proof.
  assert (Hprog : inProgress chain4Start) by (vm_compute; intuition).
  assert (Hname : JsString.trim "Zed" <> "") by discriminate.
  assert (Hno : forall c, In c chain4 ->
            name1 c <> JsString.trim "Zed" /\ name2 c <> JsString.trim "Zed").
  { intros c Hc. simpl in Hc.
    destruct Hc as [<- | [<- | [<- | []]]]; simpl; split; discriminate. }
  assert (Hblank : JsString.trim "   " = "") by reflexivity.
  split; [exact chain4Start_reachable |]. split; [exact Hprog |].
  split; [exact Hname |]. split; [exact Hno |].
  split.
  - apply (proj2 (C6_unknown_name_costs_one_attempt chain4 chain4Start "Zed")
             chain4Start_reachable Hprog Hname Hno).
  - split; [exact Hblank |].
    apply (proj1 (C6_unknown_name_costs_one_attempt chain4 chain4Start "   ")
             Hblank).
Defined.

(** C7: once a session is won or lost, every guess leaves the whole
    session as it is (and so does the clock); a session set by
    [startNewGame] is a fresh one in progress, whatever came before. *)
Theorem C7_terminal_sessions_ignore_guesses : forall connections s,
  gameWon s = true \/ gameLost s = true ->
  (forall nameToSearch, handleSearchWithName connections nameToSearch s = s) /\
  (forall now, tick now s = s) /\
  (forall rnd loading now fresh,
     startNewGame connections rnd loading now = Some fresh ->
     inProgress fresh /\ attempts fresh = 0%Z /\
     revealedConnections fresh = [] /\
     revealedPeople fresh = JsSet.ofArray [startPerson fresh; targetPerson fresh]).
Proof.
  intros connections s Hterminal. split; [| split].
  - intros nameToSearch. unfold handleSearchWithName.
    now rewrite (terminal_ignored connections nameToSearch s Hterminal).
  - intros now. unfold tick.
    destruct Hterminal as [-> | ->]; simpl; now rewrite ?andb_false_r.
  - intros rnd loading now fresh. unfold startNewGame.
    destruct (loading || (length connections =? 0)); [discriminate |].
    destruct (choosePair connections rnd) as [[a b] |]; [| discriminate].
    intros H. injection H as <-. unfold inProgress. simpl. auto.
Qed.

(** A run of C7's theorem: D is guessed in the won game of the chain
    A - B - C - D. *)
Lemma C7_terminal_sessions_ignore_guesses_witness :
  (gameWon chain4Won = true \/ gameLost chain4Won = true) /\
  handleSearchWithName chain4 "D" chain4Won = chain4Won.
Proof.
  assert (Hterminal : gameWon chain4Won = true \/ gameLost chain4Won = true).
  { left. reflexivity. }
  split; [exact Hterminal |].
  apply (proj1 (C7_terminal_sessions_ignore_guesses chain4 chain4Won Hterminal)).
Defined.

Lemma gameWon_charge : forall n s, gameWon (chargeAttempt n s) = gameWon s.
Proof. intros n s. unfold chargeAttempt. now destruct (n >=? maxAttempts s)%Z. Qed.

(** C8: the score a winning guess sets is
    [1000 + max(0, 300 - floor(elapsedMs / 1000))
          + max(0, (maxAttempts - attemptsUsed) * 50)],
    where [elapsedMs], [attemptsUsed] and [maxAttempts] are the session's
    [timeElapsed], its [attempts] counting the winning guess, and its
    [maxAttempts]; it is the function [computeScore] of these three numbers
    alone. *)
Theorem C8_score_on_win : forall connections nameToSearch s,
  gameWon s = false ->
  gameWon (handleSearchWithName connections nameToSearch s) = true ->
  attempts (handleSearchWithName connections nameToSearch s) = (attempts s + 1)%Z /\
  timeElapsed (handleSearchWithName connections nameToSearch s) = timeElapsed s /\
  maxAttempts (handleSearchWithName connections nameToSearch s) = maxAttempts s /\
  score (handleSearchWithName connections nameToSearch s)
  = (1000 + Z.max 0 (300 - timeElapsed s / 1000)
          + Z.max 0 ((maxAttempts s - (attempts s + 1)) * 50))%Z /\
  score (handleSearchWithName connections nameToSearch s)
  = computeScore (timeElapsed s) (attempts s + 1) (maxAttempts s).
Proof.
  intros connections nameToSearch s Hbefore. unfold handleSearchWithName.
  destruct (guessBranch connections nameToSearch s).
  - congruence.
  - rewrite gameWon_charge. congruence.
  - congruence.
  - rewrite gameWon_charge. congruence.
  - destruct (isGraphConnected _ _ _).
    + intros _. simpl. repeat split.
    + destruct (_ >=? _)%Z; simpl; congruence.
Qed.

(** A run of C8's theorem: the guess C wins the game on the chain
    A - B - C - D at the second attempt, for 1000 + 300 + 98 * 50 points. *)
Lemma C8_score_on_win_witness :
  gameWon (handleSearchWithName chain4 "B" chain4Start) = false /\
  gameWon chain4Won = true /\
  score chain4Won = computeScore 0 2 100 /\ score chain4Won = 6200%Z.
Proof.
  assert (Hbefore : gameWon (handleSearchWithName chain4 "B" chain4Start) = false)
    by reflexivity.
  assert (Hafter : gameWon (handleSearchWithName chain4 "C"
                     (handleSearchWithName chain4 "B" chain4Start)) = true)
    by reflexivity.
  split; [exact Hbefore |]. split; [exact Hafter |].
  split; [| reflexivity].
  apply (C8_score_on_win chain4 "C" (handleSearchWithName chain4 "B" chain4Start)
           Hbefore Hafter).
Defined.

(** C9, as the claim states it, fails: "b" differs from the person "B" of
    the chain A - B - C - D only in letter case, yet the guess "b" is
    rejected as not found and charged, where the guess "B" reveals B. *)
Lemma C9_counterexample :
  JsString.sameIgnoringCase "b" "B" /\ In "B" (peopleArray chain4) /\
  inProgress chain4Start /\
  guessBranch chain4 "b" chain4Start = NotFound /\
  attempts (handleSearchWithName chain4 "b" chain4Start) = 1%Z /\
  revealedPeople (handleSearchWithName chain4 "b" chain4Start) = ["A"; "D"] /\
  guessBranch chain4 "B" chain4Start = Revealed.
Proof. vm_compute. intuition. Qed.

(** C9, amended: the lookup that validates a guess compares the trimmed
    guess with the names of the graph character for character: while the
    game runs, a non-blank guess is rejected as not found exactly when no
    person of the graph has that very name, whatever names differ from it in
    letter case only; and a name a guess reveals is the very name of a
    person of the graph, so it keeps its stored casing. *)
Theorem C9_lookup_is_exact : forall connections s nameToSearch,
  gameWon s = false -> gameLost s = false ->
  JsString.trim nameToSearch <> "" ->
  (guessBranch connections nameToSearch s = NotFound <->
   ~ In (JsString.trim nameToSearch) (peopleArray connections)) /\
  (forall p, In p (revealedPeople (handleSearchWithName connections nameToSearch s)) ->
     In p (revealedPeople s) \/
     (p = JsString.trim nameToSearch /\ In p (peopleArray connections))).
Proof.
  intros connections s nameToSearch Hwon Hlost Hname.
  pose proof (guessBranch_cases connections nameToSearch s) as Hcase.
  unfold peopleArray, JsSet.toArray. rewrite <- has_false_In. split.
  - destruct (guessBranch connections nameToSearch s); simpl in Hcase;
      try (split; [discriminate | intros H; exfalso;
                                   decompose [and] Hcase; congruence]).
    + destruct Hcase as [E | [E | E]]; [| congruence | congruence].
      apply isFalsy_true in E. contradiction.
    + split; trivial. intros _. apply Hcase.
  - unfold handleSearchWithName.
    destruct (guessBranch connections nameToSearch s); simpl in Hcase;
      [ auto
      | unfold chargeAttempt; destruct (_ >=? _)%Z; simpl; auto
      | auto
      | unfold chargeAttempt; destruct (_ >=? _)%Z; simpl; auto
      | ].
    intros p Hp.
    assert (Hadd : In p (JsSet.add (JsString.trim nameToSearch) (revealedPeople s))).
    { destruct (isGraphConnected _ _ _); [| destruct (_ >=? _)%Z]; exact Hp. }
    apply In_add in Hadd. destruct Hadd as [-> | Hold]; [right | now left].
    split; trivial. apply has_In. apply Hcase.
Qed.

(** A run of C9's theorem: the guess "b" in the game on the chain
    A - B - C - D. *)
Lemma C9_lookup_is_exact_witness :
  gameWon chain4Start = false /\ gameLost chain4Start = false /\
  JsString.trim "b" <> "" /\
  (guessBranch chain4 "b" chain4Start = NotFound <->
   ~ In (JsString.trim "b") (peopleArray chain4)).
Proof.
  assert (Hwon : gameWon chain4Start = false) by reflexivity.
  assert (Hlost : gameLost chain4Start = false) by reflexivity.
  assert (Hname : JsString.trim "b" <> "") by discriminate.
  split; [exact Hwon |]. split; [exact Hlost |]. split; [exact Hname |].
  apply (proj1 (C9_lookup_is_exact chain4 chain4Start "b" Hwon Hlost Hname)).
Defined.

(** C10: [isGraphConnected] applied to an empty list of connections
    returns [false] for every start and target, also when they are the same
    name. *)
Theorem C10_no_links_never_connected :
  (forall start goal, isGraphConnected [] start goal = false) /\
  (forall a, isGraphConnected [] a a = false).
Proof. split; reflexivity. Qed.

(* ================================================================== *)
(** ** More about walks *)
(* ================================================================== *)

Lemma walk_app : forall adj n a b,
  walk adj n a b -> forall m c, walk adj m b c -> walk adj (n + m) a c.
Proof.
  intros adj n a b Hab m c Hbc. induction Hbc as [b | m b x c Hbx IH Hxc].
  - now rewrite Nat.add_0_r.
  - rewrite Nat.add_succ_r. apply (walk_step (b := x)); auto.
Qed.

Lemma walk_mono : forall (adj adj' : string -> string -> Prop),
  (forall x y, adj x y -> adj' x y) ->
  forall n a b, walk adj n a b -> walk adj' n a b.
Proof.
  intros adj adj' Hsub n a b Hw. induction Hw.
  - constructor.
  - eapply walk_step; eauto.
Qed.

Lemma walk_sym : forall adj : string -> string -> Prop,
  (forall x y, adj x y -> adj y x) ->
  forall n a b, walk adj n a b -> walk adj n b a.
Proof.
  intros adj Hsym n a b Hw. induction Hw as [a | n a x b Hax IH Hxb].
  - constructor.
  - apply walk_front with x; auto.
Qed.

Lemma linked_sym : forall connections a b,
  linked connections a b -> linked connections b a.
Proof. intros connections a b. unfold linked. now rewrite areDirectlyConnected_sym. Qed.

Lemma joined_sym : forall revealed a b, joined revealed a b -> joined revealed b a.
Proof. intros revealed a b [l [Hl H]]. exists l. tauto. Qed.

Lemma joined_incl : forall revealed more a b,
  (forall l, In l revealed -> In l more) -> joined revealed a b -> joined more a b.
Proof. intros revealed more a b Hsub [l [Hl H]]. exists l. auto. Qed.

Lemma connected_sym : forall adj : string -> string -> Prop,
  (forall x y, adj x y -> adj y x) ->
  forall a b, connected adj a b -> connected adj b a.
Proof. intros adj Hsym a b [n Hn]. exists n. now apply walk_sym. Qed.

Lemma connected_trans : forall adj a b c,
  connected adj a b -> connected adj b c -> connected adj a c.
Proof. intros adj a b c [n Hn] [m Hm]. exists (n + m). eapply walk_app; eauto. Qed.

Lemma connected_mono : forall (adj adj' : string -> string -> Prop),
  (forall x y, adj x y -> adj' x y) ->
  forall a b, connected adj a b -> connected adj' a b.
Proof. intros adj adj' Hsub a b [n Hn]. exists n. eapply walk_mono; eauto. Qed.

Lemma connected_edge : forall (adj : string -> string -> Prop) a b,
  adj a b -> connected adj a b.
Proof. intros adj a b H. exists 1. eapply walk_step; [constructor | exact H]. Qed.

Lemma isGraphConnected_iff : forall revealed a b,
  isGraphConnected revealed a b = true <->
  revealed <> [] /\ connected (joined revealed) a b.
Proof.
  intros revealed a b. destruct revealed as [|l rest].
  - rewrite isGraphConnected_empty. split; [discriminate | intros [H _]; congruence].
  - rewrite isGraphConnected_spec by discriminate. split; [| tauto].
    intros H. split; [discriminate | assumption].
Qed.

(* ================================================================== *)
(** ** Further properties of the graph helpers *)
(* ================================================================== *)

(** X1: direct connection is symmetric, whichever way a connection was
    entered: [areDirectlyConnected(a, b)] equals
    [areDirectlyConnected(b, a)], [getConnections(a)] lists [b] exactly
    when [areDirectlyConnected(a, b)], and so exactly when
    [getConnections(b)] lists [a]. *)
Theorem X1_direct_connection_symmetric : forall connections a b,
  areDirectlyConnected connections a b = areDirectlyConnected connections b a /\
  (In b (getConnections connections a) <->
   areDirectlyConnected connections a b = true) /\
  (In b (getConnections connections a) <-> In a (getConnections connections b)).
Proof.
  intros connections a b. split; [apply areDirectlyConnected_sym |].
  split; [apply getConnections_spec |].
  now rewrite !getConnections_spec, areDirectlyConnected_sym.
Qed.

(** X2: a name that occurs in no connection has no connections:
    [getConnections] returns the empty array for it and
    [areDirectlyConnected] is false between it and every name, in both
    orders. *)
Theorem X2_unknown_person_has_no_connections : forall connections p,
  (forall c, In c connections -> name1 c <> p /\ name2 c <> p) ->
  getConnections connections p = [] /\
  forall q, areDirectlyConnected connections p q = false /\
            areDirectlyConnected connections q p = false.
Proof.
  intros connections p Hno.
  assert (Hadj : forall q, areDirectlyConnected connections p q = false).
  { intros q. destruct (areDirectlyConnected connections p q) eqn:E; trivial.
    apply areDirectlyConnected_spec in E. destruct E as [c [Hc H]].
    destruct (Hno c Hc). intuition congruence. }
  split.
  - destruct (getConnections connections p) as [|q rest] eqn:E; trivial.
    assert (Hq : In q (getConnections connections p)) by (rewrite E; now left).
    apply getConnections_spec in Hq. now rewrite Hadj in Hq.
  - intros q. split; [apply Hadj |]. rewrite areDirectlyConnected_sym. apply Hadj.
Qed.

(** A run of X2's theorem: "Zed" on the chain A - B - C - D. *)
Lemma X2_unknown_person_has_no_connections_witness :
  (forall c, In c chain4 -> name1 c <> "Zed" /\ name2 c <> "Zed") /\
  getConnections chain4 "Zed" = [].
Proof.
  assert (Hno : forall c, In c chain4 -> name1 c <> "Zed" /\ name2 c <> "Zed").
  { intros c Hc. simpl in Hc.
    destruct Hc as [<- | [<- | [<- | []]]]; simpl; split; discriminate. }
  split; [exact Hno |].
  apply (proj1 (X2_unknown_person_has_no_connections chain4 "Zed" Hno)).
Defined.

(** X3: [isGraphConnected] returns true exactly when the list of links is
    not empty and some chain of links, each taken in either direction,
    leads from the start to the target. *)
Theorem X3_isGraphConnected_decides_connection : forall revealed start goal,
  isGraphConnected revealed start goal = true <->
  revealed <> [] /\ connected (joined revealed) start goal.
Proof. exact isGraphConnected_iff. Qed.

(** X4: on a list with at least one link, [isGraphConnected] of a name
    with itself is true, also for a name that no link mentions. *)
Theorem X4_isGraphConnected_same_name : forall l rest a,
  isGraphConnected (l :: rest) a a = true.
Proof.
  intros l rest a. apply isGraphConnected_iff. split; [discriminate |].
  exists 0. constructor.
Qed.

(** X5: [isGraphConnected] does not depend on the order of start and
    target. *)
Theorem X5_isGraphConnected_symmetric : forall revealed a b,
  isGraphConnected revealed a b = isGraphConnected revealed b a.
Proof.
  assert (Hhalf : forall revealed a b,
    isGraphConnected revealed a b = true -> isGraphConnected revealed b a = true).
  { intros revealed a b H. apply isGraphConnected_iff in H. destruct H as [Hne Hc].
    apply isGraphConnected_iff. split; trivial.
    apply connected_sym; [apply joined_sym | assumption]. }
  intros revealed a b.
  destruct (isGraphConnected revealed a b) eqn:Hab;
    destruct (isGraphConnected revealed b a) eqn:Hba; trivial.
  - apply Hhalf in Hab. congruence.
  - apply Hhalf in Hba. congruence.
Qed.

(** X6: more links never disconnect: when every link of one list is in
    another and [isGraphConnected] is true on the first, it is true on the
    second; order and repetition of the links do not matter. *)
Theorem X6_isGraphConnected_monotone : forall revealed more a b,
  (forall l, In l revealed -> In l more) ->
  isGraphConnected revealed a b = true ->
  isGraphConnected more a b = true.
Proof.
  intros revealed more a b Hsub H. apply isGraphConnected_iff in H.
  destruct H as [Hne Hc]. apply isGraphConnected_iff. split.
  - destruct revealed as [|l rest]; [congruence |].
    intros E. specialize (Hsub l (or_introl eq_refl)). now rewrite E in Hsub.
  - apply (connected_mono (joined revealed)); [| assumption].
    intros x y. now apply joined_incl.
Qed.

(** A run of X6's theorem: the links A-B, B-C, then with C-D in front. *)
Lemma X6_isGraphConnected_monotone_witness :
  isGraphConnected [mkLink "A" "B"; mkLink "B" "C"] "A" "C" = true /\
  isGraphConnected [mkLink "C" "D"; mkLink "B" "C"; mkLink "A" "B"] "A" "C" = true.
Proof.
  assert (H : isGraphConnected [mkLink "A" "B"; mkLink "B" "C"] "A" "C" = true)
    by reflexivity.
  split; [exact H |].
  apply (X6_isGraphConnected_monotone [mkLink "A" "B"; mkLink "B" "C"]
           [mkLink "C" "D"; mkLink "B" "C"; mkLink "A" "B"] "A" "C"); [| exact H].
  intros l Hl. simpl in *. intuition.
Defined.

(* ================================================================== *)
(** ** Further properties of [findShortestPath] *)
(* ================================================================== *)

Lemma validPath_nonempty : forall connections a b names,
  validPath connections a b names = true -> 1 <= length names.
Proof. intros connections a b [|x rest] H; [discriminate | simpl; lia]. Qed.

Lemma validPath_head : forall connections a b x rest,
  validPath connections a b (x :: rest) = true -> x = a.
Proof.
  intros connections a b x rest H. unfold validPath in H.
  apply andb_true_iff in H. destruct H as [H _].
  apply andb_true_iff in H. destruct H as [H _]. now apply String.eqb_eq in H.
Qed.

Lemma validPath_tail : forall connections a b y rest,
  validPath connections a b (a :: y :: rest) = true ->
  areDirectlyConnected connections a y = true /\
  validPath connections y b (y :: rest) = true.
Proof.
  intros connections a b y rest H. unfold validPath in H.
  apply andb_true_iff in H. destruct H as [H Hsteps].
  apply andb_true_iff in H. destruct H as [_ Hlast].
  change (stepsLinked connections (a :: y :: rest))
    with (areDirectlyConnected connections a y &&
          stepsLinked connections (y :: rest)) in Hsteps.
  apply andb_true_iff in Hsteps. destruct Hsteps as [Hay Hrest].
  split; [assumption |]. unfold validPath.
  rewrite String.eqb_refl.
  change (last (a :: y :: rest) "") with (last (y :: rest) "") in Hlast.
  now rewrite Hlast, Hrest.
Qed.

(** The part of a path after an occurrence of [x] is a walk from [x]. *)
Lemma validPath_suffix_walk : forall connections front a b x back,
  validPath connections a b (front ++ x :: back) = true ->
  walk (linked connections) (length back) x b.
Proof.
  intros connections. induction front as [|f front IH]; intros a b x back H.
  - change ([] ++ x :: back) with (x :: back) in H.
    pose proof (validPath_head _ _ _ _ _ H) as ->.
    apply validPath_walk in H. simpl in H. now rewrite Nat.sub_0_r in H.
  - change ((f :: front) ++ x :: back) with (f :: (front ++ x :: back)) in H.
    pose proof (validPath_head _ _ _ _ _ H) as ->.
    destruct (front ++ x :: back) as [|y rest] eqn:E.
    + destruct front; discriminate.
    + apply validPath_tail in H. destruct H as [_ H].
      rewrite <- E in H. now apply IH in H.
Qed.

(** A path that no walk undercuts repeats no name. *)
Lemma shortest_NoDup : forall connections names a b,
  validPath connections a b names = true ->
  (forall n, walk (linked connections) n a b -> length names <= S n) ->
  NoDup names.
Proof.
  intros connections. induction names as [|x rest IH]; intros a b Hvalid Hmin.
  - constructor.
  - pose proof (validPath_head _ _ _ _ _ Hvalid) as ->. constructor.
    + intros Hin. apply in_split in Hin. destruct Hin as [front [back E]].
      assert (Hw : walk (linked connections) (length back) a b).
      { apply (validPath_suffix_walk connections (a :: front) a b a back).
        change ((a :: front) ++ a :: back) with (a :: (front ++ a :: back)).
        now rewrite <- E. }
      apply Hmin in Hw. rewrite E in Hw. simpl in Hw. rewrite length_app in Hw.
      simpl in Hw. lia.
    + destruct rest as [|y rest']; [constructor |].
      apply validPath_tail in Hvalid. destruct Hvalid as [Hay Hrest].
      apply (IH y b Hrest). intros n Hn.
      assert (Hw : walk (linked connections) (S n) a b)
        by (apply walk_front with y; assumption).
      apply Hmin in Hw. simpl in *. lia.
Qed.

(** X7: between two different, directly connected people
    [findShortestPath] returns the two-element path of just these two. *)
Theorem X7_findShortestPath_neighbours : forall connections a b,
  a <> b -> areDirectlyConnected connections a b = true ->
  findShortestPath connections a b = Some [a; b].
Proof.
  intros connections a b Hne Hadj.
  pose proof (findShortestPath_post connections a b Hne) as Hpost.
  destruct (findShortestPath connections a b) as [found |].
  - destruct Hpost as [Hvalid Hmin].
    assert (Hw : walk (linked connections) 1 a b).
    { apply (walk_step (b := a)); [constructor | exact Hadj]. }
    apply Hmin in Hw.
    destruct found as [|x [|y [|z rest]]]; simpl in Hw; try lia.
    + discriminate.
    + pose proof (validPath_head _ _ _ _ _ Hvalid) as ->.
      apply validPath_walk in Hvalid. simpl in Hvalid.
      apply walk_zero in Hvalid. contradiction.
    + pose proof (validPath_head _ _ _ _ _ Hvalid) as ->.
      apply validPath_tail in Hvalid. destruct Hvalid as [_ Hy].
      apply validPath_walk in Hy. simpl in Hy. apply walk_zero in Hy.
      now subst.
  - exfalso. apply (Hpost 1).
    apply (walk_step (b := a)); [constructor | exact Hadj].
Qed.

(** A run of X7's theorem: B and C on the chain A - B - C - D. *)
Lemma X7_findShortestPath_neighbours_witness :
  "C" <> "B" /\ areDirectlyConnected chain4 "C" "B" = true /\
  findShortestPath chain4 "C" "B" = Some ["C"; "B"].
Proof.
  assert (Hne : "C" <> "B") by discriminate.
  assert (Hadj : areDirectlyConnected chain4 "C" "B" = true) by reflexivity.
  split; [exact Hne |]. split; [exact Hadj |].
  apply (X7_findShortestPath_neighbours chain4 "C" "B" Hne Hadj).
Defined.

(** X8: the shortest path from [a] to [b] and the one from [b] to [a] have
    the same number of names, and one is [null] exactly when the other
    is. *)
Theorem X8_findShortestPath_symmetric_length : forall connections a b,
  option_map (@length string) (findShortestPath connections a b)
  = option_map (@length string) (findShortestPath connections b a).
Proof.
  assert (Hhalf : forall connections a b found,
    a <> b -> findShortestPath connections a b = Some found ->
    exists back, findShortestPath connections b a = Some back /\
                 length back <= length found).
  { intros connections a b found Hne Hfound.
    pose proof (findShortestPath_post connections a b Hne) as Hab.
    rewrite Hfound in Hab. destruct Hab as [Hvalid _].
    pose proof (validPath_nonempty _ _ _ _ Hvalid) as Hlen.
    apply validPath_walk in Hvalid.
    apply (walk_sym _ (linked_sym connections)) in Hvalid.
    assert (Hne' : b <> a) by congruence.
    pose proof (findShortestPath_post connections b a Hne') as Hba.
    destruct (findShortestPath connections b a) as [back |].
    - exists back. split; trivial. destruct Hba as [_ Hmin].
      apply Hmin in Hvalid. lia.
    - now apply Hba in Hvalid. }
  intros connections a b. destruct (string_dec a b) as [-> | Hne]; [reflexivity |].
  assert (Hne' : b <> a) by congruence.
  destruct (findShortestPath connections a b) as [found |] eqn:Hab;
    destruct (findShortestPath connections b a) as [back |] eqn:Hba; simpl; trivial.
  - destruct (Hhalf _ _ _ _ Hne Hab) as [back' [E Hle]].
    destruct (Hhalf _ _ _ _ Hne' Hba) as [found' [E' Hle']].
    rewrite Hba in E. rewrite Hab in E'. injection E as <-. injection E' as <-.
    f_equal. lia.
  - destruct (Hhalf _ _ _ _ Hne Hab) as [back' [E _]]. congruence.
  - destruct (Hhalf _ _ _ _ Hne' Hba) as [found' [E _]]. congruence.
Qed.

(** X9: a path returned by [findShortestPath] names nobody twice. *)
Theorem X9_findShortestPath_no_repeats : forall connections a b found,
  findShortestPath connections a b = Some found -> NoDup found.
Proof.
  intros connections a b found Hfound.
  destruct (string_dec a b) as [-> | Hne].
  - unfold findShortestPath in Hfound. rewrite String.eqb_refl in Hfound.
    injection Hfound as <-. repeat constructor. intros [].
  - pose proof (findShortestPath_post connections a b Hne) as Hpost.
    rewrite Hfound in Hpost. destruct Hpost as [Hvalid Hmin].
    now apply (shortest_NoDup connections found a b).
Qed.

(** A run of X9's theorem: the path from A to D on the chain
    A - B - C - D. *)
Lemma X9_findShortestPath_no_repeats_witness :
  findShortestPath chain4 "A" "D" = Some ["A"; "B"; "C"; "D"] /\
  NoDup ["A"; "B"; "C"; "D"].
Proof.
  assert (H : findShortestPath chain4 "A" "D" = Some ["A"; "B"; "C"; "D"])
    by reflexivity.
  split; [exact H |].
  apply (X9_findShortestPath_no_repeats chain4 "A" "D" _ H).
Defined.

(* ================================================================== *)
(** ** Further properties of [startNewGame] *)
(* ================================================================== *)

Lemma NoDup_add : forall x s, NoDup s -> NoDup (JsSet.add x s).
Proof.
  intros x s Hs. unfold JsSet.add. destruct (JsSet.has x s) eqn:Hx; trivial.
  apply NoDup_app; trivial.
  - repeat constructor. intros [].
  - intros a Ha [<- | []]. apply has_false_In in Hx. contradiction.
Qed.

Lemma add_fresh : forall x s, JsSet.has x s = false -> JsSet.add x s = s ++ [x].
Proof. intros x s H. unfold JsSet.add. now rewrite H. Qed.

Lemma NoDup_allPeople : forall connections, NoDup (allPeople connections).
Proof.
  intros connections. unfold allPeople.
  assert (Hgen : forall acc, NoDup acc ->
    NoDup (fold_left (fun people c => JsSet.add (name2 c) (JsSet.add (name1 c) people))
                     connections acc)).
  { induction connections as [|c rest IH]; intros acc Hacc; simpl; trivial.
    apply IH. now do 2 apply NoDup_add. }
  apply Hgen. constructor.
Qed.

Lemma choosePair_None : forall connections rnd,
  choosePair connections rnd = None <-> length (peopleArray connections) < 2.
Proof.
  intros connections rnd. unfold choosePair.
  destruct (2 <=? length (peopleArray connections)) eqn:Hlen.
  - apply Nat.leb_le in Hlen.
    destruct (JsString.isFalsy _ || JsString.isFalsy _);
      (split; [discriminate | lia]).
  - apply Nat.leb_gt in Hlen. simpl. tauto.
Qed.

Lemma choosePair_distinct : forall connections rnd a b,
  choosePair connections rnd = Some (a, b) -> a <> b.
Proof.
  intros connections rnd a b. unfold choosePair.
  destruct (2 <=? length (peopleArray connections)) eqn:Hlen.
  - apply Nat.leb_le in Hlen.
    destruct (JsString.isFalsy (fst (sampleLoop connections rnd 100 0)) ||
              JsString.isFalsy (snd (sampleLoop connections rnd 100 0))) eqn:Hf.
    + intros H. injection H as <- <-. intros E.
      pose proof (NoDup_allPeople connections) as Hnd.
      apply (proj1 (NoDup_nth _ "")) with (i := 0) (j := 1) in Hnd;
        [discriminate | unfold peopleArray, JsSet.toArray in Hlen; lia
         | unfold peopleArray, JsSet.toArray in Hlen; lia | exact E].
    + destruct (sampleLoop_shape connections rnd 100 0) as [E | [i [Hk E]]];
        rewrite E in *.
      * discriminate.
      * intros H. injection H as <- <-. now apply keepsPair_distinct in Hk.
  - simpl. discriminate.
Qed.

(** X10: [startNewGame] sets no session exactly when the data is still
    loading, there is no connection, or the connections name fewer than two
    people; a session it sets is between two different people of the graph,
    and exactly these two are revealed, the start first. *)
Theorem X10_startNewGame_outcome : forall connections rnd loading now,
  (startNewGame connections rnd loading now = None <->
   loading = true \/ connections = [] \/ length (peopleArray connections) < 2) /\
  (forall s, startNewGame connections rnd loading now = Some s ->
     startPerson s <> targetPerson s /\
     In (startPerson s) (peopleArray connections) /\
     In (targetPerson s) (peopleArray connections) /\
     revealedPeople s = [startPerson s; targetPerson s]).
Proof.
  intros connections rnd loading now. unfold startNewGame. split.
  - destruct loading; simpl; [tauto |].
    destruct connections as [|c rest] eqn:Ec; simpl; [tauto |]. rewrite <- Ec.
    pose proof (choosePair_None connections rnd) as Hnone.
    destruct (choosePair connections rnd) as [[a b] |].
    + split; [discriminate |]. intros [H | [H | H]]; try congruence.
      apply Hnone in H. discriminate.
    + split; trivial. intros _. right. right. now apply Hnone.
  - intros s. destruct (loading || (length connections =? 0)); [discriminate |].
    destruct (choosePair connections rnd) as [[a b] |] eqn:Hpair; [| discriminate].
    intros H. injection H as <-. simpl.
    pose proof (choosePair_distinct _ _ _ _ Hpair) as Hne.
    apply choosePair_In in Hpair. destruct Hpair as [Ha Hb].
    repeat split; trivial.
    unfold JsSet.ofArray, JsSet.empty. simpl.
    unfold JsSet.add at 1. simpl. rewrite orb_false_r.
    destruct (String.eqb_spec b a); [congruence | reflexivity].
Qed.

(* ================================================================== *)
(** ** The layout of the revealed graph *)
(* ================================================================== *)

Lemma sessionLayout_ext : forall connections s s',
  startPerson s' = startPerson s -> targetPerson s' = targetPerson s ->
  revealedPeople s' = revealedPeople s ->
  revealedConnections s' = revealedConnections s ->
  (attempts s <= attempts s')%Z ->
  sessionLayout connections s -> sessionLayout connections s'.
Proof.
  intros connections s s' Hs Ht Hp Hc Ha [H1 H2 H3 H4 H5 H6 H7 H8].
  split; rewrite ?Hs, ?Ht, ?Hp, ?Hc; trivial. lia.
Qed.

Lemma sessionLayout_start : forall connections rnd loading now s,
  startNewGame connections rnd loading now = Some s ->
  sessionLayout connections s.
Proof.
  intros connections rnd loading now s. unfold startNewGame.
  destruct (loading || (length connections =? 0)); [discriminate |].
  destruct (choosePair connections rnd) as [[a b] |] eqn:Hpair; [| discriminate].
  intros H. injection H as <-.
  pose proof (choosePair_distinct _ _ _ _ Hpair) as Hne.
  assert (Hset : JsSet.ofArray [a; b] = [a; b]).
  { unfold JsSet.ofArray, JsSet.empty. simpl.
    unfold JsSet.add at 1. simpl. rewrite orb_false_r.
    destruct (String.eqb_spec b a); [congruence | reflexivity]. }
  split; simpl; rewrite ?Hset.
  - exact Hne.
  - repeat constructor; simpl; intuition congruence.
  - constructor.
  - intros l l' [].
  - intros l [].
  - simpl. lia.
  - intros p [<- | [<- | []]]; [left | right]; exists 0; constructor.
  - intros p q [<- | [<- | []]] [<- | [<- | []]] Hpq _; auto; congruence.
Qed.

Lemma NoDup_map_mkLink : forall x people,
  NoDup people -> NoDup (map (mkLink x) people).
Proof.
  intros x people Hnd. induction Hnd as [|p people Hp Hnd IH]; simpl; constructor;
    trivial.
  intros Hin. apply in_map_iff in Hin. destruct Hin as [q [E Hq]].
  injection E as <-. contradiction.
Qed.

Lemma sessionLayout_reveal : forall connections s x,
  sessionInv connections s -> sessionLayout connections s ->
  JsSet.has x (revealedPeople s) = false ->
  existsb (areDirectlyConnected connections x) (revealedPeople s) = true ->
  sessionLayout connections
    (withRevealed (JsSet.add x (revealedPeople s))
       (revealedConnections s ++
        map (mkLink x) (filter (areDirectlyConnected connections x) (revealedPeople s)))
       (attempts s + 1)%Z s).
Proof.
  intros connections s x Hinv [Hd Hp Hl Hw Hg Hc Ha Hk] Hx Hlink.
  pose proof (inv_links _ _ Hinv) as Hends.
  assert (Hfresh : ~ In x (revealedPeople s)) by now apply has_false_In.
  assert (Hnew : forall l,
    In l (map (mkLink x) (filter (areDirectlyConnected connections x) (revealedPeople s)))
    <-> source l = x /\ In (target l) (revealedPeople s) /\
        areDirectlyConnected connections x (target l) = true).
  { intros l. rewrite in_map_iff. split.
    - intros [p [<- Hin]]. apply filter_In in Hin. simpl. tauto.
    - intros [Hs [Ht Hadj]]. exists (target l). split.
      + destruct l; simpl in *. now subst.
      + apply filter_In. auto. }
  assert (Hold : forall l, In l (revealedConnections s) ->
                           In (source l) (revealedPeople s) /\
                           In (target l) (revealedPeople s)).
  { intros l Hin. destruct (Hends l Hin) as [_ [H1 H2]].
    split; now apply has_In. }
  assert (Hmono : forall a b, joined (revealedConnections s) a b ->
    joined (revealedConnections s ++
            map (mkLink x) (filter (areDirectlyConnected connections x)
                                   (revealedPeople s))) a b).
  { intros a b. apply joined_incl. intros l Hin. apply in_app_iff. now left. }
  split; simpl.
  - exact Hd.
  - now apply NoDup_add.
  - apply NoDup_app; trivial.
    + apply NoDup_map_mkLink. now apply NoDup_filter.
    + intros l Hin Hin'. apply Hnew in Hin'. destruct Hin' as [Hs _].
      apply Hold in Hin. rewrite Hs in Hin. tauto.
  - intros l l' Hin Hin' Hst Hts.
    apply in_app_iff in Hin, Hin'.
    destruct Hin as [Hin | Hin]; destruct Hin' as [Hin' | Hin'].
    + now apply (Hw l l').
    + apply Hnew in Hin'. destruct Hin' as [Hs' _]. apply Hold in Hin.
      rewrite <- Hst, Hs' in Hin. tauto.
    + apply Hnew in Hin. destruct Hin as [Hs _]. apply Hold in Hin'.
      rewrite Hts, Hs in Hin'. tauto.
    + apply Hnew in Hin, Hin'. destruct Hin as [_ [Ht _]]. destruct Hin' as [Hs' _].
      rewrite <- Hst, Hs' in Ht. contradiction.
  - intros l Hin. apply in_app_iff in Hin. destruct Hin as [Hin | Hin]; [auto |].
    apply Hnew in Hin. destruct Hin as [-> _].
    destruct (inv_ends _ _ Hinv) as [Hs Ht]. apply has_In in Hs, Ht.
    split; intros E; rewrite E in Hfresh; contradiction.
  - rewrite (add_fresh _ _ Hx), length_app. simpl. lia.
  - intros p Hin. apply In_add in Hin. destruct Hin as [-> | Hin].
    + apply existsb_exists in Hlink. destruct Hlink as [q [Hq Hadj]].
      assert (Hqx : joined (revealedConnections s ++
                map (mkLink x) (filter (areDirectlyConnected connections x)
                                       (revealedPeople s))) q x).
      { exists (mkLink x q). split; [| simpl; auto].
        apply in_app_iff. right. apply Hnew. simpl. auto. }
      destruct (Ha q Hq) as [H | H]; [left | right];
        (eapply connected_trans;
         [eapply connected_mono; [exact Hmono | exact H]
         | now apply connected_edge]).
    + destruct (Ha p Hin) as [H | H]; [left | right];
        (eapply connected_mono; [exact Hmono | exact H]).
  - intros p q Hp' Hq' Hpq Hadj. apply In_add in Hp', Hq'.
    destruct Hp' as [-> | Hp']; destruct Hq' as [-> | Hq'].
    + congruence.
    + right. right. exists (mkLink x q). split; [| simpl; auto].
      apply in_app_iff. right. apply Hnew. simpl. auto.
    + right. right. exists (mkLink x p). split; [| simpl; auto].
      apply in_app_iff. right. apply Hnew. simpl.
      rewrite areDirectlyConnected_sym. auto.
    + destruct (Hk p q Hp' Hq' Hpq Hadj) as [H | [H | H]]; auto.
Qed.

Lemma sessionLayout_guess : forall connections nameToSearch s,
  sessionInv connections s -> sessionLayout connections s ->
  sessionLayout connections (handleSearchWithName connections nameToSearch s).
Proof.
  intros connections nameToSearch s Hinv Hlay.
  pose proof (guessBranch_cases connections nameToSearch s) as Hcase.
  unfold handleSearchWithName.
  destruct (guessBranch connections nameToSearch s); simpl in Hcase; trivial.
  - apply (sessionLayout_ext connections s); trivial;
      unfold chargeAttempt; destruct (_ >=? _)%Z; simpl; trivial; lia.
  - apply (sessionLayout_ext connections s); trivial;
      unfold chargeAttempt; destruct (_ >=? _)%Z; simpl; trivial; lia.
  - destruct Hcase as [_ [_ [Hx Hlink]]].
    pose proof (sessionLayout_reveal connections s (JsString.trim nameToSearch)
                  Hinv Hlay Hx Hlink) as Hrev.
    unfold JsSet.toArray.
    destruct (isGraphConnected _ _ _); [| destruct (_ >=? _)%Z];
      try exact Hrev;
      (eapply sessionLayout_ext; [| | | | | exact Hrev]; simpl; trivial; lia).
Qed.

Lemma sessionLayout_tick : forall connections now s,
  sessionLayout connections s -> sessionLayout connections (tick now s).
Proof.
  intros connections now s Hlay. unfold tick.
  destruct (gameStarted s && negb (gameWon s) && negb (gameLost s)); trivial.
  apply (sessionLayout_ext connections s); simpl; trivial. lia.
Qed.

Lemma reachable_both : forall connections s,
  reachable connections s ->
  sessionInv connections s /\ sessionLayout connections s.
Proof.
  intros connections s Hreach. split; [now apply reachable_inv |].
  induction Hreach.
  - eapply sessionLayout_start; eassumption.
  - apply sessionLayout_guess; [now apply reachable_inv | assumption].
  - now apply sessionLayout_tick.
Qed.

(* ================================================================== *)
(** ** Further properties of [handleSearchWithName] *)
(* ================================================================== *)

(** X11: a guess never takes anything back, in any session: every
    revealed person stays revealed, the revealed connections are kept in
    place with new ones only appended, [attempts] grows by nothing or by
    one, a won or lost game stays so, the score changes only when the guess
    wins, and the two ends, [maxAttempts], the clock fields and
    [gameStarted] are left alone. *)
Theorem X11_guess_never_takes_back : forall connections nameToSearch s,
  (forall p, In p (revealedPeople s) ->
             In p (revealedPeople (handleSearchWithName connections nameToSearch s))) /\
  (exists added,
     revealedConnections (handleSearchWithName connections nameToSearch s)
     = revealedConnections s ++ added) /\
  (attempts s <= attempts (handleSearchWithName connections nameToSearch s)
   <= attempts s + 1)%Z /\
  (gameWon s = true ->
   gameWon (handleSearchWithName connections nameToSearch s) = true) /\
  (gameLost s = true ->
   gameLost (handleSearchWithName connections nameToSearch s) = true) /\
  (gameWon (handleSearchWithName connections nameToSearch s) = gameWon s ->
   score (handleSearchWithName connections nameToSearch s) = score s) /\
  startPerson (handleSearchWithName connections nameToSearch s) = startPerson s /\
  targetPerson (handleSearchWithName connections nameToSearch s) = targetPerson s /\
  maxAttempts (handleSearchWithName connections nameToSearch s) = maxAttempts s /\
  timeStarted (handleSearchWithName connections nameToSearch s) = timeStarted s /\
  timeElapsed (handleSearchWithName connections nameToSearch s) = timeElapsed s /\
  gameStarted (handleSearchWithName connections nameToSearch s) = gameStarted s.
Proof.
  intros connections nameToSearch s.
  pose proof (guessBranch_cases connections nameToSearch s) as Hcase.
  unfold handleSearchWithName.
  destruct (guessBranch connections nameToSearch s); simpl in Hcase.
  - repeat split; trivial; try lia. exists []. now rewrite app_nil_r.
  - unfold chargeAttempt. destruct (_ >=? _)%Z; simpl;
      (repeat split; trivial; try lia; exists []; now rewrite app_nil_r).
  - repeat split; trivial; try lia. exists []. now rewrite app_nil_r.
  - unfold chargeAttempt. destruct (_ >=? _)%Z; simpl;
      (repeat split; trivial; try lia; exists []; now rewrite app_nil_r).
  - destruct Hcase as [[_ [Hwon Hlost]] _].
    destruct (isGraphConnected _ _ _); [| destruct (_ >=? _)%Z]; simpl;
      (repeat split; trivial; try lia; try congruence;
       [ intros p Hp; apply In_add; now right | eexists; reflexivity ]).
Qed.

(** X12: a guess that reveals a person appends exactly that person, under
    the trimmed name, to the revealed people, counts one attempt, and
    appends at least one connection; the appended connections are exactly
    those from the new person to each person revealed before who is
    directly connected to it. *)
Theorem X12_reveal_adds_person_and_links : forall connections nameToSearch s,
  guessBranch connections nameToSearch s = Revealed ->
  revealedPeople (handleSearchWithName connections nameToSearch s)
  = revealedPeople s ++ [JsString.trim nameToSearch] /\
  attempts (handleSearchWithName connections nameToSearch s) = (attempts s + 1)%Z /\
  exists added,
    added <> [] /\
    revealedConnections (handleSearchWithName connections nameToSearch s)
    = revealedConnections s ++ added /\
    forall l, In l added <->
      source l = JsString.trim nameToSearch /\
      In (target l) (revealedPeople s) /\
      areDirectlyConnected connections (JsString.trim nameToSearch) (target l) = true.
Proof.
  intros connections nameToSearch s Hbranch.
  pose proof (guessBranch_cases connections nameToSearch s) as Hcase.
  rewrite Hbranch in Hcase. simpl in Hcase.
  destruct Hcase as [_ [_ [Hx Hlink]]].
  unfold handleSearchWithName. rewrite Hbranch. unfold JsSet.toArray.
  assert (Hshape :
    JsSet.add (JsString.trim nameToSearch) (revealedPeople s)
    = revealedPeople s ++ [JsString.trim nameToSearch]) by now apply add_fresh.
  assert (Hadded : forall l,
    In l (map (fun p => mkLink (JsString.trim nameToSearch) p)
              (filter (fun p => areDirectlyConnected connections
                                  (JsString.trim nameToSearch) p)
                      (revealedPeople s))) <->
    source l = JsString.trim nameToSearch /\
    In (target l) (revealedPeople s) /\
    areDirectlyConnected connections (JsString.trim nameToSearch) (target l) = true).
  { intros l. rewrite in_map_iff. split.
    - intros [p [<- Hin]]. apply filter_In in Hin. simpl. tauto.
    - intros [Hs [Ht Hadj]]. exists (target l). split.
      + destruct l; simpl in *. now subst.
      + apply filter_In. auto. }
  assert (Hsome :
    map (fun p => mkLink (JsString.trim nameToSearch) p)
        (filter (fun p => areDirectlyConnected connections
                            (JsString.trim nameToSearch) p)
                (revealedPeople s)) <> []).
  { apply existsb_exists in Hlink. destruct Hlink as [q [Hq Hadj]].
    intros E.
    assert (Hin : In (mkLink (JsString.trim nameToSearch) q) []).
    { rewrite <- E. apply Hadded. simpl. auto. }
    destruct Hin. }
  destruct (isGraphConnected _ _ _); [| destruct (_ >=? _)%Z]; simpl;
    (split; [exact Hshape |]; split; [reflexivity |];
     eexists; split; [exact Hsome |]; split; [reflexivity | exact Hadded]).
Qed.

(** A run of X12's theorem: the guess B in the game on the chain
    A - B - C - D. *)
Lemma X12_reveal_adds_person_and_links_witness :
  guessBranch chain4 "B" chain4Start = Revealed /\
  revealedPeople (handleSearchWithName chain4 "B" chain4Start)
  = revealedPeople chain4Start ++ [JsString.trim "B"].
Proof.
  assert (H : guessBranch chain4 "B" chain4Start = Revealed) by reflexivity.
  split; [exact H |].
  apply (X12_reveal_adds_person_and_links chain4 "B" chain4Start H).
Defined.

Lemma no_links_not_connected : forall a b,
  a <> b -> ~ connected (joined []) a b.
Proof.
  intros a b Hne [n Hn]. destruct n as [|n].
  - apply walk_zero in Hn. contradiction.
  - apply walk_last in Hn. destruct Hn as [x [_ [l [[] _]]]].
Qed.

(** X13: in every reachable session the game is won exactly when the
    revealed connections join the start to the target by some chain: a
    win is never missed and never declared without one. *)
Theorem X13_won_iff_ends_joined : forall connections s,
  reachable connections s ->
  (gameWon s = true <->
   connected (joined (revealedConnections s)) (startPerson s) (targetPerson s)).
Proof.
  intros connections s Hreach.
  destruct (reachable_both connections s Hreach) as [Hinv Hlay]. split.
  - intros Hwon. apply isGraphConnected_sound. now apply (inv_won _ _ Hinv).
  - intros Hconn. destruct (gameWon s) eqn:Hwon; trivial.
    pose proof (inv_open _ _ Hinv Hwon) as Hopen.
    destruct (revealedConnections s) as [|l rest] eqn:E.
    + exfalso. now apply (no_links_not_connected _ _ (lay_distinct _ _ Hlay)).
    + assert (Hyes : isGraphConnected (l :: rest) (startPerson s) (targetPerson s)
                     = true).
      { apply isGraphConnected_iff. split; [discriminate | assumption]. }
      congruence.
Qed.

(** A run of X13's theorem on the won game of the chain A - B - C - D. *)
Lemma X13_won_iff_ends_joined_witness :
  reachable chain4 chain4Won /\
  (gameWon chain4Won = true <->
   connected (joined (revealedConnections chain4Won))
             (startPerson chain4Won) (targetPerson chain4Won)).
Proof.
  split; [exact chain4Won_reachable |].
  apply (X13_won_iff_ends_joined chain4 chain4Won chain4Won_reachable).
Defined.

(** X14: in every reachable session no person and no connection is
    revealed twice; no revealed connection joins a person to itself, and no
    two revealed connections join the same two people, in either
    direction. *)
Theorem X14_nothing_revealed_twice : forall connections s,
  reachable connections s ->
  NoDup (revealedPeople s) /\ NoDup (revealedConnections s) /\
  (forall l, In l (revealedConnections s) -> source l <> target l) /\
  (forall l l', In l (revealedConnections s) -> In l' (revealedConnections s) ->
     (source l' = source l /\ target l' = target l) \/
     (source l' = target l /\ target l' = source l) ->
     l' = l).
Proof.
  intros connections s Hreach.
  destruct (reachable_both connections s Hreach) as [_ Hlay].
  destruct Hlay as [Hd Hp Hl Hw Hg Hc Ha Hk].
  split; [exact Hp |]. split; [exact Hl |]. split.
  - intros l Hin E. apply (Hw l l Hin Hin); congruence.
  - intros l l' Hin Hin' [[Hs Ht] | [Hs Ht]].
    + destruct l, l'; simpl in *. congruence.
    + exfalso. now apply (Hw l l' Hin Hin').
Qed.

(** A run of X14's theorem on the won game of the chain A - B - C - D. *)
Lemma X14_nothing_revealed_twice_witness :
  reachable chain4 chain4Won /\ NoDup (revealedConnections chain4Won).
Proof.
  split; [exact chain4Won_reachable |].
  apply (X14_nothing_revealed_twice chain4 chain4Won chain4Won_reachable).
Defined.

(** X15: in every reachable session each revealed person is joined, by a
    chain of revealed connections, to the start person or to the target
    person: nobody is revealed in isolation. *)
Theorem X15_revealed_people_hang_on_an_end : forall connections s p,
  reachable connections s ->
  JsSet.has p (revealedPeople s) = true ->
  connected (joined (revealedConnections s)) (startPerson s) p \/
  connected (joined (revealedConnections s)) (targetPerson s) p.
Proof.
  intros connections s p Hreach Hp.
  destruct (reachable_both connections s Hreach) as [_ Hlay].
  apply (lay_attached _ _ Hlay). now apply has_In.
Qed.

(** A run of X15's theorem: C in the won game of the chain
    A - B - C - D. *)
Lemma X15_revealed_people_hang_on_an_end_witness :
  reachable chain4 chain4Won /\
  JsSet.has "C" (revealedPeople chain4Won) = true /\
  (connected (joined (revealedConnections chain4Won)) (startPerson chain4Won) "C" \/
   connected (joined (revealedConnections chain4Won)) (targetPerson chain4Won) "C").
Proof.
  assert (H : JsSet.has "C" (revealedPeople chain4Won) = true) by reflexivity.
  split; [exact chain4Won_reachable |]. split; [exact H |].
  apply (X15_revealed_people_hang_on_an_end chain4 chain4Won "C"
           chain4Won_reachable H).
Defined.

(** X16: in every reachable session the revealed connections are exactly
    the direct connections of the full graph between two different
    revealed people, but for the pair of start and target, which is never
    joined by a revealed connection even when the two are directly
    connected. *)
Theorem X16_revealed_links_are_the_induced_graph : forall connections s p q,
  reachable connections s ->
  (joined (revealedConnections s) p q <->
   JsSet.has p (revealedPeople s) = true /\ JsSet.has q (revealedPeople s) = true /\
   p <> q /\ areDirectlyConnected connections p q = true /\
   ~ (p = startPerson s /\ q = targetPerson s) /\
   ~ (p = targetPerson s /\ q = startPerson s)).
Proof.
  intros connections s p q Hreach.
  destruct (reachable_both connections s Hreach) as [Hinv Hlay].
  pose proof (inv_links _ _ Hinv) as Hends.
  destruct Hlay as [Hd Hp Hl Hw Hg Hc Ha Hk]. split.
  - intros [l [Hin H]]. destruct (Hends l Hin) as [Hadj [Hs Ht]].
    destruct (Hg l Hin) as [Hg1 Hg2].
    assert (Hne : source l <> target l).
    { intros E. apply (Hw l l Hin Hin); congruence. }
    destruct H as [[<- <-] | [<- <-]].
    + repeat split; trivial; intros [E1 E2]; congruence.
    + rewrite areDirectlyConnected_sym.
      repeat split; trivial; try congruence; intros [E1 E2]; congruence.
  - intros [Hp' [Hq' [Hne [Hadj [H1 H2]]]]]. apply has_In in Hp', Hq'.
    destruct (Hk p q Hp' Hq' Hne Hadj) as [H | [H | H]]; tauto.
Qed.

(** A run of X16's theorem: B and C in the won game of the chain
    A - B - C - D. *)
Lemma X16_revealed_links_are_the_induced_graph_witness :
  reachable chain4 chain4Won /\
  (joined (revealedConnections chain4Won) "B" "C" <->
   JsSet.has "B" (revealedPeople chain4Won) = true /\
   JsSet.has "C" (revealedPeople chain4Won) = true /\
   "B" <> "C" /\ areDirectlyConnected chain4 "B" "C" = true /\
   ~ ("B" = startPerson chain4Won /\ "C" = targetPerson chain4Won) /\
   ~ ("B" = targetPerson chain4Won /\ "C" = startPerson chain4Won)).
Proof.
  split; [exact chain4Won_reachable |].
  apply (X16_revealed_links_are_the_induced_graph chain4 chain4Won "B" "C"
           chain4Won_reachable).
Defined.

(** X17: in every reachable session at least the two ends are revealed,
    and the number of people revealed beyond them never exceeds the number
    of attempts used. *)
Theorem X17_revealed_count_bounded_by_attempts : forall connections s,
  reachable connections s ->
  (2 <= Z.of_nat (length (revealedPeople s)) <= attempts s + 2)%Z.
Proof.
  intros connections s Hreach.
  destruct (reachable_both connections s Hreach) as [_ Hlay].
  apply (lay_count _ _ Hlay).
Qed.

(** A run of X17's theorem on the won game of the chain A - B - C - D. *)
Lemma X17_revealed_count_bounded_by_attempts_witness :
  reachable chain4 chain4Won /\
  (2 <= Z.of_nat (length (revealedPeople chain4Won)) <= attempts chain4Won + 2)%Z.
Proof.
  split; [exact chain4Won_reachable |].
  apply (X17_revealed_count_bounded_by_attempts chain4 chain4Won
           chain4Won_reachable).
Defined.

(* ================================================================== *)
(** ** Guessing along a shortest path *)
(* ================================================================== *)

Lemma guess_keeps_people : forall connections nameToSearch s p,
  In p (revealedPeople s) ->
  In p (revealedPeople (handleSearchWithName connections nameToSearch s)).
Proof.
  intros connections nameToSearch s p Hp. unfold handleSearchWithName.
  destruct (guessBranch connections nameToSearch s); trivial;
    try (unfold chargeAttempt; destruct (_ >=? _)%Z; exact Hp).
  destruct (isGraphConnected _ _ _); [| destruct (_ >=? _)%Z]; simpl;
    apply In_add; now right.
Qed.

Lemma guess_attempts_le : forall connections nameToSearch s,
  (attempts (handleSearchWithName connections nameToSearch s) <= attempts s + 1)%Z /\
  maxAttempts (handleSearchWithName connections nameToSearch s) = maxAttempts s.
Proof.
  intros connections nameToSearch s. unfold handleSearchWithName.
  destruct (guessBranch connections nameToSearch s);
    [ split; [lia | reflexivity]
    | unfold chargeAttempt; destruct (_ >=? _)%Z; simpl; (split; [lia | reflexivity])
    | split; [lia | reflexivity]
    | unfold chargeAttempt; destruct (_ >=? _)%Z; simpl; (split; [lia | reflexivity])
    | ].
  destruct (isGraphConnected _ _ _); [| destruct (_ >=? _)%Z]; simpl;
    (split; [lia | reflexivity]).
Qed.

Lemma guess_terminal : forall connections nameToSearch s,
  gameWon s = true \/ gameLost s = true ->
  handleSearchWithName connections nameToSearch s = s.
Proof.
  intros connections nameToSearch s H. unfold handleSearchWithName.
  now rewrite (terminal_ignored connections nameToSearch s H).
Qed.

Lemma guessAll_terminal : forall connections names s,
  gameWon s = true \/ gameLost s = true -> guessAll connections names s = s.
Proof.
  intros connections. induction names as [|n rest IH]; intros s H; [reflexivity |].
  simpl. rewrite (guess_terminal _ _ _ H). now apply IH.
Qed.

Lemma guessAll_reachable : forall connections names s,
  reachable connections s -> reachable connections (guessAll connections names s).
Proof.
  intros connections. induction names as [|n rest IH]; intros s H; [assumption |].
  simpl. apply IH. now apply reach_guess.
Qed.

Lemma guessAll_keeps : forall connections names s,
  (forall p, In p (revealedPeople s) ->
             In p (revealedPeople (guessAll connections names s))) /\
  (attempts (guessAll connections names s) <= attempts s + Z.of_nat (length names))%Z /\
  maxAttempts (guessAll connections names s) = maxAttempts s /\
  startPerson (guessAll connections names s) = startPerson s /\
  targetPerson (guessAll connections names s) = targetPerson s.
Proof.
  intros connections. induction names as [|n rest IH]; intros s.
  - simpl. repeat split; trivial. lia.
  - destruct (IH (handleSearchWithName connections n s)) as [Hp [Ha [Hm [Hs Ht]]]].
    destruct (guess_attempts_le connections n s) as [Ha' Hm'].
    change (guessAll connections (n :: rest) s)
      with (guessAll connections rest (handleSearchWithName connections n s)).
    split; [| split; [| split; [| split]]].
    + intros p Hin. apply Hp. now apply guess_keeps_people.
    + change (length (n :: rest)) with (S (length rest)). lia.
    + congruence.
    + rewrite Hs. unfold handleSearchWithName.
      destruct (guessBranch connections n s); trivial;
        try (unfold chargeAttempt; destruct (_ >=? _)%Z; reflexivity).
      destruct (isGraphConnected _ _ _); [| destruct (_ >=? _)%Z]; reflexivity.
    + rewrite Ht. unfold handleSearchWithName.
      destruct (guessBranch connections n s); trivial;
        try (unfold chargeAttempt; destruct (_ >=? _)%Z; reflexivity).
      destruct (isGraphConnected _ _ _); [| destruct (_ >=? _)%Z]; reflexivity.
Qed.

(** In a running game, guessing the exact name of a person directly
    connected to a revealed person leaves that person revealed. *)
Lemma guess_reveals_neighbour : forall connections s q r,
  gameWon s = false -> gameLost s = false ->
  JsString.trim q = q -> q <> "" ->
  In r (revealedPeople s) -> areDirectlyConnected connections q r = true ->
  In q (revealedPeople (handleSearchWithName connections q s)).
Proof.
  intros connections s q r Hwon Hlost Htrim Hname Hr Hadj.
  pose proof (guessBranch_cases connections q s) as Hcase.
  unfold handleSearchWithName. rewrite Htrim in *.
  destruct (guessBranch connections q s); simpl in Hcase.
  - destruct Hcase as [E | [E | E]]; try congruence.
    apply isFalsy_true in E. contradiction.
  - destruct Hcase as [_ Hno]. apply has_false_In in Hno. exfalso. apply Hno.
    apply In_allPeople. apply areDirectlyConnected_spec in Hadj.
    destruct Hadj as [c [Hc H]]. exists c. tauto.
  - apply has_In. apply Hcase.
  - destruct Hcase as [_ [_ [_ Hno]]].
    assert (Hyes : existsb (areDirectlyConnected connections q) (revealedPeople s)
                   = true) by (apply existsb_exists; eauto).
    congruence.
  - destruct (isGraphConnected _ _ _); [| destruct (_ >=? _)%Z]; simpl;
      apply In_add; now left.
Qed.

(** Guessing the names of a chain that starts next to a revealed person:
    either the game ends on the way, or all of them are revealed. *)
Lemma guessAll_along_chain : forall connections names s r,
  In r (revealedPeople s) ->
  stepsLinked connections (r :: names) = true ->
  (forall p, In p names -> JsString.trim p = p /\ p <> "") ->
  (gameWon (guessAll connections names s) = true \/
   gameLost (guessAll connections names s) = true) \/
  (forall p, In p names -> In p (revealedPeople (guessAll connections names s))).
Proof.
  intros connections. induction names as [|q rest IH]; intros s r Hr Hsteps Hnames.
  - right. intros p [].
  - change (stepsLinked connections (r :: q :: rest))
      with (areDirectlyConnected connections r q &&
            stepsLinked connections (q :: rest)) in Hsteps.
    apply andb_true_iff in Hsteps. destruct Hsteps as [Hrq Hrest].
    change (guessAll connections (q :: rest) s)
      with (guessAll connections rest (handleSearchWithName connections q s)).
    destruct (gameWon s) eqn:Hwon.
    { left. rewrite guess_terminal by auto. rewrite guessAll_terminal; auto. }
    destruct (gameLost s) eqn:Hlost.
    { left. rewrite guess_terminal by auto. rewrite guessAll_terminal; auto. }
    destruct (Hnames q (or_introl eq_refl)) as [Htrim Hname].
    rewrite areDirectlyConnected_sym in Hrq.
    pose proof (guess_reveals_neighbour connections s q r Hwon Hlost Htrim Hname
                  Hr Hrq) as Hq.
    destruct (IH (handleSearchWithName connections q s) q Hq Hrest) as [Hend | Hall].
    + intros p Hp. apply Hnames. now right.
    + now left.
    + right. intros p [<- | Hp]; [| now apply Hall].
      now apply (proj1 (guessAll_keeps connections rest _)).
Qed.

(** Along a path whose names are all revealed, the revealed connections
    lead from one end to the other, as long as every two different,
    directly connected revealed people are joined. *)
Lemma path_is_joined : forall connections revealed names a b,
  validPath connections a b names = true -> NoDup names ->
  (forall p q, In p names -> In q names -> p <> q ->
               areDirectlyConnected connections p q = true -> joined revealed p q) ->
  connected (joined revealed) a b.
Proof.
  intros connections revealed. induction names as [|x rest IH];
    intros a b Hvalid Hnd Hj; [discriminate |].
  pose proof (validPath_head _ _ _ _ _ Hvalid) as ->.
  destruct rest as [|y rest'].
  - apply validPath_walk in Hvalid. simpl in Hvalid. apply walk_zero in Hvalid.
    subst. exists 0. constructor.
  - apply validPath_tail in Hvalid. destruct Hvalid as [Hay Hrest].
    inversion Hnd as [| ? ? Hnotin Hnd']; subst.
    apply connected_trans with y.
    + apply connected_edge. apply Hj; simpl; auto.
      intros E. apply Hnotin. rewrite E. now left.
    + apply (IH y b Hrest Hnd'). intros p q Hp Hq. apply Hj; now right.
Qed.

Lemma ends_joined_won : forall connections s,
  reachable connections s ->
  connected (joined (revealedConnections s)) (startPerson s) (targetPerson s) ->
  gameWon s = true.
Proof.
  intros connections s Hreach Hconn.
  destruct (reachable_both connections s Hreach) as [Hinv Hlay].
  destruct (gameWon s) eqn:Hwon; trivial.
  pose proof (inv_open _ _ Hinv Hwon) as Hopen.
  destruct (revealedConnections s) as [|l rest] eqn:E.
  - exfalso. now apply (no_links_not_connected _ _ (lay_distinct _ _ Hlay)).
  - assert (Hyes : isGraphConnected (l :: rest) (startPerson s) (targetPerson s)
                   = true).
    { apply isGraphConnected_iff. split; [discriminate | assumption]. }
    congruence.
Qed.

Lemma path_shape : forall connections a b names,
  validPath connections a b names = true -> 2 <= length names ->
  names = a :: inner names ++ [b].
Proof.
  intros connections a b names Hvalid Hlen.
  destruct names as [|x rest]; [discriminate |].
  pose proof (validPath_head _ _ _ _ _ Hvalid) as ->.
  destruct rest as [|y rest']; [simpl in Hlen; lia |].
  unfold inner. simpl tl. f_equal.
  unfold validPath in Hvalid.
  apply andb_true_iff in Hvalid. destruct Hvalid as [H _].
  apply andb_true_iff in H. destruct H as [_ Hlast]. apply String.eqb_eq in Hlast.
  change (last (a :: y :: rest') "") with (last (y :: rest') "") in Hlast.
  rewrite <- Hlast. apply app_removelast_last. discriminate.
Qed.

(** X18: a game can be won along the shortest path: in a reachable
    session that is not lost, when [findShortestPath] from the start to
    the target has at least three names, all of them free of surrounding
    whitespace and not empty, and the attempts left exceed the number of
    names strictly between the ends, then guessing those names in order
    leaves the game won, with no more attempts charged than names
    guessed. *)
Theorem X18_shortest_path_guesses_win : forall connections s found,
  reachable connections s -> gameLost s = false ->
  findShortestPath connections (startPerson s) (targetPerson s) = Some found ->
  3 <= length found ->
  (forall p, In p found -> JsString.trim p = p /\ p <> "") ->
  (attempts s + Z.of_nat (length (inner found)) < maxAttempts s)%Z ->
  gameWon (guessAll connections (inner found) s) = true /\
  (attempts (guessAll connections (inner found) s)
   <= attempts s + Z.of_nat (length (inner found)))%Z.
Proof.
  intros connections s found Hreach Hlost Hfound Hlen Hnames Hbudget.
  destruct (guessAll_keeps connections (inner found) s) as [Hkeep [Hatt [Hmax [Hs Ht]]]].
  split; [| exact Hatt].
  destruct (reachable_both connections s Hreach) as [Hinv Hlay].
  pose proof (lay_distinct _ _ Hlay) as Hne.
  pose proof (findShortestPath_post connections _ _ Hne) as Hpost.
  rewrite Hfound in Hpost. destruct Hpost as [Hvalid Hmin].
  pose proof (shortest_NoDup connections found _ _ Hvalid Hmin) as Hnd.
  assert (Hshape : found = startPerson s :: inner found ++ [targetPerson s]).
  { apply (path_shape connections); [assumption | lia]. }
  assert (Hfar : areDirectlyConnected connections (startPerson s) (targetPerson s)
                 = false).
  { destruct (areDirectlyConnected connections (startPerson s) (targetPerson s))
      eqn:E; trivial.
    assert (Hw : walk (linked connections) 1 (startPerson s) (targetPerson s)).
    { apply (walk_step (b := startPerson s)); [constructor | exact E]. }
    apply Hmin in Hw. lia. }
  pose proof (guessAll_reachable connections (inner found) s Hreach) as Hreach'.
  destruct (reachable_both connections _ Hreach') as [Hinv' Hlay'].
  destruct (inv_ends _ _ Hinv) as [Hstart Htarget]. apply has_In in Hstart, Htarget.
  assert (Hsteps : stepsLinked connections (startPerson s :: inner found) = true).
  { unfold validPath in Hvalid. rewrite Hshape in Hvalid.
    apply andb_true_iff in Hvalid. destruct Hvalid as [_ Hsteps].
    change (startPerson s :: inner found ++ [targetPerson s])
      with ((startPerson s :: inner found) ++ [targetPerson s]) in Hsteps.
    rewrite stepsLinked_snoc in Hsteps. apply andb_true_iff in Hsteps. tauto. }
  destruct (guessAll_along_chain connections (inner found) s (startPerson s)
              Hstart Hsteps) as [[Hwon | Hlost'] | Hall].
  - intros p Hp. apply Hnames. rewrite Hshape. right. apply in_app_iff. now left.
  - exact Hwon.
  - exfalso. destruct (inv_lost _ _ Hinv' Hlost') as [_ Heq]. lia.
  - apply (ends_joined_won connections _ Hreach'). rewrite Hs, Ht.
    apply (path_is_joined connections _ found); trivial.
    assert (Hin : forall p, In p found ->
                    In p (revealedPeople (guessAll connections (inner found) s))).
    { intros p Hp. rewrite Hshape in Hp. destruct Hp as [<- | Hp]; [auto |].
      apply in_app_iff in Hp. destruct Hp as [Hp | [<- | []]]; auto. }
    intros p q Hp Hq Hpq Hadj.
    destruct (lay_complete _ _ Hlay' p q (Hin p Hp) (Hin q Hq) Hpq Hadj)
      as [[E1 E2] | [[E1 E2] | H]]; trivial; exfalso; rewrite Hs, Ht in *; subst.
    + congruence.
    + rewrite areDirectlyConnected_sym in Hadj. congruence.
Qed.

(** A run of X18's theorem: in the game from A to D on the chain
    A - B - C - D the guesses B, C win. *)
Lemma X18_shortest_path_guesses_win_witness :
  reachable chain4 chain4Start /\ gameLost chain4Start = false /\
  findShortestPath chain4 (startPerson chain4Start) (targetPerson chain4Start)
  = Some ["A"; "B"; "C"; "D"] /\
  inner ["A"; "B"; "C"; "D"] = ["B"; "C"] /\
  gameWon (guessAll chain4 (inner ["A"; "B"; "C"; "D"]) chain4Start) = true.
Proof.
  assert (Hlost : gameLost chain4Start = false) by reflexivity.
  assert (Hfound : findShortestPath chain4 (startPerson chain4Start)
                     (targetPerson chain4Start) = Some ["A"; "B"; "C"; "D"])
    by reflexivity.
  assert (Hlen : 3 <= length ["A"; "B"; "C"; "D"]) by (simpl; lia).
  assert (Hnames : forall p, In p ["A"; "B"; "C"; "D"] ->
                             JsString.trim p = p /\ p <> "").
  { intros p Hp. simpl in Hp.
    destruct Hp as [<- | [<- | [<- | [<- | []]]]]; split;
      [reflexivity | discriminate | reflexivity | discriminate
       | reflexivity | discriminate | reflexivity | discriminate]. }
  assert (Hbudget : (attempts chain4Start
                     + Z.of_nat (length (inner ["A"; "B"; "C"; "D"]))
                     < maxAttempts chain4Start)%Z) by reflexivity.
  split; [exact chain4Start_reachable |]. split; [exact Hlost |].
  split; [exact Hfound |]. split; [reflexivity |].
  apply (X18_shortest_path_guesses_win chain4 chain4Start ["A"; "B"; "C"; "D"]
           chain4Start_reachable Hlost Hfound Hlen Hnames Hbudget).
Defined.

(* ================================================================== *)
(** ** Hints *)
(* ================================================================== *)

(** X19: a hint is a guess that works: the person [getHint] names is a
    person of the graph who is not revealed, is directly connected to a
    revealed person, and has a shortest path to the target of at most
    [maxAttempts - attempts + 2] names; guessing that name, when it has no
    surrounding whitespace and is not empty, reveals the person. *)
Theorem X19_hint_is_a_revealing_guess : forall connections s person,
  getHint connections s = HintTry person ->
  In person (peopleArray connections) /\
  JsSet.has person (revealedPeople s) = false /\
  (exists revealed, In revealed (revealedPeople s) /\
                    areDirectlyConnected connections person revealed = true) /\
  (exists pathToTarget,
     findShortestPath connections person (targetPerson s) = Some pathToTarget /\
     (Z.of_nat (length pathToTarget) <= maxAttempts s - attempts s + 2)%Z) /\
  (JsString.trim person = person -> person <> "" ->
   guessBranch connections person s = Revealed).
Proof.
  intros connections s person. unfold getHint.
  destruct (negb (gameStarted s) || gameWon s || gameLost s) eqn:Hrun;
    [discriminate |].
  apply orb_false_iff in Hrun. destruct Hrun as [Hrun Hlost].
  apply orb_false_iff in Hrun. destruct Hrun as [_ Hwon].
  destruct (find _ _) as [p |] eqn:Hfind; [| discriminate].
  intros H. injection H as ->.
  apply find_some in Hfind. destruct Hfind as [Hin Hfits].
  unfold hintFits in Hfits.
  apply andb_true_iff in Hfits. destruct Hfits as [Hfits Hpath].
  apply andb_true_iff in Hfits. destruct Hfits as [Hnew Hlink].
  apply negb_true_iff in Hnew. unfold JsSet.toArray in *.
  split; [exact Hin |]. split; [exact Hnew |]. split.
  { apply existsb_exists in Hlink. destruct Hlink as [r [Hr Hadj]]. eauto. }
  split.
  { destruct (findShortestPath connections person (targetPerson s)) as [found |];
      [| discriminate].
    exists found. split; trivial. now apply Z.leb_le. }
  intros Htrim Hname. unfold guessBranch. rewrite Htrim, Hwon, Hlost.
  destruct (JsString.isFalsy person) eqn:E.
  { apply isFalsy_true in E. contradiction. }
  simpl. apply has_In in Hin. unfold JsSet.toArray in *.
  now rewrite Hin, Hnew, Hlink.
Qed.

(** A run of X19's theorem: the hint at the start of the game on the
    chain A - B - C - D. *)
Lemma X19_hint_is_a_revealing_guess_witness :
  getHint chain4 chain4Start = HintTry "B" /\
  guessBranch chain4 "B" chain4Start = Revealed.
Proof.
  assert (H : getHint chain4 chain4Start = HintTry "B") by reflexivity.
  split; [exact H |].
  apply (X19_hint_is_a_revealing_guess chain4 chain4Start "B" H);
    [reflexivity | discriminate].
Defined.

Lemma find_first : forall (fits : string -> bool) (people : list string) person,
  find fits people = Some person <->
  exists before after,
    people = before ++ person :: after /\
    fits person = true /\
    forall p, In p before -> fits p = false.
Proof.
  intros fits. induction people as [|x rest IH]; intros person.
  - split; [discriminate |]. intros [before [after [E _]]].
    destruct before; discriminate.
  - simpl. destruct (fits x) eqn:Hx.
    + split.
      * intros H. injection H as <-. exists [], rest.
        split; [reflexivity |]. split; [exact Hx | intros q []].
      * intros [before [after [E [Hfit Hnone]]]].
        destruct before as [|y before].
        -- injection E as ->. reflexivity.
        -- injection E as Ex _.
           rewrite (Hnone x) in Hx; [discriminate | left; now symmetry].
    + rewrite IH. split.
      * intros [before [after [E [Hfit Hnone]]]].
        exists (x :: before), after. split; [simpl; now rewrite E |].
        split; [exact Hfit |]. intros q [<- | Hq]; auto.
      * intros [before [after [E [Hfit Hnone]]]].
        destruct before as [|y before].
        -- injection E as ->. congruence.
        -- injection E as _ ->. exists before, after.
           split; [reflexivity |]. split; [exact Hfit |].
           intros q Hq. apply Hnone. now right.
Qed.

(** X20: [getHint] leaves the hint alone exactly when the game is not
    running (not started, won or lost); in a running game it reports that
    no hint is available exactly when no person of the graph fits, and
    otherwise names the first person, in the order the people were first
    listed in the connections, who fits: it names a person exactly when
    the game is running, that person fits, and nobody listed before does. *)
Theorem X20_hint_is_first_fit : forall connections s,
  (getHint connections s = HintUnchanged <->
   gameStarted s = false \/ gameWon s = true \/ gameLost s = true) /\
  (getHint connections s = HintNone <->
   inProgress s /\
   forall p, In p (peopleArray connections) -> hintFits connections s p = false) /\
  (forall person,
     getHint connections s = HintTry person <->
     inProgress s /\
     exists before after,
       peopleArray connections = before ++ person :: after /\
       hintFits connections s person = true /\
       forall p, In p before -> hintFits connections s p = false).
Proof.
  intros connections s. unfold getHint, inProgress, peopleArray.
  destruct (negb (gameStarted s) || gameWon s || gameLost s) eqn:Hrun.
  - assert (Hstop : gameStarted s = false \/ gameWon s = true \/ gameLost s = true).
    { destruct (gameStarted s), (gameWon s), (gameLost s); simpl in Hrun;
        auto; discriminate. }
    split; [tauto |]. split.
    + split; [discriminate |]. intros [[H1 [H2 H3]] _].
      destruct Hstop as [H | [H | H]]; congruence.
    + intros person. split; [discriminate |]. intros [[H1 [H2 H3]] _].
      destruct Hstop as [H | [H | H]]; congruence.
  - assert (Hgo : gameStarted s = true /\ gameWon s = false /\ gameLost s = false).
    { destruct (gameStarted s), (gameWon s), (gameLost s); simpl in Hrun;
        auto; discriminate. }
    destruct (find (hintFits connections s) (JsSet.toArray (allPeople connections)))
      as [p |] eqn:Hfind.
    + split.
      { split; [discriminate |]. intros [H | [H | H]];
          destruct Hgo as [? [? ?]]; congruence. }
      split.
      * split; [discriminate |]. intros [_ Hnone].
        apply find_some in Hfind. destruct Hfind as [Hin Hfits].
        rewrite (Hnone p Hin) in Hfits. discriminate.
      * intros person. split.
        -- intros H. injection H as <-. split; [exact Hgo |].
           now apply find_first.
        -- intros [_ Hfirst]. apply find_first in Hfirst.
           rewrite Hfind in Hfirst. injection Hfirst as <-. reflexivity.
    + split.
      { split; [discriminate |]. intros [H | [H | H]];
          destruct Hgo as [? [? ?]]; congruence. }
      split.
      * split; trivial. intros _. split; [exact Hgo |].
        intros q Hq. now apply (find_none _ _ Hfind).
      * intros person. split; [discriminate |]. intros [_ Hfirst].
        apply find_first in Hfirst. rewrite Hfind in Hfirst. discriminate.
Qed.

(* ================================================================== *)
(** ** Sorting and the suggestions *)
(* ================================================================== *)

Lemma leb_refl : forall a, String.leb a a = true.
Proof. intros a. destruct (String.leb_total a a); assumption. Qed.

Lemma leb_lt_or_eq : forall a b,
  String.leb a b = true <-> a = b \/ OrderedTypeEx.String_as_OT.lt a b.
Proof.
  intros a b. unfold String.leb. split.
  - destruct (String.compare a b) eqn:E; [| | discriminate]; intros _.
    + left. now apply String.compare_eq_iff.
    + right. now apply OrderedTypeEx.String_as_OT.cmp_lt.
  - intros [-> | H].
    + fold (String.leb b b). apply leb_refl.
    + apply OrderedTypeEx.String_as_OT.cmp_lt in H.
      unfold OrderedTypeEx.String_as_OT.cmp in H. now rewrite H.
Qed.

Lemma leb_trans : forall a b c,
  String.leb a b = true -> String.leb b c = true -> String.leb a c = true.
Proof.
  intros a b c Hab Hbc. apply leb_lt_or_eq in Hab, Hbc. apply leb_lt_or_eq.
  destruct Hab as [-> | Hab]; [assumption |].
  destruct Hbc as [<- | Hbc]; [now right |].
  right. eapply OrderedTypeEx.String_as_OT.lt_trans; eassumption.
Qed.

Lemma In_insertSorted : forall x y sorted,
  In y (Js.insertSorted x sorted) <-> y = x \/ In y sorted.
Proof.
  intros x y. induction sorted as [|z rest IH]; simpl.
  - intuition.
  - destruct (String.leb x z); simpl; [intuition |]. rewrite IH. intuition.
Qed.

Lemma In_sort : forall names y, In y (Js.sort names) <-> In y names.
Proof.
  induction names as [|x rest IH]; intros y; simpl; [tauto |].
  rewrite In_insertSorted, IH. intuition.
Qed.

Lemma NoDup_insertSorted : forall x sorted,
  ~ In x sorted -> NoDup sorted -> NoDup (Js.insertSorted x sorted).
Proof.
  intros x. induction sorted as [|z rest IH]; intros Hx Hnd; simpl.
  - repeat constructor. intros [].
  - destruct (String.leb x z); [now constructor |].
    inversion Hnd as [| ? ? Hz Hrest]; subst. constructor.
    + rewrite In_insertSorted. simpl in Hx. intuition.
    + apply IH; trivial. simpl in Hx. tauto.
Qed.

Lemma NoDup_sort : forall names, NoDup names -> NoDup (Js.sort names).
Proof.
  induction 1 as [|x rest Hx Hnd IH]; simpl; [constructor |].
  apply NoDup_insertSorted; trivial. now rewrite In_sort.
Qed.

Lemma length_insertSorted : forall x sorted,
  length (Js.insertSorted x sorted) = S (length sorted).
Proof.
  intros x. induction sorted as [|z rest IH]; simpl; trivial.
  destruct (String.leb x z); simpl; congruence.
Qed.

Lemma length_sort : forall names, length (Js.sort names) = length names.
Proof.
  induction names as [|x rest IH]; simpl; trivial.
  now rewrite length_insertSorted, IH.
Qed.

Lemma sorted_insertSorted : forall x sorted,
  StronglySorted (fun a b => String.leb a b = true) sorted ->
  StronglySorted (fun a b => String.leb a b = true) (Js.insertSorted x sorted).
Proof.
  intros x. induction 1 as [|z rest Hrest IH Hz]; simpl.
  - repeat constructor.
  - destruct (String.leb x z) eqn:Hxz.
    + constructor; [now constructor |]. constructor; trivial.
      eapply Forall_impl; [| exact Hz]. intros a Ha. simpl in *.
      now apply leb_trans with z.
    + constructor; trivial. apply Forall_forall. intros a Ha.
      apply In_insertSorted in Ha. destruct Ha as [-> | Ha].
      * destruct (String.leb_total x z); congruence.
      * now apply (proj1 (Forall_forall _ _) Hz).
Qed.

Lemma sorted_sort : forall names,
  StronglySorted (fun a b => String.leb a b = true) (Js.sort names).
Proof.
  induction names as [|x rest IH]; simpl; [constructor |].
  now apply sorted_insertSorted.
Qed.

Lemma sorted_filter : forall (R : string -> string -> Prop) f names,
  StronglySorted R names -> StronglySorted R (filter f names).
Proof.
  intros R f. induction 1 as [|x rest Hrest IH Hx]; simpl; [constructor |].
  destruct (f x); trivial. constructor; trivial.
  apply Forall_forall. intros a Ha. apply filter_In in Ha.
  now apply (proj1 (Forall_forall _ _) Hx).
Qed.

Lemma firstn_In : forall (n : nat) (names : list string) x,
  In x (firstn n names) -> In x names.
Proof.
  intros n names x Hin. rewrite <- (firstn_skipn n names).
  apply in_app_iff. now left.
Qed.

Lemma sorted_firstn : forall (R : string -> string -> Prop) n names,
  StronglySorted R names -> StronglySorted R (firstn n names).
Proof.
  intros R. induction n as [|n IH]; intros names Hs; simpl; [constructor |].
  destruct Hs as [|x rest Hrest Hx]; [constructor |].
  constructor; [now apply IH |].
  apply Forall_forall. intros a Ha. apply firstn_In in Ha.
  now apply (proj1 (Forall_forall _ _) Hx).
Qed.

Lemma NoDup_firstn : forall (n : nat) (names : list string),
  NoDup names -> NoDup (firstn n names).
Proof.
  induction n as [|n IH]; intros names Hnd; simpl; [constructor |].
  destruct Hnd as [|x rest Hx Hrest]; [constructor |].
  constructor; [| now apply IH]. intros Hin. apply firstn_In in Hin. contradiction.
Qed.

(** X21: [getAllPeople] lists every person of the connections exactly
    once, in ascending order of code units. *)
Theorem X21_getAllPeople_sorted_people : forall connections,
  (forall p, In p (getAllPeople connections) <->
             exists c, In c connections /\ (name1 c = p \/ name2 c = p)) /\
  NoDup (getAllPeople connections) /\
  StronglySorted (fun a b => String.leb a b = true) (getAllPeople connections) /\
  length (getAllPeople connections) = length (peopleArray connections).
Proof.
  intros connections. unfold getAllPeople, peopleArray, JsSet.toArray.
  split; [| split; [| split]].
  - intros p. rewrite In_sort. apply In_allPeople.
  - apply NoDup_sort, NoDup_allPeople.
  - apply sorted_sort.
  - apply length_sort.
Qed.

Lemma white_lowerUnit : forall c,
  JsString.isWhiteSpace (JsString.lowerUnit c) = JsString.isWhiteSpace c.
Proof.
  intros [b0 b1 b2 b3 b4 b5 b6 b7].
  destruct b0, b1, b2, b3, b4, b5, b6, b7; reflexivity.
Qed.

Lemma trimStart_toLowerCase : forall s,
  JsString.trimStart (JsString.toLowerCase s)
  = JsString.toLowerCase (JsString.trimStart s).
Proof.
  induction s as [|c rest IH]; simpl; trivial.
  rewrite white_lowerUnit. now destruct (JsString.isWhiteSpace c).
Qed.

Lemma trimEnd_toLowerCase : forall s,
  JsString.trimEnd (JsString.toLowerCase s)
  = JsString.toLowerCase (JsString.trimEnd s).
Proof.
  induction s as [|c rest IH]; simpl; trivial.
  rewrite IH, white_lowerUnit.
  destruct (JsString.trimEnd rest); simpl; trivial.
  now destruct (JsString.isWhiteSpace c).
Qed.

Lemma trim_toLowerCase : forall s,
  JsString.trim (JsString.toLowerCase s) = JsString.toLowerCase (JsString.trim s).
Proof.
  intros s. unfold JsString.trim.
  now rewrite trimStart_toLowerCase, trimEnd_toLowerCase.
Qed.

Lemma isFalsy_toLowerCase : forall s,
  JsString.isFalsy (JsString.toLowerCase s) = JsString.isFalsy s.
Proof. now intros [|c rest]. Qed.


(** What makes a name a suggestion for a query that is not blank. *)
Lemma In_getFilteredSuggestions : forall connections searchQuery s name,
  In name (getFilteredSuggestions connections searchQuery s) ->
  JsString.trim searchQuery <> "" /\
  In name (peopleArray connections) /\
  JsSet.has name (revealedPeople s) = false /\
  Js.includes (JsString.toLowerCase name)
              (JsString.trim (JsString.toLowerCase searchQuery)) = true.
Proof.
  intros connections searchQuery s name. unfold getFilteredSuggestions.
  destruct (JsString.isFalsy (JsString.trim searchQuery)) eqn:Hblank; [intros [] |].
  intros Hin. apply firstn_In in Hin. apply filter_In in Hin.
  destruct Hin as [Hin Hfit]. apply andb_true_iff in Hfit.
  destruct Hfit as [Hinc Hnew]. apply negb_true_iff in Hnew.
  split.
  { intros E. rewrite E in Hblank. discriminate. }
  split; [| split; assumption].
  unfold getAllPeople in Hin. apply (proj1 (In_sort _ _)) in Hin. exact Hin.
Qed.

(** X22: [getFilteredSuggestions] offers nothing for a blank query and at
    most eight names otherwise; every name offered is a person of the
    graph who is not revealed and whose lower-cased name contains the
    trimmed, lower-cased query; the names are offered in ascending order,
    none twice. *)
Theorem X22_suggestions_are_unrevealed_matches : forall connections searchQuery s,
  (JsString.trim searchQuery = "" ->
   getFilteredSuggestions connections searchQuery s = []) /\
  length (getFilteredSuggestions connections searchQuery s) <= 8 /\
  (forall name, In name (getFilteredSuggestions connections searchQuery s) ->
     In name (peopleArray connections) /\
     JsSet.has name (revealedPeople s) = false /\
     Js.includes (JsString.toLowerCase name)
                 (JsString.trim (JsString.toLowerCase searchQuery)) = true) /\
  NoDup (getFilteredSuggestions connections searchQuery s) /\
  StronglySorted (fun a b => String.leb a b = true)
                 (getFilteredSuggestions connections searchQuery s).
Proof.
  intros connections searchQuery s. split; [| split; [| split; [| split]]].
  - intros E. unfold getFilteredSuggestions. now rewrite E.
  - unfold getFilteredSuggestions.
    destruct (JsString.isFalsy _); [simpl; lia | apply firstn_le_length].
  - intros name Hin. now apply In_getFilteredSuggestions in Hin.
  - unfold getFilteredSuggestions. destruct (JsString.isFalsy _); [constructor |].
    apply NoDup_firstn, NoDup_filter. unfold getAllPeople.
    apply NoDup_sort, NoDup_allPeople.
  - unfold getFilteredSuggestions. destruct (JsString.isFalsy _); [constructor |].
    apply sorted_firstn, sorted_filter. unfold getAllPeople. apply sorted_sort.
Qed.



(** X24: the suggestions ignore the letter case of the query: two queries
    that differ in letter case only are offered the same names. *)
Theorem X24_suggestions_ignore_query_case : forall connections s query query',
  JsString.sameIgnoringCase query query' ->
  getFilteredSuggestions connections query s
  = getFilteredSuggestions connections query' s.
Proof.
  intros connections s query query' Hsame. unfold JsString.sameIgnoringCase in Hsame.
  unfold getFilteredSuggestions.
  assert (Hblank : forall q, JsString.isFalsy (JsString.trim q)
                             = JsString.isFalsy (JsString.trim (JsString.toLowerCase q))).
  { intros q. now rewrite trim_toLowerCase, isFalsy_toLowerCase. }
  now rewrite (Hblank query), (Hblank query'), Hsame.
Qed.

(** A run of X24's theorem: the queries "b" and "B". *)
Lemma X24_suggestions_ignore_query_case_witness :
  JsString.sameIgnoringCase "b" "B" /\
  getFilteredSuggestions chain4 "b" chain4Start
  = getFilteredSuggestions chain4 "B" chain4Start.
Proof.
  assert (H : JsString.sameIgnoringCase "b" "B") by reflexivity.
  split; [exact H |].
  apply (X24_suggestions_ignore_query_case chain4 chain4Start "b" "B" H).
Defined.

(* ================================================================== *)
(** ** Key presses *)
(* ================================================================== *)

(** X25: the keyboard selection never leaves the list: when
    [selectedSuggestionIndex] is -1 or the index of a suggestion, it is so
    again after any key; Escape clears it; only Enter hands a name on;
    Enter hands on the selected suggestion, and clears the selection, when
    a suggestion is selected and it is not empty; and Enter hands on the
    typed query, and keeps the selection, when none is selected or the
    selected one is empty. *)
Theorem X25_selection_stays_in_the_list : forall key suggestions searchQuery index,
  (-1 <= index < Z.max 0 (Z.of_nat (length suggestions)))%Z ->
  (-1 <= selection (handleKeyPress key suggestions searchQuery index)
      < Z.max 0 (Z.of_nat (length suggestions)))%Z /\
  (key = KeyEscape ->
   selection (handleKeyPress key suggestions searchQuery index) = (-1)%Z) /\
  (key <> KeyEnter ->
   submitted (handleKeyPress key suggestions searchQuery index) = None) /\
  (forall suggestion,
     key = KeyEnter -> (0 <= index)%Z ->
     nth_error suggestions (Z.to_nat index) = Some suggestion ->
     suggestion <> "" ->
     submitted (handleKeyPress key suggestions searchQuery index) = Some suggestion /\
     selection (handleKeyPress key suggestions searchQuery index) = (-1)%Z) /\
  (key = KeyEnter ->
   index = (-1)%Z \/ nth_error suggestions (Z.to_nat index) = Some "" ->
   submitted (handleKeyPress key suggestions searchQuery index) = Some searchQuery /\
   selection (handleKeyPress key suggestions searchQuery index) = index).
Proof.
  intros key suggestions searchQuery index Hrange.
  split; [| split; [| split; [| split]]].
  - destruct key; simpl; try lia.
    + unfold suggestionAt. destruct (index <? 0)%Z; simpl; [lia |].
      destruct (nth_error suggestions (Z.to_nat index)) as [sug |]; simpl; [| lia].
      destruct ((index >=? 0)%Z && negb (JsString.isFalsy sug)); simpl; lia.
    + destruct (index <? Z.of_nat (length suggestions) - 1)%Z eqn:Hlt; [| lia].
      apply Z.ltb_lt in Hlt. lia.
    + destruct (index >? 0)%Z eqn:Hgt; [| lia]. apply Z.gtb_lt in Hgt. lia.
  - intros ->. reflexivity.
  - intros Hkey. destruct key; try reflexivity. contradiction.
  - intros suggestion -> Hpos Hnth Hfull. simpl. unfold suggestionAt.
    rewrite (proj2 (Z.ltb_ge index 0) Hpos), Hnth.
    rewrite (proj2 (Z.geb_le index 0) Hpos).
    destruct (JsString.isFalsy suggestion) eqn:Hf.
    + apply isFalsy_true in Hf. contradiction.
    + simpl. split; reflexivity.
  - intros -> [-> | Hnth]; simpl; unfold suggestionAt.
    + simpl. split; reflexivity.
    + destruct (index <? 0)%Z; [simpl; split; reflexivity |].
      rewrite Hnth. rewrite andb_false_r. simpl. split; reflexivity.
Qed.

(** A run of X25's theorem: Arrow Down on the last of two suggestions,
    and Enter on it. *)
Lemma X25_selection_stays_in_the_list_witness :
  (-1 <= 1 < Z.max 0 (Z.of_nat (length ["B"; "C"])))%Z /\
  (-1 <= selection (handleKeyPress KeyArrowDown ["B"; "C"] "" 1)
      < Z.max 0 (Z.of_nat (length ["B"; "C"])))%Z /\
  submitted (handleKeyPress KeyEnter ["B"; "C"] "b" 1) = Some "C" /\
  selection (handleKeyPress KeyEnter ["B"; "C"] "b" 1) = (-1)%Z.
Proof.
  assert (H : (-1 <= 1 < Z.max 0 (Z.of_nat (length ["B"; "C"])))%Z)
    by (simpl; lia).
  split; [exact H |]. split.
  - apply (proj1 (X25_selection_stays_in_the_list KeyArrowDown ["B"; "C"] "" 1 H)).
  - apply (proj1 (proj2 (proj2 (proj2
             (X25_selection_stays_in_the_list KeyEnter ["B"; "C"] "b" 1 H))))
             "C"); [reflexivity | lia | reflexivity | discriminate].
Defined.

(* ================================================================== *)
(** ** The clock display *)
(* ================================================================== *)

Lemma readWhole_toString : forall n, readWhole (Js.toString n) = Some n.
Proof.
  intros n. unfold readWhole, Js.toString.
  rewrite DecimalString.NilZero.isi.
  - simpl. now rewrite DecimalZ.of_to.
  - destruct n; simpl; try discriminate.
    intros E. injection E as E. now apply DecimalPos.Unsigned.to_uint_nonnil in E.
  - destruct n; simpl; try discriminate.
    intros E. injection E as E. now apply DecimalPos.Unsigned.to_uint_nonnil in E.
Qed.

Lemma padded_seconds : forall n : nat,
  n < 60 ->
  String.length (Js.padStart 2 "0"%char (Js.toString (Z.of_nat n))) = 2 /\
  readWhole (Js.padStart 2 "0"%char (Js.toString (Z.of_nat n))) = Some (Z.of_nat n).
Proof.
  intros n Hn.
  do 60 (destruct n as [|n]; [vm_compute; split; reflexivity |]).
  lia.
Qed.

(** X26: for a time of [ms] milliseconds, a whole number from 0 to
    [Number.MAX_SAFE_INTEGER], [formatTime] shows the whole minutes, a
    colon, and the remaining whole seconds on exactly two digits; both
    numbers read back as [floor(ms / 60000)] and [floor(ms / 1000) mod 60]. *)
Theorem X26_formatTime_minutes_and_two_digit_seconds : forall ms,
  (0 <= ms <= Js.maxSafeInteger)%Z ->
  exists minutes seconds,
    formatTime ms = (minutes ++ ":" ++ seconds)%string /\
    String.length seconds = 2 /\
    readWhole minutes = Some (ms / 60000)%Z /\
    readWhole seconds = Some ((ms / 1000) mod 60)%Z.
Proof.
  intros ms [Hms _]. unfold formatTime.
  exists (Js.toString (ms / 1000 / 60)),
         (Js.padStart 2 "0"%char (Js.toString (Z.rem (ms / 1000) 60))).
  assert (Hsec : (0 <= ms / 1000)%Z) by (apply Z.div_pos; lia).
  rewrite Z.rem_mod_nonneg by lia.
  assert (Hrange : (0 <= (ms / 1000) mod 60 < 60)%Z) by (apply Z.mod_pos_bound; lia).
  destruct (padded_seconds (Z.to_nat ((ms / 1000) mod 60))) as [Hlen Hread]; [lia |].
  rewrite Z2Nat.id in Hlen, Hread by lia.
  split; [reflexivity |]. split; [exact Hlen |]. split; [| exact Hread].
  rewrite readWhole_toString. f_equal. rewrite Z.div_div by lia. reflexivity.
Qed.

(** A run of X26's theorem: 61 seconds. *)
Lemma X26_formatTime_minutes_and_two_digit_seconds_witness :
  (0 <= 61000 <= Js.maxSafeInteger)%Z /\
  formatTime 61000 = "1:01" /\
  exists minutes seconds,
    formatTime 61000 = (minutes ++ ":" ++ seconds)%string /\
    String.length seconds = 2 /\
    readWhole minutes = Some (61000 / 60000)%Z /\
    readWhole seconds = Some ((61000 / 1000) mod 60)%Z.
Proof.
  assert (H : (0 <= 61000 <= Js.maxSafeInteger)%Z) by (unfold Js.maxSafeInteger; lia).
  split; [exact H |]. split; [reflexivity |].
  apply (X26_formatTime_minutes_and_two_digit_seconds 61000 H).
Defined.

(* ================================================================== *)
(** ** The path game *)
(* ================================================================== *)

Ltac path_fields :=
  cbn [fst snd negb PathGame.moved PathGame.startPerson PathGame.targetPerson
       PathGame.currentPath PathGame.gameStarted PathGame.gameWon
       PathGame.gameLost PathGame.attempts PathGame.maxAttempts
       PathGame.timeStarted PathGame.timeElapsed PathGame.score
       PathGame.gamesPlayed PathGame.gamesWon PathGame.bestTime
       PathGame.totalScore] in *.

Lemma last_cons_default : forall (rest : list string) first d,
  last (first :: rest) d = last rest first.
Proof.
  induction rest as [|x rest IH]; intros first d; [reflexivity |].
  change (last (first :: x :: rest) d) with (last (x :: rest) d).
  rewrite IH. symmetry. apply IH.
Qed.

Lemma path_currentPerson_snoc : forall s names x,
  PathGame.currentPath s = names ++ [x] -> PathGame.currentPerson s = Some x.
Proof.
  intros s names x E. unfold PathGame.currentPerson. rewrite E.
  destruct names as [|f rest]; [reflexivity |].
  change ((f :: rest) ++ [x]) with (f :: (rest ++ [x])). cbv iota beta.
  f_equal. apply last_last.
Qed.

Lemma path_currentPerson_last : forall s here,
  PathGame.currentPerson s = Some here ->
  PathGame.currentPath s <> [] /\ last (PathGame.currentPath s) "" = here.
Proof.
  intros s here. unfold PathGame.currentPerson.
  destruct (PathGame.currentPath s) as [|f rest]; [discriminate |].
  intros H. injection H as <-. split; [discriminate |]. apply last_cons_default.
Qed.

Lemma path_choosePair_distinct : forall connections rnd a b,
  PathGame.choosePair connections rnd = Some (a, b) ->
  a <> b /\ In a (peopleArray connections) /\ In b (peopleArray connections).
Proof.
  intros connections rnd a b. unfold PathGame.choosePair.
  destruct (2 <=? length (peopleArray connections)) eqn:Hlen.
  - apply Nat.leb_le in Hlen.
    destruct (JsString.isFalsy (fst (sampleLoop connections rnd 100 0)) ||
              JsString.isFalsy (snd (sampleLoop connections rnd 100 0))) eqn:Hf.
    + intros H. injection H as <- <-. split; [| split; apply nth_In; lia].
      intros E. pose proof (NoDup_allPeople connections) as Hnd.
      unfold peopleArray, JsSet.toArray in *.
      apply (proj1 (NoDup_nth _ "")) with
        (i := 0) (j := length (allPeople connections) - 1) in Hnd; try lia.
      exact E.
    + destruct (sampleLoop_shape connections rnd 100 0) as [E | [i [Hk E]]];
        rewrite E in *.
      * discriminate.
      * intros H. injection H as <- <-.
        split; [now apply keepsPair_distinct in Hk |].
        split; apply randomPerson_In; lia.
  - simpl. discriminate.
Qed.

Lemma pathInv_start : forall connections rnd loading now s stats,
  PathGame.startNewGame connections rnd loading now = Some s ->
  (0 <= PathGame.gamesWon stats <= PathGame.gamesPlayed stats)%Z /\
  (1000 * PathGame.gamesWon stats <= PathGame.totalScore stats)%Z ->
  PathGame.pathInv connections s stats.
Proof.
  intros connections rnd loading now s stats. unfold PathGame.startNewGame.
  destruct (loading || (length connections =? 0)); [discriminate |].
  destruct (PathGame.choosePair connections rnd) as [[a b] |] eqn:Hpair;
    [| discriminate].
  intros H Hstats. injection H as <-.
  apply path_choosePair_distinct in Hpair. destruct Hpair as [Hne _].
  split; path_fields; trivial.
  - exists a. split; [reflexivity |].
    unfold validPath. simpl. now rewrite String.eqb_refl.
  - split; [discriminate |]. intros [E | []]. congruence.
  - discriminate.
Qed.

Lemma pathInv_tick : forall connections now s stats,
  PathGame.pathInv connections s stats ->
  PathGame.pathInv connections (PathGame.tick now s) stats.
Proof.
  intros connections now s stats Hinv. unfold PathGame.tick.
  destruct (PathGame.gameStarted s && negb (PathGame.gameWon s) &&
            negb (PathGame.gameLost s)); [| assumption].
  destruct Hinv as [Hd Hp Ha Hm Hw Hl Hs]. split; trivial.
Qed.

Lemma pathInv_move : forall connections personName s stats,
  PathGame.pathInv connections s stats ->
  PathGame.pathInv connections
    (fst (PathGame.addPersonToPath connections personName s stats))
    (snd (PathGame.addPersonToPath connections personName s stats)).
Proof.
  intros connections personName s stats Hinv.
  pose proof Hinv as Hsame.
  destruct Hinv as [Hd [here [Hhere Hvalid]] Ha Hm Hw Hl [Hs1 Hs2]].
  unfold PathGame.addPersonToPath. rewrite Hhere.
  destruct (areDirectlyConnected connections here personName) eqn:Hadj;
    cbn [negb]; [| exact Hsame].
  assert (Hvalid' : validPath connections (PathGame.startPerson s) personName
                      (PathGame.currentPath s ++ [personName]) = true).
  { now apply validPath_snoc with here. }
  assert (Hlen : Z.of_nat (length (PathGame.currentPath s ++ [personName]))
                 = (Z.of_nat (length (PathGame.currentPath s)) + 1)%Z).
  { rewrite length_app. simpl. lia. }
  assert (Hcur : forall won lost sc,
    PathGame.currentPerson
      (PathGame.moved (PathGame.currentPath s ++ [personName])
                      (PathGame.attempts s + 1) won lost sc s)
    = Some personName).
  { intros. now apply (path_currentPerson_snoc _ (PathGame.currentPath s)). }
  destruct (String.eqb_spec personName (PathGame.targetPerson s)) as [E | Hne].
  - split; path_fields; trivial.
    + exists personName. split; [apply Hcur | assumption].
    + lia.
    + split; trivial. intros _. apply in_app_iff. right. now left.
    + intros Hlost. specialize (Hl Hlost). lia.
    + split; [lia |].
      pose proof (Z.le_max_l 0 (300 - PathGame.timeElapsed s / 1000)).
      pose proof (Z.le_max_l 0
        ((6 - Z.of_nat (length (PathGame.currentPath s ++ [personName]))) * 50)).
      lia.
  - assert (Hwon' : PathGame.gameWon s = true <->
                    In (PathGame.targetPerson s)
                       (PathGame.currentPath s ++ [personName])).
    { rewrite Hw, in_app_iff. simpl. intuition congruence. }
    destruct (PathGame.attempts s + 1 >=? PathGame.maxAttempts s)%Z eqn:Hge.
    + apply Z.geb_le in Hge. split; path_fields; trivial.
      * exists personName. split; [apply Hcur | assumption].
      * lia.
      * split; [lia | assumption].
    + split; path_fields; trivial.
      * exists personName. split; [apply Hcur | assumption].
      * lia.
      * intros Hlost. specialize (Hl Hlost). lia.
      * split; assumption.
Qed.

Lemma path_reachable_inv : forall connections s stats,
  PathGame.reachable connections s stats -> PathGame.pathInv connections s stats.
Proof.
  intros connections s stats Hreach. induction Hreach.
  - eapply pathInv_start; [eassumption |]. path_fields. lia.
  - eapply pathInv_start; [eassumption |].
    apply (PathGame.pi_stats _ _ _ IHHreach).
  - now apply pathInv_tick.
  - now apply pathInv_move.
Qed.

(** X27: in the path game, every reachable session keeps a real path:
    [currentPath] starts at the start person and each of its people is
    directly connected to the next; [attempts] is the number of moves on
    it; the game is won exactly when the target person is on the path, and
    lost only with [attempts] at 6 or more; and the statistics never count
    more wins than games, nor less than 1000 points a win. *)
Theorem X27_path_game_invariants : forall connections s stats,
  PathGame.reachable connections s stats ->
  (exists here, PathGame.currentPerson s = Some here /\
                validPath connections (PathGame.startPerson s) here
                          (PathGame.currentPath s) = true) /\
  PathGame.attempts s = (Z.of_nat (length (PathGame.currentPath s)) - 1)%Z /\
  (PathGame.gameWon s = true <->
   In (PathGame.targetPerson s) (PathGame.currentPath s)) /\
  (PathGame.gameLost s = true -> (6 <= PathGame.attempts s)%Z) /\
  (0 <= PathGame.gamesWon stats <= PathGame.gamesPlayed stats)%Z /\
  (1000 * PathGame.gamesWon stats <= PathGame.totalScore stats)%Z.
Proof.
  intros connections s stats Hreach.
  destruct (path_reachable_inv connections s stats Hreach)
    as [Hd Hp Ha Hm Hw Hl [Hs1 Hs2]].
  split; [exact Hp |]. split; [exact Ha |]. split; [exact Hw |].
  split; [| split; assumption].
  intros Hlost. specialize (Hl Hlost). lia.
Qed.

(** A run of X27's theorem on the path game of the chain A - B - C - D
    after the move to B. *)
Lemma X27_path_game_invariants_witness :
  PathGame.reachable chain4 (fst chain4PathB) (snd chain4PathB) /\
  (exists here, PathGame.currentPerson (fst chain4PathB) = Some here /\
                validPath chain4 (PathGame.startPerson (fst chain4PathB)) here
                          (PathGame.currentPath (fst chain4PathB)) = true) /\
  PathGame.attempts (fst chain4PathB)
  = (Z.of_nat (length (PathGame.currentPath (fst chain4PathB))) - 1)%Z /\
  (PathGame.gameWon (fst chain4PathB) = true <->
   In (PathGame.targetPerson (fst chain4PathB))
      (PathGame.currentPath (fst chain4PathB))) /\
  (PathGame.gameLost (fst chain4PathB) = true ->
   (6 <= PathGame.attempts (fst chain4PathB))%Z) /\
  (0 <= PathGame.gamesWon (snd chain4PathB)
     <= PathGame.gamesPlayed (snd chain4PathB))%Z /\
  (1000 * PathGame.gamesWon (snd chain4PathB)
   <= PathGame.totalScore (snd chain4PathB))%Z.
Proof.
  assert (Hreach : PathGame.reachable chain4 (fst chain4PathB) (snd chain4PathB)).
  { apply (PathGame.reach_move chain4 "B" (fst chain4Path) (snd chain4Path)).
    apply (PathGame.reach_first chain4 draws03 false 0%Z). reflexivity. }
  split; [exact Hreach |].
  apply (X27_path_game_invariants chain4 _ _ Hreach).
Defined.

Lemma walkAlong_cons : forall connections x rest s stats,
  PathGame.walkAlong connections (x :: rest) (s, stats)
  = PathGame.walkAlong connections rest
      (PathGame.addPersonToPath connections x s stats).
Proof. reflexivity. Qed.

Lemma walkAlong_wins : forall connections rest s stats here,
  PathGame.currentPerson s = Some here ->
  stepsLinked connections (here :: rest) = true ->
  rest <> [] ->
  last rest "" = PathGame.targetPerson s ->
  ~ In (PathGame.targetPerson s) (removelast rest) ->
  (PathGame.attempts s + Z.of_nat (length rest) <= PathGame.maxAttempts s)%Z ->
  PathGame.gameWon (fst (PathGame.walkAlong connections rest (s, stats))) = true /\
  PathGame.gameLost (fst (PathGame.walkAlong connections rest (s, stats)))
  = PathGame.gameLost s /\
  PathGame.currentPath (fst (PathGame.walkAlong connections rest (s, stats)))
  = PathGame.currentPath s ++ rest /\
  PathGame.attempts (fst (PathGame.walkAlong connections rest (s, stats)))
  = (PathGame.attempts s + Z.of_nat (length rest))%Z /\
  PathGame.score (fst (PathGame.walkAlong connections rest (s, stats)))
  = (1000 + Z.max 0 (300 - PathGame.timeElapsed s / 1000) +
     Z.max 0 ((6 - Z.of_nat (length (PathGame.currentPath s ++ rest))) * 50))%Z /\
  PathGame.gamesWon (snd (PathGame.walkAlong connections rest (s, stats)))
  = (PathGame.gamesWon stats + 1)%Z /\
  PathGame.gamesPlayed (snd (PathGame.walkAlong connections rest (s, stats)))
  = (PathGame.gamesPlayed stats + 1)%Z.
Proof.
  intros connections. induction rest as [|x rest IH];
    intros s stats here Hcur Hsteps Hne Hlast Hfresh Hbudget; [congruence |].
  rewrite walkAlong_cons.
  assert (Hadj : areDirectlyConnected connections here x = true).
  { change (stepsLinked connections (here :: x :: rest))
      with (areDirectlyConnected connections here x &&
            stepsLinked connections (x :: rest)) in Hsteps.
    now apply andb_true_iff in Hsteps. }
  assert (Hsteps' : stepsLinked connections (x :: rest) = true).
  { change (stepsLinked connections (here :: x :: rest))
      with (areDirectlyConnected connections here x &&
            stepsLinked connections (x :: rest)) in Hsteps.
    now apply andb_true_iff in Hsteps. }
  unfold PathGame.addPersonToPath. rewrite Hcur, Hadj. cbn [negb].
  destruct rest as [|y more].
  - change (last [x] "") with x in Hlast. subst x. rewrite String.eqb_refl.
    unfold PathGame.walkAlong. cbn [fold_left]. path_fields.
    repeat split; trivial.
  - assert (Hx : x <> PathGame.targetPerson s).
    { intros E. apply Hfresh. left. exact E. }
    apply String.eqb_neq in Hx. rewrite Hx.
    assert (Hlen : Z.of_nat (length (x :: y :: more))
                   = (Z.of_nat (length (y :: more)) + 1)%Z).
    { change (length (x :: y :: more)) with (S (length (y :: more))). lia. }
    assert (Hpos : (1 <= Z.of_nat (length (y :: more)))%Z).
    { change (length (y :: more)) with (S (length more)). lia. }
    destruct (PathGame.attempts s + 1 >=? PathGame.maxAttempts s)%Z eqn:Hge.
    { apply Z.geb_le in Hge. lia. }
    destruct (IH (PathGame.moved (PathGame.currentPath s ++ [x])
                    (PathGame.attempts s + 1) (PathGame.gameWon s)
                    (PathGame.gameLost s) (PathGame.score s) s) stats x)
      as [H1 [H2 [H3 [H4 [H5 [H6 H7]]]]]].
    + now apply (path_currentPerson_snoc _ (PathGame.currentPath s)).
    + exact Hsteps'.
    + discriminate.
    + path_fields. exact Hlast.
    + path_fields. intros Hin. apply Hfresh. right. exact Hin.
    + path_fields. lia.
    + path_fields. rewrite <- app_assoc in H3, H5.
      change ([x] ++ y :: more) with (x :: y :: more) in H3, H5.
      repeat split; trivial. lia.
Qed.

(** X28: the path game can be won along the shortest path: from the
    session [startNewGame] sets, when [findShortestPath] from the start to
    the target has at most seven names, moving to its names after the
    first, one after the other, wins the game without losing it; the path
    walked is the one found, each move counts one attempt, the score is
    1300 plus 50 for every name the path is short of six, and the
    statistics count one more win. *)
Theorem X28_shortest_path_moves_win :
  forall connections rnd loading now s stats found,
  PathGame.startNewGame connections rnd loading now = Some s ->
  findShortestPath connections (PathGame.startPerson s) (PathGame.targetPerson s)
  = Some found ->
  length found <= 7 ->
  PathGame.gameWon (fst (PathGame.walkAlong connections (tl found) (s, stats)))
  = true /\
  PathGame.gameLost (fst (PathGame.walkAlong connections (tl found) (s, stats)))
  = false /\
  PathGame.currentPath (fst (PathGame.walkAlong connections (tl found) (s, stats)))
  = found /\
  PathGame.attempts (fst (PathGame.walkAlong connections (tl found) (s, stats)))
  = (Z.of_nat (length found) - 1)%Z /\
  PathGame.score (fst (PathGame.walkAlong connections (tl found) (s, stats)))
  = (1300 + Z.max 0 ((6 - Z.of_nat (length found)) * 50))%Z /\
  PathGame.gamesWon (snd (PathGame.walkAlong connections (tl found) (s, stats)))
  = (PathGame.gamesWon stats + 1)%Z.
Proof.
  intros connections rnd loading now s stats found Hstart Hfound Hlen.
  assert (Hfields : PathGame.startPerson s <> PathGame.targetPerson s /\
                    PathGame.currentPath s = [PathGame.startPerson s] /\
                    PathGame.gameLost s = false /\ PathGame.attempts s = 0%Z /\
                    PathGame.maxAttempts s = 6%Z /\ PathGame.timeElapsed s = 0%Z).
  { unfold PathGame.startNewGame in Hstart.
    destruct (loading || (length connections =? 0)); [discriminate |].
    destruct (PathGame.choosePair connections rnd) as [[a b] |] eqn:Hpair;
      [| discriminate].
    injection Hstart as <-. path_fields.
    apply path_choosePair_distinct in Hpair. tauto. }
  destruct Hfields as [Hne [Hpath [Hlost [Hatt [Hmax Htime]]]]].
  pose proof (findShortestPath_post connections _ _ Hne) as Hpost.
  rewrite Hfound in Hpost. destruct Hpost as [Hvalid Hmin].
  pose proof (shortest_NoDup connections found _ _ Hvalid Hmin) as Hnd.
  assert (Htwo : 2 <= length found).
  { destruct found as [|x [|y rest]]; [discriminate | | simpl; lia].
    exfalso. apply Hne. pose proof (validPath_head _ _ _ _ _ Hvalid) as E.
    unfold validPath in Hvalid.
    apply andb_true_iff in Hvalid. destruct Hvalid as [H _].
    apply andb_true_iff in H. destruct H as [_ H]. apply String.eqb_eq in H.
    simpl in H. congruence. }
  pose proof (path_shape connections _ _ found Hvalid Htwo) as Hshape.
  assert (Htl : tl found = inner found ++ [PathGame.targetPerson s]).
  { rewrite Hshape at 1. reflexivity. }
  assert (Hlen' : length found = S (length (tl found))).
  { rewrite Hshape at 1. rewrite Htl. reflexivity. }
  destruct (walkAlong_wins connections (tl found) s stats (PathGame.startPerson s))
    as [H1 [H2 [H3 [H4 [H5 [H6 H7]]]]]].
  - unfold PathGame.currentPerson. now rewrite Hpath.
  - unfold validPath in Hvalid. rewrite Hshape in Hvalid.
    apply andb_true_iff in Hvalid. destruct Hvalid as [_ Hsteps].
    now rewrite Htl.
  - rewrite Htl. destruct (inner found); discriminate.
  - rewrite Htl. apply last_last.
  - rewrite Htl, removelast_last. intros Hin.
    rewrite Hshape in Hnd. apply NoDup_cons_iff in Hnd. destruct Hnd as [_ Hnd].
    apply NoDup_remove_2 in Hnd. rewrite app_nil_r in Hnd. contradiction.
  - rewrite Hatt, Hmax. lia.
  - assert (Hwhole : PathGame.currentPath s ++ tl found = found).
    { rewrite Hpath, Htl. symmetry. exact Hshape. }
    rewrite Hwhole in H3, H5. rewrite Htime in H5.
    change (Z.max 0 (300 - 0 / 1000))%Z with 300%Z in H5.
    repeat split; try assumption; try congruence; lia.
Qed.

(** A run of X28's theorem on the path game of the chain A - B - C - D:
    the moves B, C, D. *)
Lemma X28_shortest_path_moves_win_witness :
  PathGame.startNewGame chain4 draws03 false 0%Z = Some (fst chain4Path) /\
  PathGame.gameWon
    (fst (PathGame.walkAlong chain4 (tl ["A"; "B"; "C"; "D"])
            (fst chain4Path, snd chain4Path))) = true /\
  PathGame.gameLost
    (fst (PathGame.walkAlong chain4 (tl ["A"; "B"; "C"; "D"])
            (fst chain4Path, snd chain4Path))) = false /\
  PathGame.currentPath
    (fst (PathGame.walkAlong chain4 (tl ["A"; "B"; "C"; "D"])
            (fst chain4Path, snd chain4Path))) = ["A"; "B"; "C"; "D"] /\
  PathGame.attempts
    (fst (PathGame.walkAlong chain4 (tl ["A"; "B"; "C"; "D"])
            (fst chain4Path, snd chain4Path)))
  = (Z.of_nat (length ["A"; "B"; "C"; "D"]) - 1)%Z /\
  PathGame.score
    (fst (PathGame.walkAlong chain4 (tl ["A"; "B"; "C"; "D"])
            (fst chain4Path, snd chain4Path)))
  = (1300 + Z.max 0 ((6 - Z.of_nat (length ["A"; "B"; "C"; "D"])) * 50))%Z /\
  PathGame.gamesWon
    (snd (PathGame.walkAlong chain4 (tl ["A"; "B"; "C"; "D"])
            (fst chain4Path, snd chain4Path)))
  = (PathGame.gamesWon (snd chain4Path) + 1)%Z.
Proof.
  split; [reflexivity |].
  apply (X28_shortest_path_moves_win chain4 draws03 false 0%Z
           (fst chain4Path) (snd chain4Path) ["A"; "B"; "C"; "D"]).
  - reflexivity.
  - vm_compute. reflexivity.
  - simpl. lia.
Defined.

Lemma suggestion_fits : forall connections value s name,
  In name (PathGame.handleSearchChange connections value s) ->
  PathGame.gameStarted s = true /\ PathGame.gameWon s = false /\
  PathGame.gameLost s = false /\
  ~ In name (PathGame.currentPath s) /\
  Js.includes (JsString.toLowerCase name) (JsString.toLowerCase value) = true /\
  exists here, PathGame.currentPerson s = Some here /\
               areDirectlyConnected connections here name = true.
Proof.
  intros connections value s name. unfold PathGame.handleSearchChange.
  destruct (negb (JsString.isFalsy (JsString.trim value)) &&
            PathGame.gameStarted s && negb (PathGame.gameWon s) &&
            negb (PathGame.gameLost s)) eqn:Hopen; [| intros []].
  apply andb_true_iff in Hopen. destruct Hopen as [Hopen Hlost].
  apply andb_true_iff in Hopen. destruct Hopen as [Hopen Hwon].
  apply andb_true_iff in Hopen. destruct Hopen as [_ Hstarted].
  apply negb_true_iff in Hlost, Hwon.
  intros Hin. apply firstn_In in Hin. apply filter_In in Hin.
  destruct Hin as [Hconn Hkeep].
  apply andb_true_iff in Hkeep. destruct Hkeep as [Hinc Hnew].
  apply negb_true_iff in Hnew.
  repeat (split; [assumption |]). split; [| split; [assumption |]].
  - intros Hon. apply Bool.not_true_iff_false in Hnew. apply Hnew.
    apply existsb_exists. exists name. split; [assumption | apply String.eqb_refl].
  - destruct (PathGame.currentPerson s) as [here |]; [| destruct Hconn].
    exists here. split; [reflexivity |]. now apply getConnections_spec.
Qed.

(** X29: in the path game a suggestion is always a legal new move: a
    name [handleSearchChange] suggests is suggested only while the game
    runs, is not on the path and contains the query ignoring letter case,
    and [addPersonToPath] with it appends it to the path and counts one
    attempt. *)
Theorem X29_suggestion_is_a_legal_new_move :
  forall connections value s stats name,
  In name (PathGame.handleSearchChange connections value s) ->
  PathGame.gameWon s = false /\ PathGame.gameLost s = false /\
  ~ In name (PathGame.currentPath s) /\
  Js.includes (JsString.toLowerCase name) (JsString.toLowerCase value) = true /\
  PathGame.currentPath (fst (PathGame.addPersonToPath connections name s stats))
  = PathGame.currentPath s ++ [name] /\
  PathGame.attempts (fst (PathGame.addPersonToPath connections name s stats))
  = (PathGame.attempts s + 1)%Z.
Proof.
  intros connections value s stats name Hin.
  destruct (suggestion_fits connections value s name Hin)
    as [_ [Hwon [Hlost [Hnew [Hinc [here [Hcur Hadj]]]]]]].
  repeat (split; [assumption |]).
  unfold PathGame.addPersonToPath. rewrite Hcur, Hadj. cbn [negb].
  destruct (String.eqb name (PathGame.targetPerson s));
    [| destruct (PathGame.attempts s + 1 >=? PathGame.maxAttempts s)%Z];
    path_fields; split; reflexivity.
Qed.

(** A run of X29's theorem on the path game of the chain A - B - C - D:
    the query b suggests B. *)
Lemma X29_suggestion_is_a_legal_new_move_witness :
  In "B" (PathGame.handleSearchChange chain4 "b" (fst chain4Path)) /\
  PathGame.gameWon (fst chain4Path) = false /\
  PathGame.gameLost (fst chain4Path) = false /\
  ~ In "B" (PathGame.currentPath (fst chain4Path)) /\
  Js.includes (JsString.toLowerCase "B") (JsString.toLowerCase "b") = true /\
  PathGame.currentPath
    (fst (PathGame.addPersonToPath chain4 "B" (fst chain4Path) (snd chain4Path)))
  = PathGame.currentPath (fst chain4Path) ++ ["B"] /\
  PathGame.attempts
    (fst (PathGame.addPersonToPath chain4 "B" (fst chain4Path) (snd chain4Path)))
  = (PathGame.attempts (fst chain4Path) + 1)%Z.
Proof.
  assert (Hin : In "B" (PathGame.handleSearchChange chain4 "b" (fst chain4Path))).
  { vm_compute. left. reflexivity. }
  split; [exact Hin |].
  apply (X29_suggestion_is_a_legal_new_move chain4 "b" (fst chain4Path)
           (snd chain4Path) "B" Hin).
Defined.

Lemma played_reachable : forall connections s stats,
  played connections s stats -> PathGame.reachable connections s stats.
Proof.
  intros connections s stats H. induction H.
  - eapply PathGame.reach_first; eassumption.
  - eapply PathGame.reach_again; eassumption.
  - now apply PathGame.reach_clock.
  - now apply PathGame.reach_move.
Qed.

Lemma played_start : forall connections rnd loading now s,
  PathGame.startNewGame connections rnd loading now = Some s ->
  NoDup (PathGame.currentPath s) /\
  (PathGame.gameWon s = true -> PathGame.gameLost s = false) /\
  (PathGame.attempts s <= 6)%Z /\
  (PathGame.gameLost s = true <->
   PathGame.attempts s = 6%Z /\ PathGame.gameWon s = false) /\
  (PathGame.gameWon s = true <->
   PathGame.currentPerson s = Some (PathGame.targetPerson s)).
Proof.
  intros connections rnd loading now s. unfold PathGame.startNewGame.
  destruct (loading || (length connections =? 0)); [discriminate |].
  destruct (PathGame.choosePair connections rnd) as [[a b] |] eqn:Hpair;
    [| discriminate].
  intros H. injection H as <-.
  apply path_choosePair_distinct in Hpair. destruct Hpair as [Hne _].
  path_fields. split; [| split; [| split; [| split]]].
  - constructor; [intros [] | constructor].
  - discriminate.
  - lia.
  - split; [discriminate | intros [H _]; discriminate].
  - unfold PathGame.currentPerson. path_fields.
    split; [discriminate |]. intros H. injection H as H. contradiction.
Qed.

Lemma played_inv : forall connections s stats,
  played connections s stats ->
  NoDup (PathGame.currentPath s) /\
  (PathGame.gameWon s = true -> PathGame.gameLost s = false) /\
  (PathGame.attempts s <= 6)%Z /\
  (PathGame.gameLost s = true <->
   PathGame.attempts s = 6%Z /\ PathGame.gameWon s = false) /\
  (PathGame.gameWon s = true <->
   PathGame.currentPerson s = Some (PathGame.targetPerson s)).
Proof.
  intros connections s stats H. induction H as
    [rnd loading now s Hstart
    | rnd loading now s old stats Hold _ Hstart
    | now s stats Hplayed IH
    | value name s stats Hplayed IH Hin].
  - now apply (played_start connections rnd loading now).
  - now apply (played_start connections rnd loading now).
  - unfold PathGame.tick.
    destruct (PathGame.gameStarted s && negb (PathGame.gameWon s) &&
              negb (PathGame.gameLost s)); exact IH.
  - destruct IH as [Hnd [Hexcl [Hle [Hlostiff Hwoniff]]]].
    pose proof (PathGame.pi_max _ _ _
                  (path_reachable_inv _ _ _ (played_reachable _ _ _ Hplayed)))
      as Hmax.
    destruct (suggestion_fits connections value s name Hin)
      as [_ [Hwon [Hlost [Hnew [_ [here [Hcur Hadj]]]]]]].
    assert (Hroom : (PathGame.attempts s < 6)%Z).
    { destruct (Z.eq_dec (PathGame.attempts s) 6) as [E | N]; [| lia].
      assert (Hl : PathGame.gameLost s = true) by (apply Hlostiff; auto).
      congruence. }
    assert (Hnd' : NoDup (PathGame.currentPath s ++ [name])).
    { apply NoDup_app; [assumption | constructor; [intros [] | constructor] |].
      intros x Hx [<- | []]. contradiction. }
    assert (Hcur' : forall won lost sc,
      PathGame.currentPerson
        (PathGame.moved (PathGame.currentPath s ++ [name])
                        (PathGame.attempts s + 1) won lost sc s)
      = Some name).
    { intros. now apply (path_currentPerson_snoc _ (PathGame.currentPath s)). }
    unfold PathGame.addPersonToPath. rewrite Hcur, Hadj. cbn [negb].
    destruct (String.eqb_spec name (PathGame.targetPerson s)) as [E | Hne].
    + cbn [fst snd]. rewrite Hcur'. path_fields.
      split; [assumption |]. split; [intros _; assumption |].
      split; [lia |]. split.
      * rewrite Hlost. split; [discriminate | intros [_ H]; discriminate].
      * split; [intros _; now rewrite E | reflexivity].
    + assert (Hlast : Some name <> Some (PathGame.targetPerson s)).
      { intros H. injection H as H. contradiction. }
      destruct (PathGame.attempts s + 1 >=? PathGame.maxAttempts s)%Z eqn:Hge.
      * apply Z.geb_le in Hge. cbn [fst snd]. rewrite Hcur'. path_fields.
        rewrite Hwon.
        split; [assumption |]. split; [discriminate |].
        split; [lia |]. split.
        -- split; [intros _; split; [lia | reflexivity] | reflexivity].
        -- split; [discriminate | intros H; contradiction].
      * apply geb_false in Hge. cbn [fst snd]. rewrite Hcur'. path_fields.
        rewrite Hwon, Hlost.
        split; [assumption |]. split; [discriminate |].
        split; [lia |]. split.
        -- split; [discriminate |]. intros [H _]. lia.
        -- split; [discriminate | intros H; contradiction].
Qed.

(** X30: when every move of the path game is a click on a suggestion, a
    game stops where it ends: nobody is on the path twice, the path never
    has more than seven people nor the session more than 6 attempts, a
    session is never both won and lost, it is lost exactly when the sixth
    move did not win, and it is won exactly when the path ends at the
    target person. *)
Theorem X30_suggested_play_stops_at_the_end : forall connections s stats,
  played connections s stats ->
  NoDup (PathGame.currentPath s) /\
  length (PathGame.currentPath s) <= 7 /\
  (PathGame.attempts s <= 6)%Z /\
  (PathGame.gameWon s = true -> PathGame.gameLost s = false) /\
  (PathGame.gameLost s = true <->
   PathGame.attempts s = 6%Z /\ PathGame.gameWon s = false) /\
  (PathGame.gameWon s = true <->
   PathGame.currentPerson s = Some (PathGame.targetPerson s)).
Proof.
  intros connections s stats Hplayed.
  destruct (played_inv connections s stats Hplayed)
    as [Hnd [Hexcl [Hle [Hlost Hwon]]]].
  pose proof (PathGame.pi_attempts _ _ _
                (path_reachable_inv _ _ _ (played_reachable _ _ _ Hplayed)))
    as Hatt.
  split; [exact Hnd |]. split; [lia |]. split; [exact Hle |].
  split; [exact Hexcl |]. split; assumption.
Qed.

(** A run of X30's theorem on the path game of the chain A - B - C - D
    after the click on the suggestion B. *)
Lemma X30_suggested_play_stops_at_the_end_witness :
  played chain4 (fst chain4PathB) (snd chain4PathB) /\
  NoDup (PathGame.currentPath (fst chain4PathB)) /\
  length (PathGame.currentPath (fst chain4PathB)) <= 7 /\
  (PathGame.attempts (fst chain4PathB) <= 6)%Z /\
  (PathGame.gameWon (fst chain4PathB) = true ->
   PathGame.gameLost (fst chain4PathB) = false) /\
  (PathGame.gameLost (fst chain4PathB) = true <->
   PathGame.attempts (fst chain4PathB) = 6%Z /\
   PathGame.gameWon (fst chain4PathB) = false) /\
  (PathGame.gameWon (fst chain4PathB) = true <->
   PathGame.currentPerson (fst chain4PathB)
   = Some (PathGame.targetPerson (fst chain4PathB))).
Proof.
  assert (Hplayed : played chain4 (fst chain4PathB) (snd chain4PathB)).
  { apply (played_click chain4 "b" "B" (fst chain4Path) (snd chain4Path)).
    - apply (played_first chain4 draws03 false 0%Z). reflexivity.
    - vm_compute. left. reflexivity. }
  split; [exact Hplayed |].
  apply (X30_suggested_play_stops_at_the_end chain4 _ _ Hplayed).
Defined.
